(** * PDF recipe to Obsidian markdown converter: the recipe parser, the tag
    engine, the note renderer and the file-name sanitizer of
    [Convert/pdf_to_obsidian_converter.py], embedded in Rocq.

    A Python [str] is a sequence of Unicode code points: here a [list N].
    The regular expressions of the program are kept as syntax trees and run
    by a backtracking matcher that tries the alternatives in the order
    Python's [re] module tries them. *)

From Stdlib Require Import NArith ZArith Lia Ascii.
From stdpp Require Import gmap list sorting strings.

Open Scope N_scope.

(** ** Python strings *)

Abbreviation str := (list N).

(** An ASCII literal of the source as a list of code points. *)
Definition lit (s : string) : str :=
  (λ a, N_of_ascii a) <$> String.list_ascii_of_string s.

(** [U+2022], the bullet of the ingredient pattern. *)
Definition bullet : N := 8226.

Definition newline : N := 10.
Definition space : N := 32.
Definition underscore : N := 95.

Definition in_range (lo hi c : N) : bool := (lo <=? c) && (c <=? hi).

Definition is_ascii (c : N) : bool := c <? 128.

Definition ascii_lower (c : N) : N := if in_range 65 90 c then c + 32 else c.
Definition ascii_upper (c : N) : N := if in_range 97 122 c then c - 32 else c.

(** [str.isspace] on one code point, which is also what [\s] matches and what
    [str.strip] removes: the Unicode white space of CPython. *)
Definition isspace (c : N) : bool :=
  in_range 9 13 c || in_range 28 32 c || (c =? 133) || (c =? 160)
  || (c =? 5760) || in_range 8192 8202 c || (c =? 8232) || (c =? 8233)
  || (c =? 8239) || (c =? 8287) || (c =? 12288).

(** Python exceptions the modelled code can meet. *)
Inductive exn := ValueError | AttributeError.

Inductive result (A : Type) : Type :=
| Ok (a : A)
| Raise (e : exn).
Arguments Ok {A} a.
Arguments Raise {A} e.

Global Instance result_ret : MRet result := λ A a, Ok a.
Global Instance result_bind : MBind result := λ A B f x,
  match x with
  | Ok a => f a
  | Raise e => Raise e
  end.

(** What the interpreter knows about the code points above ASCII, and its
    limit on the length of a decimal literal given to [int].  On ASCII text
    none of the tables is consulted. *)
Class Runtime := {
  (** [str.isdecimal] (category Nd, what [\d] matches) and the digit's value *)
  u_isdecimal : N → bool;
  u_decimal_value : N → Z;
  (** [str.isalnum]: with the underscore, what [\w] matches *)
  u_isalnum : N → bool;
  (** the simple lower-case mapping [re] applies to the subject under
      [IGNORECASE] *)
  u_tolower : N → N;
  (** under [IGNORECASE]: does the literal [p] of a pattern, or the range
      [lo-hi] of a set, accept the code point? *)
  u_fold_eq : N → N → bool;
  u_fold_range : N → N → N → bool;
  (** [str.lower] on a string that is not pure ASCII (it is not
      character-wise: final sigma) *)
  u_lower : str → str;
  (** [sys.get_int_max_str_digits()], 4300 by default; 0 is no limit.  It
      is looked at for literals of more than 640 digits only. *)
  int_max_str_digits : nat;
  (** no code point is both alphanumeric and white space *)
  u_isalnum_not_space : ∀ c, u_isalnum c = true → isspace c = false;
}.

(** An interpreter whose text is ASCII only: no digit, letter or case above
    code point 127. *)
Program Definition ascii_runtime : Runtime := {|
  u_isdecimal := λ _, false;
  u_decimal_value := λ _, 0%Z;
  u_isalnum := λ _, false;
  u_tolower := λ c, c;
  u_fold_eq := λ p c, p =? c;
  u_fold_range := λ lo hi c, in_range lo hi c;
  u_lower := λ s, ascii_lower <$> s;
  int_max_str_digits := 4300;
|}.
Next Obligation. discriminate. Qed.

Module Py.
Section builtins.
Context `{Runtime}.

Definition isdigit (c : N) : bool :=
  if is_ascii c then in_range 48 57 c else u_isdecimal c.

Definition digit_value (c : N) : Z :=
  if is_ascii c then Z.of_N c - 48 else u_decimal_value c.

(** what [\w] matches *)
Definition isword (c : N) : bool :=
  if is_ascii c
  then in_range 48 57 c || in_range 65 90 c || in_range 97 122 c || (c =? 95)
  else u_isalnum c.

(** [s.lower()] *)
Definition lower (s : str) : str :=
  if forallb is_ascii s then ascii_lower <$> s else u_lower s.

(** [bool(s)]: a string is true when it is not empty *)
Definition truthy {A} (s : list A) : bool :=
  match s with [] => false | _ => true end.

Fixpoint lstrip_with (p : N → bool) (s : str) : str :=
  match s with
  | c :: s' => if p c then lstrip_with p s' else s
  | [] => []
  end.

Definition rstrip_with (p : N → bool) (s : str) : str :=
  rev (lstrip_with p (rev s)).

(** [s.strip()] *)
Definition strip (s : str) : str := rstrip_with isspace (lstrip_with isspace s).

(** [s.rstrip(chars)] *)
Definition rstrip (chars : str) (s : str) : str :=
  rstrip_with (λ c, bool_decide (c ∈ chars)) s.

(** [s.startswith(prefix)] *)
Fixpoint startswith (prefix s : str) : bool :=
  match prefix, s with
  | [], _ => true
  | p :: prefix', c :: s' => (p =? c) && startswith prefix' s'
  | _ :: _, [] => false
  end.

(** [s.startswith((p1, p2, ...))] *)
Definition startswith_any (prefixes : list str) (s : str) : bool :=
  existsb (λ p, startswith p s) prefixes.

(** [sub in s] *)
Fixpoint contains (sub s : str) : bool :=
  startswith sub s ||
  match s with
  | _ :: s' => contains sub s'
  | [] => false
  end.

(** [s.split(sep)] for a separator of one code point *)
Fixpoint split (sep : N) (s : str) : list str :=
  match s with
  | [] => [[]]
  | c :: s' =>
      if c =? sep then [] :: split sep s'
      else match split sep s' with
           | line :: lines => (c :: line) :: lines
           | [] => [[c]]
           end
  end.

(** [sep.join(parts)] *)
Fixpoint join (sep : str) (parts : list str) : str :=
  match parts with
  | [] => []
  | [p] => p
  | p :: parts' => p ++ sep ++ join sep parts'
  end.

(** [s.replace(old, new)] for [old] and [new] of one code point *)
Definition replace (old new : N) (s : str) : str :=
  (λ c, if c =? old then new else c) <$> s.

(** The digits of a decimal literal, [1_000] style underscores allowed
    between two digits. *)
Fixpoint literal_digits (after_digit : bool) (s : str) : option (list Z) :=
  match s with
  | [] => if after_digit then Some [] else None
  | c :: s' =>
      if isdigit c then cons (digit_value c) <$> literal_digits true s'
      else if (c =? 95) && after_digit then
        match s' with
        | d :: _ => if isdigit d then literal_digits false s' else None
        | [] => None
        end
      else None
  end.

(** The white space [int] skips at the two ends of its argument: what
    [str.isspace] takes for white space, but for the four separators
    U+001C to U+001F, which [int] does not skip. *)
Definition int_space (c : N) : bool := isspace c && negb (in_range 28 31 c).

(** [int(s)]: white space around the literal is dropped, a sign may lead,
    and a literal of more than 640 digits is refused when it is over the
    interpreter's limit. *)
Definition int (s : str) : result Z :=
  let s := rstrip_with int_space (lstrip_with int_space s) in
  let '(sign, body) :=
    match s with
    | 45 :: s' => ((-1)%Z, s')
    | 43 :: s' => (1%Z, s')
    | _ => (1%Z, s)
    end in
  match literal_digits false body with
  | Some ds =>
      if bool_decide (640 < length ds)%nat
         && (bool_decide (int_max_str_digits ≠ 0%nat)
             && bool_decide (int_max_str_digits < length ds)%nat)
      then Raise ValueError
      else Ok (sign * fold_left (λ acc d, 10 * acc + d) ds 0)%Z
  | None => Raise ValueError
  end.

(** [str(n)] for a natural number, as an f-string prints a loop index *)
Fixpoint digits_of (fuel : nat) (n : N) (acc : str) : str :=
  match fuel with
  | O => acc
  | S fuel' =>
      let acc' := (48 + n mod 10) :: acc in
      if n <? 10 then acc' else digits_of fuel' (n / 10) acc'
  end.

Definition str_of_nat (n : nat) : str :=
  digits_of (S n) (N.of_nat n) [].
End builtins.
End Py.

(** ** Regular expressions

    The syntax the program's patterns need.  Every quantifier of the program
    ([*], [+], [?], [{m,n}], greedy or lazy) applies to one character set, so
    [Repeat] takes a set. *)

Module Re.

Record flags := { ignorecase : bool; multiline : bool; dotall : bool }.

(** a member of a bracketed set: a literal, a range, [\s], [\d], [\w] *)
Inductive item :=
| Lit (c : N)
| Range (lo hi : N)
| Space
| Digit
| Word.

(** one position of the subject: [.], [[...]] or [[^...]] *)
Inductive cset :=
| Any
| OneOf (items : list item)
| NoneOf (items : list item).

Inductive regex :=
| Empty
| Char (cs : cset)
| Seq (r1 r2 : regex)
| Alt (r1 r2 : regex)
| Repeat (cs : cset) (lo : nat) (hi : option nat) (greedy : bool)
| Group (n : nat) (r : regex)
| Bol                                   (* ^ *)
| Eol                                   (* $ *)
| Lookahead (r : regex).                (* (?=...) *)

(** Where the matcher stands: the text behind it (nearest code point first),
    the text ahead, and the groups captured so far (latest first). *)
Record mstate := { before : str; after : str; caps : list (nat * str) }.

Fixpoint lookup_group (n : nat) (cs : list (nat * str)) : option str :=
  match cs with
  | (i, s) :: cs' => if bool_decide (i = n) then Some s else lookup_group n cs'
  | [] => None
  end.

(** [m.group(n)]; [None] when the group took no part in the match *)
Definition group (n : nat) (m : mstate) : option str := lookup_group n (caps m).

Definition orelse {A} (x : option A) (y : unit → option A) : option A :=
  match x with
  | Some a => Some a
  | None => y ()
  end.

Section matcher.
Context `{Runtime}.
Variable fl : flags.

Definition tolower (c : N) : N :=
  if is_ascii c then ascii_lower c else u_tolower c.

Definition fold_eq (p c : N) : bool :=
  if is_ascii p && is_ascii c then ascii_lower p =? ascii_lower c
  else u_fold_eq p c.

Definition fold_range (lo hi c : N) : bool :=
  if is_ascii lo && is_ascii hi && is_ascii c
  then in_range lo hi (ascii_lower c) || in_range lo hi (ascii_upper c)
  else u_fold_range lo hi c.

Definition item_match (it : item) (c : N) : bool :=
  let ic := ignorecase fl in
  match it with
  | Lit p => if ic then fold_eq p c else c =? p
  | Range lo hi => if ic then fold_range lo hi c else in_range lo hi c
  | Space => isspace (if ic then tolower c else c)
  | Digit => Py.isdigit (if ic then tolower c else c)
  | Word => Py.isword (if ic then tolower c else c)
  end.

Definition cset_match (cs : cset) (c : N) : bool :=
  match cs with
  | Any => dotall fl || negb (c =? newline)
  | OneOf items => existsb (λ it, item_match it c) items
  | NoneOf items => negb (existsb (λ it, item_match it c) items)
  end.

Definition at_bol (st : mstate) : bool :=
  match before st with
  | [] => true
  | c :: _ => multiline fl && (c =? newline)
  end.

Definition at_eol (st : mstate) : bool :=
  match after st with
  | [] => true
  | c :: rest =>
      (c =? newline) && (multiline fl || match rest with [] => true | _ => false end)
  end.

Definition below (n : nat) (hi : option nat) : bool :=
  match hi with
  | Some m => bool_decide (n < m)%nat
  | None => true
  end.

(** A quantified set, [n] repetitions done.  Greedy: first one more
    repetition, then the rest of the pattern; lazy: the other way round. *)
Fixpoint repeat_one (cs : cset) (lo : nat) (hi : option nat) (greedy : bool)
    (n : nat) (b a : str) (k : str → str → option mstate) {struct a}
    : option mstate :=
  let stop (_ : unit) := if bool_decide (lo ≤ n)%nat then k b a else None in
  let more (_ : unit) :=
    match a with
    | c :: a' =>
        if below n hi && cset_match cs c
        then repeat_one cs lo hi greedy (S n) (c :: b) a' k
        else None
    | [] => None
    end in
  if greedy then orelse (more ()) stop else orelse (stop ()) more.

(** The text between two positions of one subject, the second further on. *)
Definition span (st st' : mstate) : str :=
  take (length (after st) - length (after st')) (after st).

Definition set_group (n : nat) (s : str) (st : mstate) : mstate :=
  {| before := before st; after := after st; caps := (n, s) :: caps st |}.

(** [rmatch r st k]: match [r] at [st], then the rest of the pattern [k];
    the first success in backtracking order. *)
Fixpoint rmatch (r : regex) (st : mstate) (k : mstate → option mstate)
    : option mstate :=
  match r with
  | Empty => k st
  | Char cs =>
      match after st with
      | c :: rest =>
          if cset_match cs c
          then k {| before := c :: before st; after := rest; caps := caps st |}
          else None
      | [] => None
      end
  | Seq r1 r2 => rmatch r1 st (λ st', rmatch r2 st' k)
  | Alt r1 r2 => orelse (rmatch r1 st k) (λ _, rmatch r2 st k)
  | Repeat cs lo hi greedy =>
      repeat_one cs lo hi greedy 0 (before st) (after st)
        (λ b a, k {| before := b; after := a; caps := caps st |})
  | Group n r => rmatch r st (λ st', k (set_group n (span st st') st'))
  | Bol => if at_bol st then k st else None
  | Eol => if at_eol st then k st else None
  | Lookahead r =>
      match rmatch r st Some with
      | Some st' =>
          k {| before := before st; after := after st; caps := caps st' |}
      | None => None
      end
  end.

(** One attempt at one position.  After an empty match the next attempt at
    the same position must advance. *)
Definition attempt (r : regex) (must_advance : bool) (b a : str)
    : option mstate :=
  rmatch r {| before := b; after := a; caps := [] |}
    (λ st', if must_advance && bool_decide (length (after st') = length a)
            then None else Some st').

Fixpoint search_from (r : regex) (b a : str) : option mstate :=
  orelse (attempt r false b a)
    (λ _, match a with
          | c :: a' => search_from r (c :: b) a'
          | [] => None
          end).

(** [re.search(r, s, fl)]: the leftmost match, as the state at its end. *)
Definition search (r : regex) (s : str) : option mstate :=
  search_from r [] s.

(** The subject cut by the successive matches: a code point no match
    covers, or a match with the text it covers. *)
Inductive piece :=
| Gap (c : N)
| Hit (text : str) (m : mstate).

Definition hit (a : str) (m : mstate) : piece :=
  Hit (take (length a - length (after m)) a) m.

Definition hit_length (a : str) (m : mstate) : nat :=
  length a - length (after m).

(** The scan behind [findall] and [sub]; [skip] code points still belong to
    the last match. *)
Fixpoint scan (r : regex) (skip : nat) (b a : str) : list piece :=
  match skip, a with
  | S n, c :: a' => scan r n (c :: b) a'
  | S _, [] => []
  | O, [] =>
      match attempt r false b [] with
      | Some m => [hit [] m]
      | None => []
      end
  | O, c :: a' =>
      match attempt r false b a with
      | Some m =>
          match hit_length a m with
          | S n => hit a m :: scan r n (c :: b) a'
          | O =>
              hit a m ::
              match attempt r true b a with
              | Some m' => hit a m' :: scan r (hit_length a m' - 1) (c :: b) a'
              | None => Gap c :: scan r 0 (c :: b) a'
              end
          end
      | None => Gap c :: scan r 0 (c :: b) a'
      end
  end.

(** [re.findall(r, s, fl)] for a pattern with one group: the text of group
    1 of every match, empty where the group took no part. *)
Definition findall (r : regex) (s : str) : list str :=
  omap (λ p, match p with
             | Hit _ m => Some (default [] (group 1 m))
             | Gap _ => None
             end) (scan r 0 [] s).

(** [re.sub(r, repl, s)] for a replacement without group references. *)
Definition sub (r : regex) (repl : str) (s : str) : str :=
  concat ((λ p, match p with
                | Hit _ _ => repl
                | Gap c => [c]
                end) <$> scan r 0 [] s).

End matcher.

(** Pattern syntax helpers. *)
Definition seq (rs : list regex) : regex := foldr Seq Empty rs.
Definition chr (c : N) : regex := Char (OneOf [Lit c]).
Definition text (s : string) : regex := seq (chr <$> lit s).
Fixpoint alt (rs : list regex) : regex :=
  match rs with
  | [] => Char (OneOf [])
  | [r] => r
  | r :: rs' => Alt r (alt rs')
  end.
Definition star (cs : cset) : regex := Repeat cs 0 None true.
Definition plus (cs : cset) : regex := Repeat cs 1 None true.
Definition opt (cs : cset) : regex := Repeat cs 0 (Some 1%nat) true.
Definition lazy_star (cs : cset) : regex := Repeat cs 0 None false.
Definition lit_item (s : string) : list item := Lit <$> lit s.

Definition NOFLAG : flags :=
  {| ignorecase := false; multiline := false; dotall := false |}.
Definition IGNORECASE : flags :=
  {| ignorecase := true; multiline := false; dotall := false |}.
Definition IGNORECASE_MULTILINE : flags :=
  {| ignorecase := true; multiline := true; dotall := false |}.
Definition IGNORECASE_DOTALL : flags :=
  {| ignorecase := true; multiline := false; dotall := true |}.
Definition DOTALL : flags :=
  {| ignorecase := false; multiline := false; dotall := true |}.

End Re.

(** ** Sorting tags

    Python compares strings code point by code point; [sorted] on the tags
    (a set: no two equal) gives the one list in that order. *)

Fixpoint str_leb (a b : str) : bool :=
  match a, b with
  | [], _ => true
  | _ :: _, [] => false
  | x :: a', y :: b' => (x <? y) || ((x =? y) && str_leb a' b')
  end.

Definition str_le (a b : str) : Prop := str_leb a b = true.

Global Instance str_le_dec a b : Decision (str_le a b).
Proof. unfold str_le. apply _. Defined.

Definition sorted (l : list str) : list str := merge_sort str_le l.

(** ** The program *)

Definition code (a : ascii) : N := N_of_ascii a.

(** [recipe_data], the dictionary [parse_recipe_data] builds: its six keys
    are fixed.  [calories] and [protein] hold the matched digits as text, and
    the empty string when absent. *)
Record recipe := {
  title : str;
  calories : str;
  protein : str;
  ingredients : list str;
  directions : list str;
  pro_tips : list str;
}.

Module RecipeExtractor.
Import Re.

(** [self.ingredient_tags], in the order of the source *)
Definition entry (tag : string) (keywords : list string) : str * list str :=
  (lit tag, lit <$> keywords).

Definition ingredient_tags : list (str * list str) :=
  [ entry "chicken" ["chicken"; "chicken breast"; "chicken tender"];
    entry "turkey" ["turkey"; "turkey bacon"; "turkey sausage"; "turkey chorizo";
                "turkey pepperoni"];
    entry "beef" ["beef"; "ground beef"; "steak"];
    entry "pork" ["pork"; "bacon"; "ham"];
    entry "fish" ["fish"; "salmon"; "tuna"; "cod"];
    entry "egg" ["egg"; "egg white"; "eggs"];
    entry "breakfast" ["breakfast"; "bagel"; "waffle"; "pancake"; "burrito";
                   "scramble"];
    entry "lunch" ["lunch"; "sandwich"; "wrap"; "salad"];
    entry "dinner" ["dinner"; "pasta"; "rice"; "stir fry"];
    entry "snack" ["snack"; "bar"; "bite"; "ball"];
    entry "pizza" ["pizza"; "flatbread"; "pita"];
    entry "pasta" ["pasta"; "noodle"; "spaghetti"; "penne"];
    entry "sandwich" ["sandwich"; "sub"; "hoagie"];
    entry "burrito" ["burrito"; "wrap"; "tortilla"];
    entry "bagel" ["bagel"];
    entry "waffle" ["waffle"];
    entry "pancake" ["pancake"];
    entry "salad" ["salad"; "bowl"];
    entry "airfryer" ["air fryer"; "airfryer"];
    entry "baked" ["baked"; "oven"; "broil"];
    entry "grilled" ["grilled"; "grill"];
    entry "lowcarb" ["low carb"; "keto"; "carb balance"];
    entry "highprotein" ["protein"; "high protein"];
    entry "fatfree" ["fat free"; "fat-free"] ]%string.

(** *** The patterns of [parse_recipe_data] *)

Definition upper_AZ : cset := OneOf [Range (code "A") (code "Z")].
Definition digit : cset := OneOf [Digit].
Definition spaces : cset := OneOf [Space].
Definition dot : cset := OneOf [Lit (code ".")].
(** the set ["[^.!?\n]"] *)
Definition not_end : cset :=
  NoneOf [Lit (code "."); Lit (code "!"); Lit (code "?"); Lit newline].

(** ["\s+"] *)
Definition whitespace_run : regex := plus spaces.

(** group 1 around
    ["[A-Z][^.!?\n]*(?:breakfast|lunch|dinner|pizza|sandwich|burrito|bagel|waffle|pancake|salad|bowl|plate|wrap)[^.!?\n]*"] *)
Definition title_meal : regex :=
  Group 1 (seq [Char upper_AZ; star not_end;
                alt (text <$> ["breakfast"; "lunch"; "dinner"; "pizza";
                               "sandwich"; "burrito"; "bagel"; "waffle";
                               "pancake"; "salad"; "bowl"; "plate";
                               "wrap"]%string);
                star not_end]).

(** group 1 around
    ["[A-Z][a-z\s]+(?:chicken|turkey|beef|pork|fish)[^.!?\n]*"] *)
Definition title_protein : regex :=
  Group 1 (seq [Char upper_AZ;
                plus (OneOf [Range (code "a") (code "z"); Space]);
                alt (text <$> ["chicken"; "turkey"; "beef"; "pork";
                               "fish"]%string);
                star not_end]).

(** ["^([A-Z][^.!?\n]{10,50})"] *)
Definition title_line : regex :=
  seq [Bol; Group 1 (seq [Char upper_AZ; Repeat not_end 10 (Some 50%nat) true])].

Definition title_patterns : list regex :=
  [title_meal; title_protein; title_line].

(** ["^[0-9]+\.?\s*"] *)
Definition leading_number : regex :=
  seq [Bol; plus (OneOf [Range (code "0") (code "9")]); opt dot; star spaces].

(** ["([A-Za-z\s.]+(?:burrito|pizza|sandwich|bagel|waffle|pancake|salad|bowl|plate))"] *)
Definition common_name : regex :=
  Group 1 (seq [plus (OneOf [Range (code "A") (code "Z");
                             Range (code "a") (code "z"); Space;
                             Lit (code ".")]);
                alt (text <$> ["burrito"; "pizza"; "sandwich"; "bagel";
                               "waffle"; "pancake"; "salad"; "bowl";
                               "plate"]%string)]).

(** ["(\d+)\s*calories"] *)
Definition calorie_pattern : regex :=
  seq [Group 1 (plus digit); star spaces; text "calories"].

(** ["(\d+)\s*grams?\s*of\s*protein"] *)
Definition protein_pattern : regex :=
  seq [Group 1 (plus digit); star spaces; text "gram";
       opt (OneOf [Lit (code "s")]); star spaces; text "of"; star spaces;
       text "protein"].

(** ["Ingredients\s*(.*?)(?:Directions|$)"] *)
Definition ingredients_pattern : regex :=
  seq [text "Ingredients"; star spaces; Group 1 (lazy_star Any);
       Alt (text "Directions") Eol].

(** ["^[•\-\*\d]+\.?\s*"] *)
Definition bullet_prefix : regex :=
  seq [Bol; plus (OneOf [Lit bullet; Lit (code "-"); Lit (code "*"); Digit]);
       opt dot; star spaces].

(** ["Directions\s*(.*?)(?:PRO TIP|$)"] *)
Definition directions_pattern : regex :=
  seq [text "Directions"; star spaces; Group 1 (lazy_star Any);
       Alt (text "PRO TIP") Eol].

(** ["(\d+\..*?)(?=\d+\.|$)"] *)
Definition numbered_segment : regex :=
  seq [Group 1 (seq [plus digit; Char dot; lazy_star Any]);
       Lookahead (Alt (seq [plus digit; Char dot]) Eol)].

(** ["^\d+\.?\s*"] *)
Definition segment_number : regex :=
  seq [Bol; plus digit; opt dot; star spaces].

(** ["PRO TIP[S]?\s*(.*?)$"] *)
Definition pro_tips_pattern : regex :=
  seq [text "PRO TIP"; opt (OneOf [Lit (code "S")]); star spaces;
       Group 1 (lazy_star Any); Eol].

(** *** The patterns of [sanitize_filename] *)

(** the set of [<], [>], [:], the double quote, [/], the backslash, [|],
    [?] and [*] *)
Definition illegal_chars : regex :=
  Char (OneOf [Lit (code "<"); Lit (code ">"); Lit (code ":"); Lit 34;
               Lit (code "/"); Lit (code "\"); Lit (code "|");
               Lit (code "?"); Lit (code "*")]).

(** ["[^\w\s-]"] *)
Definition not_word_space_hyphen : regex :=
  Char (NoneOf [Word; Space; Lit (code "-")]).

Section methods.
Context `{Runtime}.

(** [m.group(1)], then a string method on it: on [None] that method call
    raises [AttributeError]. *)
Definition group1 (m : mstate) : result str :=
  match group 1 m with
  | Some s => Ok s
  | None => Raise AttributeError
  end.

(** The loop over [title_patterns]: the first pattern whose match survives
    the checks gives the title; [break] leaves the loop. *)
Fixpoint find_title (patterns : list regex) (text : str) : result str :=
  match patterns with
  | [] => Ok []
  | pattern :: patterns' =>
      match search IGNORECASE_MULTILINE pattern text with
      | Some m =>
          g ← group1 m;
          let potential_title := Py.strip g in
          let potential_title := sub NOFLAG leading_number [] potential_title in
          if bool_decide (5 < length potential_title)%nat
             && negb (Py.startswith_any
                        [lit "throw"; lit "add"; lit "cook"; lit "place"]
                        (Py.lower potential_title))
          then Ok potential_title
          else find_title patterns' text
      | None => find_title patterns' text
      end
  end.

(** The body of the loop over the lines of the ingredients section. *)
Definition ingredient_of_line (line : str) : option str :=
  let line := Py.strip line in
  if Py.truthy line
     && negb (Py.startswith_any [lit "directions"; lit "pro tip"] (Py.lower line))
  then
    let line := sub NOFLAG bullet_prefix [] line in
    if Py.truthy line then Some line else None
  else None.

(** The body of the loops over the numbered steps and tips. *)
Definition numbered_item (step : str) : option str :=
  let step := Py.strip step in
  if Py.truthy step
  then Some (Py.strip (sub NOFLAG segment_number [] step))
  else None.

Definition parse_recipe_data (text : str) : result recipe :=
  (* Clean up text *)
  let text := sub NOFLAG whitespace_run (lit " ") (Py.strip text) in
  (* Extract title *)
  title ← find_title title_patterns text;
  let title :=
    if negb (Py.truthy title) then
      match findall IGNORECASE common_name text with
      | name :: _ => Py.strip name
      | [] => title
      end
    else title in
  (* Extract calories and protein *)
  calories ←
    match search IGNORECASE calorie_pattern text with
    | Some calorie_match => group1 calorie_match
    | None => Ok []
    end;
  protein ←
    match search IGNORECASE protein_pattern text with
    | Some protein_match => group1 protein_match
    | None => Ok []
    end;
  (* Extract ingredients *)
  ingredients ←
    match search IGNORECASE_DOTALL ingredients_pattern text with
    | Some ingredients_section =>
        ingredients_text ← group1 ingredients_section;
        Ok (omap ingredient_of_line (Py.split newline ingredients_text))
    | None => Ok []
    end;
  (* Extract directions *)
  directions ←
    match search IGNORECASE_DOTALL directions_pattern text with
    | Some directions_section =>
        directions_text ← group1 directions_section;
        Ok (omap numbered_item (findall DOTALL numbered_segment directions_text))
    | None => Ok []
    end;
  (* Extract pro tips *)
  pro_tips ←
    match search IGNORECASE_DOTALL pro_tips_pattern text with
    | Some pro_tips_section =>
        tips_text ← group1 pro_tips_section;
        Ok (omap numbered_item (findall DOTALL numbered_segment tips_text))
    | None => Ok []
    end;
  Ok {| title := title; calories := calories; protein := protein;
        ingredients := ingredients; directions := directions;
        pro_tips := pro_tips |}.

(** The haystack of [generate_tags]. *)
Definition all_text (recipe_data : recipe) : str :=
  Py.lower (Py.join (lit " ")
    [title recipe_data;
     Py.join (lit " ") (ingredients recipe_data);
     Py.join (lit " ") (directions recipe_data)]).

(** The loop over [self.ingredient_tags.items()]: a tag is added at the
    first of its keywords found in the text. *)
Definition keyword_tags (all_text : str) (tags : gset str)
    (table : list (str * list str)) : gset str :=
  foldl (λ tags '(tag, keywords),
           if existsb (λ keyword, Py.contains (Py.lower keyword) all_text)
                keywords
           then {[tag]} ∪ tags else tags)
    tags table.

Definition generate_tags (recipe_data : recipe) : result (list str) :=
  let tags : gset str := ∅ in
  let all_text := all_text recipe_data in
  (* Check for ingredient-based tags *)
  let tags := keyword_tags all_text tags ingredient_tags in
  (* Add nutrition-based tags *)
  tags ←
    (if Py.truthy (calories recipe_data) then
       calories ← Py.int (calories recipe_data);
       Ok (if (calories <? 300)%Z then {[lit "lowcalorie"]} ∪ tags
           else if (500 <? calories)%Z then {[lit "highcalorie"]} ∪ tags
           else tags)
     else Ok tags);
  tags ←
    (if Py.truthy (protein recipe_data) then
       protein ← Py.int (protein recipe_data);
       Ok (if (40 <? protein)%Z then {[lit "highprotein"]} ∪ tags else tags)
     else Ok tags);
  (* Ensure we have at least some tags *)
  let tags := if bool_decide (tags = ∅) then {[lit "recipe"]} ∪ tags else tags in
  Ok (sorted (elements tags)).

Definition nl : str := [newline].

Definition create_markdown (recipe_data : recipe) : result str :=
  tags ← generate_tags recipe_data;
  let tag_string := Py.join (lit " ") ((λ tag, lit "#" ++ tag) <$> tags) in
  let markdown := lit "# " ++ title recipe_data ++ nl ++ nl in
  let markdown := markdown ++ tag_string ++ nl ++ nl in
  (* Nutrition info *)
  let markdown :=
    if Py.truthy (calories recipe_data) || Py.truthy (protein recipe_data) then
      let markdown := markdown ++ lit "## Nutrition Information" ++ nl ++ nl in
      let markdown :=
        if Py.truthy (calories recipe_data)
        then markdown ++ lit "- **Calories:** " ++ calories recipe_data ++ nl
        else markdown in
      let markdown :=
        if Py.truthy (protein recipe_data)
        then markdown ++ lit "- **Protein:** " ++ protein recipe_data
                      ++ lit "g" ++ nl
        else markdown in
      markdown ++ nl
    else markdown in
  (* Ingredients *)
  let markdown :=
    if Py.truthy (ingredients recipe_data) then
      let markdown := markdown ++ lit "## Ingredients" ++ nl ++ nl in
      let markdown :=
        foldl (λ markdown ingredient, markdown ++ lit "- " ++ ingredient ++ nl)
          markdown (ingredients recipe_data) in
      markdown ++ nl
    else markdown in
  (* Directions *)
  let markdown :=
    if Py.truthy (directions recipe_data) then
      let markdown := markdown ++ lit "## Directions" ++ nl ++ nl in
      let markdown :=
        foldl (λ markdown '(i, direction),
                 markdown ++ Py.str_of_nat i ++ lit ". " ++ direction ++ nl)
          markdown
          (zip (List.seq 1 (length (directions recipe_data)))
               (directions recipe_data)) in
      markdown ++ nl
    else markdown in
  (* Pro Tips *)
  let markdown :=
    if Py.truthy (pro_tips recipe_data) then
      let markdown := markdown ++ lit "## Pro Tips" ++ nl ++ nl in
      let markdown :=
        foldl (λ markdown tip, markdown ++ lit "- " ++ tip ++ nl)
          markdown (pro_tips recipe_data) in
      markdown ++ nl
    else markdown in
  Ok markdown.

Definition sanitize_filename (title : str) : str :=
  (* Remove or replace invalid characters *)
  let sanitized := sub NOFLAG illegal_chars [] title in
  let sanitized := sub NOFLAG not_word_space_hyphen [] sanitized in
  let sanitized := Py.strip (sub NOFLAG whitespace_run (lit " ") sanitized) in
  let sanitized := Py.replace space underscore sanitized in
  (* Limit length *)
  let sanitized :=
    if bool_decide (50 < length sanitized)%nat
    then Py.rstrip (lit "_") (take 50 sanitized)
    else sanitized in
  if Py.truthy sanitized then sanitized else lit "recipe".

End methods.
End RecipeExtractor.

Import RecipeExtractor.



(** * Properties *)

(** ** The order of [sorted] *)

Lemma str_leb_total a b : str_leb a b = true ∨ str_leb b a = true.
Proof.
  revert b. induction a as [|x a IH]; intros [|y b]; simpl; auto.
  destruct (N.ltb_spec x y), (N.ltb_spec y x), (N.eqb_spec x y),
    (N.eqb_spec y x); simpl; auto; try lia.
Qed.

Lemma str_leb_trans a b c :
  str_leb a b = true → str_leb b c = true → str_leb a c = true.
Proof.
  revert b c. induction a as [|x a IH]; intros [|y b] [|z c]; simpl; auto;
    try discriminate.
  destruct (N.ltb_spec x y), (N.ltb_spec y z), (N.ltb_spec x z),
    (N.eqb_spec x y), (N.eqb_spec y z), (N.eqb_spec x z);
    simpl; auto; try lia; try discriminate.
  apply IH.
Qed.

Global Instance str_le_total : Total str_le.
Proof. intros a b. apply str_leb_total. Qed.

Global Instance str_le_trans : Transitive str_le.
Proof. intros a b c. apply str_leb_trans. Qed.

Lemma sorted_sorted l : StronglySorted str_le (sorted l).
Proof. apply StronglySorted_merge_sort; apply _. Qed.

Lemma elem_of_sorted x l : x ∈ sorted l ↔ x ∈ l.
Proof. unfold sorted. by rewrite merge_sort_Permutation. Qed.

Lemma sorted_nil_inv l : sorted l = [] → l = [].
Proof.
  intros E. apply Permutation_nil_r. rewrite <- E. unfold sorted.
  by rewrite merge_sort_Permutation.
Qed.

Lemma sorted_singleton x : sorted [x] = [x].
Proof. reflexivity. Qed.

(** ** The tag engine *)

Section tag_engine.
Context `{Runtime}.

(** A numeric field as the data model has it: absent (the empty string), or
    text that [int] reads. *)
Definition numeric (field : str) : Prop :=
  field = [] ∨ ∃ n, Py.int field = Ok n.

Definition numeric_fields (r : recipe) : Prop :=
  numeric (calories r) ∧ numeric (protein r).

(** A keyword of the entry of [tag] occurs in the text. *)
Definition keyword_hit (txt : str) (table : list (str * list str)) (tag : str)
    : Prop :=
  ∃ keywords keyword, (tag, keywords) ∈ table ∧ keyword ∈ keywords
                      ∧ Py.contains (Py.lower keyword) txt = true.

Lemma truthy_false {A} (s : list A) : Py.truthy s = false ↔ s = [].
Proof. by destruct s. Qed.

Lemma truthy_true {A} (s : list A) : Py.truthy s = true ↔ s ≠ [].
Proof. by destruct s. Qed.

Lemma keyword_tags_spec txt table tags x :
  x ∈ keyword_tags txt tags table ↔ x ∈ tags ∨ keyword_hit txt table x.
Proof.
  unfold keyword_tags, keyword_hit. revert tags.
  induction table as [|[tag keywords] table IH]; intros tags; simpl.
  - split; [auto|]. intros [?|(? & ? & Hin & _)]; [done|]. by apply elem_of_nil in Hin.
  - rewrite IH. clear IH.
    destruct (existsb _ keywords) eqn:E.
    + apply existsb_exists in E as (keyword & Hk & Hc).
      apply list_elem_of_In in Hk.
      rewrite elem_of_union, elem_of_singleton. split.
      * intros [[->|?]|(ks & k & Hin & ?)]; eauto.
        -- right. exists keywords, keyword. split; [left|]; done.
        -- right. exists ks, k. split; [by right|done].
      * intros [?|(ks & k & Hin & Hk' & Hc')]; [auto|].
        apply elem_of_cons in Hin as [Heq|Hin]; [simplify_eq; auto|].
        right. by exists ks, k.
    + split.
      * intros [?|(ks & k & Hin & ?)]; [auto|].
        right. exists ks, k. split; [by right|done].
      * intros [?|(ks & k & Hin & Hk' & Hc')]; [auto|].
        apply elem_of_cons in Hin as [Heq|Hin].
        -- simplify_eq.
           assert (existsb (λ keyword, Py.contains (Py.lower keyword) txt) keywords = true) as E'.
           { apply existsb_exists. exists k. split; [|done]. by apply list_elem_of_In. }
           congruence.
        -- right. by exists ks, k.
Qed.

(** The tags before the fallback to [recipe] and before sorting: those of
    the keyword table and those of the two threshold rules. *)
Definition rule_tags (r : recipe) (x : str) : Prop :=
  keyword_hit (all_text r) ingredient_tags x
  ∨ (x = lit "lowcalorie"
     ∧ ∃ c, calories r ≠ [] ∧ Py.int (calories r) = Ok c ∧ (c < 300)%Z)
  ∨ (x = lit "highcalorie"
     ∧ ∃ c, calories r ≠ [] ∧ Py.int (calories r) = Ok c ∧ (500 < c)%Z)
  ∨ (x = lit "highprotein"
     ∧ ∃ p, protein r ≠ [] ∧ Py.int (protein r) = Ok p ∧ (40 < p)%Z).

Lemma generate_tags_inv r tags :
  generate_tags r = Ok tags →
  ∃ S : gset str,
    tags = sorted (elements (if bool_decide (S = ∅) then {[lit "recipe"]} ∪ S else S))
    ∧ ∀ x, x ∈ S ↔ rule_tags r x.
Proof.
  unfold generate_tags, rule_tags.
  set (K := keyword_tags (all_text r) ∅ ingredient_tags).
  assert (HK : ∀ x, x ∈ K ↔ keyword_hit (all_text r) ingredient_tags x).
  { intros x. unfold K. rewrite keyword_tags_spec.
    split; [intros [Hx|?]; [by apply not_elem_of_empty in Hx|done] | auto]. }
  clearbody K.
  generalize (lit "lowcalorie") (lit "highcalorie") (lit "highprotein")
    (lit "recipe").
  intros lo hi hp rc.
  destruct (Py.truthy (calories r)) eqn:Ec;
    [apply truthy_true in Ec | apply truthy_false in Ec];
  (destruct (Py.truthy (protein r)) eqn:Ep;
    [apply truthy_true in Ep | apply truthy_false in Ep]).
  all: repeat match goal with
       | |- context [Py.int ?s] => destruct (Py.int s) as [?n|?e] eqn:?
       end; unfold mbind, result_bind; try discriminate.
  all: intros [= <-]; eexists; split; [reflexivity|].
  all: intros x; repeat case_match;
    rewrite ?elem_of_union, ?elem_of_singleton, ?HK.
  all: repeat match goal with
       | E : (_ <? _)%Z = true |- _ => apply Z.ltb_lt in E
       | E : (_ <? _)%Z = false |- _ => apply Z.ltb_ge in E
       end.
  all: split;
    [ intros Hx; repeat destruct Hx as [Hx|Hx]; subst; eauto 10
    | intros [?|[(-> & c & ? & ? & ?)|[(-> & c & ? & ? & ?)|(-> & p & ? & ? & ?)]]];
      simplify_eq; auto; try lia; try done ].
Qed.

Lemma generate_tags_defined r :
  numeric_fields r → ∃ tags, generate_tags r = Ok tags.
Proof.
  intros [Hc Hp]. unfold generate_tags.
  destruct Hc as [Hc%truthy_false|[c Hc]], Hp as [Hp%truthy_false|[p Hp]];
    rewrite ?Hc, ?Hp; unfold mbind, result_bind;
    repeat (destruct (Py.truthy _)); eauto.
Qed.

Lemma keyword_hit_tag txt table x : keyword_hit txt table x → x ∈ table.*1.
Proof.
  intros (keywords & _ & Hin & _). apply list_elem_of_fmap.
  by exists (x, keywords).
Qed.

Lemma keywords_lower tag keywords keyword :
  (tag, keywords) ∈ ingredient_tags → keyword ∈ keywords →
  Py.lower keyword = keyword.
Proof.
  intros Hin Hk.
  assert (Forall (λ e, Forall (λ kw, Py.lower kw = kw) e.2) ingredient_tags)
    as HF by (repeat constructor).
  rewrite Forall_forall in HF. specialize (HF _ Hin). simpl in HF.
  rewrite Forall_forall in HF. by apply HF.
Qed.

Lemma elem_of_generate_tags r tags x :
  generate_tags r = Ok tags → x ≠ lit "recipe" →
  x ∈ tags ↔ rule_tags r x.
Proof.
  intros (S & -> & HS)%generate_tags_inv Hx.
  rewrite elem_of_sorted, elem_of_elements, <- HS.
  case_bool_decide; [|done]. subst S.
  rewrite elem_of_union, elem_of_singleton. split; [by intros [?|?]|auto].
Qed.

Lemma generate_tags_nonempty r tags : generate_tags r = Ok tags → tags ≠ [].
Proof.
  intros (S & -> & _)%generate_tags_inv E%sorted_nil_inv.
  apply elements_empty_inv, leibniz_equiv in E.
  case_bool_decide as HS; [|done].
  apply empty_union_L in E as [E _].
  exact (non_empty_singleton_L _ E).
Qed.

Lemma generate_tags_no_rule r tags :
  generate_tags r = Ok tags → (∀ x, ¬ rule_tags r x) → tags = [lit "recipe"].
Proof.
  intros (S & -> & HS)%generate_tags_inv Hno.
  assert (S = ∅) as -> by (apply elem_of_equiv_empty_L; intros x; rewrite HS; auto).
  rewrite bool_decide_eq_true_2 by done.
  by rewrite union_empty_r_L, elements_singleton.
Qed.

(** The tags the threshold rules add are not tags of the keyword table. *)
Lemma threshold_tags_not_in_table :
  (lit "lowcalorie" ∉ ingredient_tags.*1)
  ∧ (lit "highcalorie" ∉ ingredient_tags.*1).
Proof. split; intros Hin%(bool_decide_pack _); by vm_compute in Hin. Qed.

(** The keywords behind [highprotein]. *)
Lemma highprotein_keyword_hit txt :
  keyword_hit txt ingredient_tags (lit "highprotein")
  ↔ Py.contains (lit "protein") txt = true
    ∨ Py.contains (lit "high protein") txt = true.
Proof.
  split.
  - intros (keywords & keyword & Hin & Hk & Hc).
    assert (keywords = [lit "protein"; lit "high protein"]) as ->.
    { revert Hin. generalize (eq_refl (lit "highprotein")).
      generalize (lit "highprotein") at 1 3. intros x Hx Hin.
      unfold ingredient_tags in Hin.
      repeat (apply elem_of_cons in Hin as [Hin|Hin];
              [injection Hin as -> ->; try done; try (by vm_compute in Hx)|]).
      by apply elem_of_nil in Hin. }
    apply elem_of_cons in Hk as [->|Hk]; [by left|].
    apply list_elem_of_singleton in Hk as ->. by right.
  - assert ((lit "highprotein", [lit "protein"; lit "high protein"])
            ∈ ingredient_tags) as Hin.
    { unfold ingredient_tags. do 22 right. by left. }
    intros [Hc|Hc]; eexists _, _; (split; [exact Hin|]).
    + split; [by left|done].
    + split; [right; by left|done].
Qed.

(** C5: for every record of the data model, [generate_tags] returns a list
    that is not empty and is sorted ascending in the order of Python strings;
    and when no keyword of the table occurs in the lower-cased text of title,
    ingredients and directions, the calories are absent or between 300 and
    500, and the protein is absent or at most 40, the list is exactly
    [["recipe"]]. *)
Theorem generate_tags_nonempty_sorted (r : recipe) :
  numeric_fields r →
  ∃ tags, generate_tags r = Ok tags
    ∧ tags ≠ []
    ∧ StronglySorted str_le tags
    ∧ ((∀ tag keywords keyword,
          (tag, keywords) ∈ ingredient_tags → keyword ∈ keywords →
          Py.contains keyword (all_text r) = false) →
       (calories r = [] ∨ ∃ c, Py.int (calories r) = Ok c ∧ (300 ≤ c ≤ 500)%Z) →
       (protein r = [] ∨ ∃ p, Py.int (protein r) = Ok p ∧ (p ≤ 40)%Z) →
       tags = [lit "recipe"]).
Proof.
  intros Hnum. destruct (generate_tags_defined r Hnum) as [tags Htags].
  exists tags. split; [done|]. split; [by eapply generate_tags_nonempty|].
  split.
  { apply generate_tags_inv in Htags as (S & -> & _). apply sorted_sorted. }
  intros Hkw Hcal Hprot. apply (generate_tags_no_rule r); [done|].
  intros x [(keywords & keyword & Hin & Hk & Hc)|Hrule].
  - rewrite (keywords_lower _ _ _ Hin Hk), (Hkw _ _ _ Hin Hk) in Hc. done.
  - destruct Hrule as [(_ & c & Hne & Hc & ?)|[(_ & c & Hne & Hc & ?)|(_ & p & Hne & Hp & ?)]].
    + destruct Hcal as [?|(c' & Hc' & ?)]; [done|].
      assert (c' = c) as -> by congruence. lia.
    + destruct Hcal as [?|(c' & Hc' & ?)]; [done|].
      assert (c' = c) as -> by congruence. lia.
    + destruct Hprot as [?|(p' & Hp' & ?)]; [done|].
      assert (p' = p) as -> by congruence. lia.
Qed.

(** C6: with calories present, [lowcalorie] is among the tags exactly when
    the number is below 300 and [highcalorie] exactly when it is above 500
    (neither from 300 to 500); with protein present, [highprotein] is among
    the tags exactly when the number is above 40 or the keyword table adds
    it, so the threshold rule adds it exactly above 40. *)
Theorem generate_tags_thresholds (r : recipe) :
  numeric_fields r →
  ∃ tags, generate_tags r = Ok tags
    ∧ (∀ c, calories r ≠ [] → Py.int (calories r) = Ok c →
         (lit "lowcalorie" ∈ tags ↔ (c < 300)%Z)
         ∧ (lit "highcalorie" ∈ tags ↔ (500 < c)%Z)
         ∧ ((300 ≤ c ≤ 500)%Z →
            (lit "lowcalorie" ∉ tags) ∧ (lit "highcalorie" ∉ tags)))
    ∧ (∀ p, protein r ≠ [] → Py.int (protein r) = Ok p →
         (lit "highprotein" ∈ tags ↔
            (40 < p)%Z
            ∨ Py.contains (lit "protein") (all_text r) = true
            ∨ Py.contains (lit "high protein") (all_text r) = true)).
Proof.
  intros Hnum. destruct (generate_tags_defined r Hnum) as [tags Htags].
  exists tags. split; [done|].
  destruct threshold_tags_not_in_table as [Hlo Hhi].
  split.
  - intros c Hne Hc.
    assert (lit "lowcalorie" ∈ tags ↔ (c < 300)%Z) as Hl.
    { rewrite (elem_of_generate_tags r) by done. split.
      - intros [?%keyword_hit_tag|[(_ & c' & _ & ? & ?)|[(? & _)|(? & _)]]];
          [done| |done|done].
        by assert (c = c') as -> by congruence.
      - intros ?. right; left. eauto. }
    assert (lit "highcalorie" ∈ tags ↔ (500 < c)%Z) as Hh.
    { rewrite (elem_of_generate_tags r) by done. split.
      - intros [?%keyword_hit_tag|[(? & _)|[(_ & c' & _ & ? & ?)|(? & _)]]];
          [done|done| |done].
        by assert (c = c') as -> by congruence.
      - intros ?. right; right; left. eauto. }
    split; [done|]. split; [done|]. rewrite Hl, Hh. lia.
  - intros p Hne Hp. rewrite (elem_of_generate_tags r) by done.
    rewrite <- highprotein_keyword_hit. split.
    + intros [?|[(? & _)|[(? & _)|(_ & p' & _ & ? & ?)]]];
        [by right|done|done|left].
      by assert (p = p') as -> by congruence.
    + intros [?|?]; [|by left]. right; right; right. eauto.
Qed.

(** C10: whenever the lower-cased text of title, ingredients and directions
    contains [protein], the tag [highprotein] is returned, whatever the
    protein field holds (absent, or any number). *)
Theorem generate_tags_protein_keyword (r : recipe) :
  numeric_fields r →
  Py.contains (lit "protein") (all_text r) = true →
  ∃ tags, generate_tags r = Ok tags ∧ lit "highprotein" ∈ tags.
Proof.
  intros Hnum Hc. destruct (generate_tags_defined r Hnum) as [tags Htags].
  exists tags. split; [done|].
  rewrite (elem_of_generate_tags r) by done. left.
  apply highprotein_keyword_hit. by left.
Qed.

End tag_engine.

(** ** The note renderer *)

Section renderer.
Context `{Runtime}.

Lemma foldl_append {A} (g : str → A → str) (f : A → str) l md :
  (∀ md x, g md x = md ++ f x) →
  foldl g md l = md ++ concat (f <$> l).
Proof.
  intros Hg. revert md. induction l as [|x l IH]; intros md; simpl.
  - by rewrite app_nil_r.
  - by rewrite IH, Hg, <- app_assoc.
Qed.

(** The blocks [create_markdown] appends, one per section. *)
Definition heading_block (r : recipe) (tags : list str) : str :=
  lit "# " ++ title r ++ nl ++ nl
  ++ Py.join (lit " ") ((λ tag, lit "#" ++ tag) <$> tags) ++ nl ++ nl.

Definition nutrition_block (r : recipe) : str :=
  if Py.truthy (calories r) || Py.truthy (protein r) then
    lit "## Nutrition Information" ++ nl ++ nl
    ++ (if Py.truthy (calories r)
        then lit "- **Calories:** " ++ calories r ++ nl else [])
    ++ (if Py.truthy (protein r)
        then lit "- **Protein:** " ++ protein r ++ lit "g" ++ nl else [])
    ++ nl
  else [].

Definition list_block (name : str) (lines : list str) : str :=
  if Py.truthy lines then name ++ nl ++ nl ++ concat lines ++ nl else [].

Definition ingredients_block (r : recipe) : str :=
  list_block (lit "## Ingredients")
    ((λ ingredient, lit "- " ++ ingredient ++ nl) <$> ingredients r).

Definition directions_block (r : recipe) : str :=
  list_block (lit "## Directions")
    ((λ '(i, direction), Py.str_of_nat i ++ lit ". " ++ direction ++ nl)
       <$> zip (List.seq 1 (length (directions r))) (directions r)).

Definition pro_tips_block (r : recipe) : str :=
  list_block (lit "## Pro Tips") ((λ tip, lit "- " ++ tip ++ nl) <$> pro_tips r).

Lemma create_markdown_blocks r tags :
  generate_tags r = Ok tags →
  create_markdown r
  = Ok (heading_block r tags ++ nutrition_block r ++ ingredients_block r
        ++ directions_block r ++ pro_tips_block r).
Proof.
  intros Htags. unfold create_markdown. rewrite Htags.
  unfold mbind, result_bind. f_equal.
  rewrite (foldl_append _ (λ ingredient, lit "- " ++ ingredient ++ nl))
    by done.
  rewrite (foldl_append _ (λ tip, lit "- " ++ tip ++ nl))
    by done.
  rewrite (foldl_append _
    (λ '(i, direction), Py.str_of_nat i ++ lit ". " ++ direction ++ nl))
    by (by intros ? [? ?]).
  unfold heading_block, nutrition_block, ingredients_block, directions_block,
    pro_tips_block, list_block.
  generalize (lit "# ") (lit "## Nutrition Information") (lit "## Ingredients")
    (lit "## Directions") (lit "## Pro Tips") (lit "- **Calories:** ")
    (lit "- **Protein:** ") (lit "g") (lit " ") (lit "- ") (lit ". ") (lit "#").
  intros.
  destruct (ingredients r) as [|i0 il]; destruct (directions r) as [|d0 dl];
    destruct (pro_tips r) as [|t0 tl];
    destruct (calories r) as [|c0 cl]; destruct (protein r) as [|p0 pl];
    cbn [Py.truthy orb fmap list_fmap length zip zip_with List.seq concat];
    rewrite ?app_nil_r, <- ?app_assoc; try reflexivity.
Qed.

Definition vocabulary : list str :=
  lit "recipe" :: lit "lowcalorie" :: lit "highcalorie" :: lit "highprotein"
  :: ingredient_tags.*1.

Lemma generate_tags_vocabulary r tags x :
  generate_tags r = Ok tags → x ∈ tags → x ∈ vocabulary.
Proof.
  intros Htags Hx. unfold vocabulary.
  destruct (decide (x = lit "recipe")) as [->|Hne]; [by left|].
  apply (elem_of_generate_tags r) in Hx; [|done..].
  destruct Hx as [?%keyword_hit_tag|[(-> & _)|[(-> & _)|(-> & _)]]].
  - by do 4 right.
  - right; by left.
  - do 2 right; by left.
  - do 3 right; by left.
Qed.

Lemma vocabulary_one_line : Forall (λ tag, newline ∉ tag) vocabulary.
Proof. apply (bool_decide_unpack _). by vm_compute. Qed.

Lemma elem_of_join c sep parts :
  c ∈ Py.join sep parts → c ∈ sep ∨ ∃ p, p ∈ parts ∧ c ∈ p.
Proof.
  induction parts as [|p [|q parts] IH]; simpl.
  - by intros ?%elem_of_nil.
  - intros ?. right. exists p. split; [by left|done].
  - rewrite !elem_of_app. intros [?|[?|Hc]]; [|by left|].
    + right. exists p. split; [by left|done].
    + destruct (IH Hc) as [?|(p' & ? & ?)]; [by left|].
      right. exists p'. split; [by right|done].
Qed.

(** C8: the output of [create_markdown] starts with the line [# title], a
    blank line, the one line of space-joined [#tag] tokens of the sorted
    tags and a blank line; and what follows starts with the heading
    [## Nutrition Information] exactly when calories or protein is present:
    the section is emitted if and only if one of the two is present. *)
Theorem create_markdown_layout (r : recipe) :
  numeric_fields r →
  ∃ tags rest,
    let tag_string := Py.join (lit " ") ((λ tag, lit "#" ++ tag) <$> tags) in
    generate_tags r = Ok tags
    ∧ StronglySorted str_le tags
    ∧ create_markdown r
      = Ok (lit "# " ++ title r ++ nl ++ nl ++ tag_string ++ nl ++ nl ++ rest)
    ∧ (newline ∉ tag_string)
    ∧ ((∃ more, rest = lit "## Nutrition Information" ++ nl ++ nl ++ more)
       ↔ calories r ≠ [] ∨ protein r ≠ []).
Proof.
  intros Hnum. destruct (generate_tags_defined r Hnum) as [tags Htags].
  exists tags, (nutrition_block r ++ ingredients_block r ++ directions_block r
                ++ pro_tips_block r).
  split; [done|]. split.
  { pose proof Htags as (S & -> & _)%generate_tags_inv. apply sorted_sorted. }
  split.
  { rewrite (create_markdown_blocks r tags Htags). unfold heading_block.
    by rewrite <- !app_assoc. }
  split.
  { intros [Hsp|(p & Hp & Hc)]%elem_of_join.
    - by vm_compute in Hsp; repeat (apply elem_of_cons in Hsp as [?|Hsp]; [done|]);
        apply elem_of_nil in Hsp.
    - apply list_elem_of_fmap in Hp as (tag & -> & Htag).
      apply elem_of_app in Hc as [Hc|Hc].
      + vm_compute in Hc. apply list_elem_of_singleton in Hc. done.
      + pose proof vocabulary_one_line as HV. rewrite Forall_forall in HV.
        by eapply HV; [eapply generate_tags_vocabulary|]. }
  unfold nutrition_block. rewrite <- !truthy_true.
  destruct (Py.truthy (calories r)), (Py.truthy (protein r)); simpl orb; cbv iota.
  1-3: split; [auto|]; intros _; eexists; by rewrite <- !app_assoc.
  split; [|by intros [?|?]].
  intros [more Hmore]. exfalso. revert Hmore.
  unfold ingredients_block, directions_block, pro_tips_block, list_block.
  repeat (destruct (Py.truthy _)); by vm_compute.
Qed.
End renderer.

(** ** The matcher against a declarative reading of the patterns *)

Module ReFacts.
Import Re.

Section matcher_facts.
Context `{Runtime}.
Variable fl : flags.

Definition within (n : nat) (hi : option nat) : Prop :=
  match hi with
  | Some m => (n ≤ m)%nat
  | None => True
  end.

(** [matches r st st']: [r] can take the matcher from [st] to [st'],
    whatever the order of the attempts. *)
Inductive matches : regex → mstate → mstate → Prop :=
| matches_empty st : matches Empty st st
| matches_char cs c rest st :
    after st = c :: rest → cset_match fl cs c = true →
    matches (Char cs) st
      {| before := c :: before st; after := rest; caps := caps st |}
| matches_seq r1 r2 st st' st'' :
    matches r1 st st' → matches r2 st' st'' → matches (Seq r1 r2) st st''
| matches_alt_l r1 r2 st st' : matches r1 st st' → matches (Alt r1 r2) st st'
| matches_alt_r r1 r2 st st' : matches r2 st st' → matches (Alt r1 r2) st st'
| matches_repeat cs lo hi greedy st taken rest :
    after st = taken ++ rest →
    Forall (λ c, cset_match fl cs c = true) taken →
    (lo ≤ length taken)%nat → within (length taken) hi →
    matches (Repeat cs lo hi greedy) st
      {| before := rev taken ++ before st; after := rest; caps := caps st |}
| matches_group n r st st' :
    matches r st st' → matches (Group n r) st (set_group n (span st st') st')
| matches_bol st : at_bol fl st = true → matches Bol st st
| matches_eol st : at_eol fl st = true → matches Eol st st
| matches_lookahead r st st' :
    matches r st st' →
    matches (Lookahead r) st
      {| before := before st; after := after st; caps := caps st' |}.

Lemma orelse_Some {A} (x : option A) y a :
  orelse x y = Some a → x = Some a ∨ y () = Some a.
Proof. destruct x; simpl; auto. Qed.

Lemma repeat_one_unfold cs lo hi greedy n b a k :
  repeat_one fl cs lo hi greedy n b a k
  = let stop (_ : unit) := if bool_decide (lo ≤ n)%nat then k b a else None in
    let more (_ : unit) :=
      match a with
      | c :: a' =>
          if below n hi && cset_match fl cs c
          then repeat_one fl cs lo hi greedy (S n) (c :: b) a' k
          else None
      | [] => None
      end in
    if greedy then orelse (more ()) stop else orelse (stop ()) more.
Proof. by destruct a. Qed.

Lemma repeat_one_sound cs lo hi greedy n b a k res :
  repeat_one fl cs lo hi greedy n b a k = Some res →
  ∃ taken rest,
    a = taken ++ rest
    ∧ Forall (λ c, cset_match fl cs c = true) taken
    ∧ (lo ≤ n + length taken)%nat
    ∧ (within n hi → within (n + length taken) hi)
    ∧ k (rev taken ++ b) rest = Some res.
Proof.
  revert n b. induction a as [|c a IH]; intros n b; rewrite repeat_one_unfold;
    cbv zeta; intros Hres.
  - assert ((if bool_decide (lo ≤ n)%nat then k b [] else None) = Some res) as Hstop.
    { destruct greedy; apply orelse_Some in Hres as [?|?]; done. }
    case_bool_decide; [|done].
    exists [], []. simpl. rewrite Nat.add_0_r. by repeat split.
  - assert ((if bool_decide (lo ≤ n)%nat then k b (c :: a) else None) = Some res
            ∨ (if below n hi && cset_match fl cs c
               then repeat_one fl cs lo hi greedy (S n) (c :: b) a k
               else None) = Some res) as [Hstop|Hmore].
    { destruct greedy; apply orelse_Some in Hres as [?|?]; auto. }
    + case_bool_decide; [|done].
      exists [], (c :: a). simpl. rewrite Nat.add_0_r. by repeat split.
    + destruct (below n hi) eqn:Hb; [|done].
      destruct (cset_match fl cs c) eqn:Hc; [|done]. simpl in Hmore.
      apply IH in Hmore as (taken & rest & -> & HF & Hlo & Hhi & Hk).
      exists (c :: taken), rest. simpl.
      rewrite <- app_assoc. simpl.
      split; [done|]. split; [by constructor|].
      split; [lia|]. split; [|done].
      intros _. rewrite <- Nat.add_succ_comm. apply Hhi.
      unfold below, within in *. destruct hi; [|done].
      apply bool_decide_eq_true in Hb. lia.
Qed.

Lemma rmatch_sound r st k res :
  rmatch fl r st k = Some res → ∃ st', matches r st st' ∧ k st' = Some res.
Proof.
  revert st k res.
  induction r as [|cs|r1 IH1 r2 IH2|r1 IH1 r2 IH2|cs lo hi greedy|n r IH| | |r IH];
    intros st k res; simpl; intros Hres.
  - exists st. split; [constructor|done].
  - destruct (after st) as [|c rest] eqn:Ha; [done|].
    destruct (cset_match fl cs c) eqn:Hc; [|done].
    eexists. split; [by econstructor|done].
  - apply IH1 in Hres as (st' & H1 & Hres).
    apply IH2 in Hres as (st'' & H2 & Hres).
    exists st''. split; [by econstructor|done].
  - apply orelse_Some in Hres as [Hres|Hres].
    + apply IH1 in Hres as (st' & ? & ?). exists st'. split; [by constructor|done].
    + apply IH2 in Hres as (st' & ? & ?). exists st'. split; [by apply matches_alt_r|done].
  - apply repeat_one_sound in Hres as (taken & rest & Ha & HF & Hlo & Hhi & Hk).
    eexists. split; [|exact Hk].
    apply matches_repeat; [done|done|lia|].
    apply Hhi. unfold within. destruct hi; [lia|done].
  - apply IH in Hres as (st' & ? & ?). eexists. split; [by constructor|done].
  - destruct (at_bol fl st) eqn:?; [|done]. exists st. split; [by constructor|done].
  - destruct (at_eol fl st) eqn:?; [|done]. exists st. split; [by constructor|done].
  - destruct (rmatch fl r st Some) as [st'|] eqn:Hin; [|done].
    apply IH in Hin as (st'' & ? & [= ->]).
    eexists. split; [by constructor|done].
Qed.

(** A match moves forward only: what is ahead afterwards is a suffix of
    what was ahead before. *)
Lemma matches_after r st st' :
  matches r st st' → ∃ taken, after st = taken ++ after st'.
Proof.
  induction 1 as [st|cs c rest st Ha _|r1 r2 st st' st'' _ [t1 IH1] _ [t2 IH2]
                 |r1 r2 st st' _ IH|r1 r2 st st' _ IH
                 |cs lo hi greedy st taken rest Ha _ _ _
                 |n r st st' _ [t IH]|st _|st _|r st st' _ _]; simpl.
  - by exists [].
  - by exists [c].
  - exists (t1 ++ t2). by rewrite IH1, IH2, app_assoc.
  - done.
  - done.
  - by exists taken.
  - by exists t.
  - by exists [].
  - by exists [].
  - by exists [].
Qed.

Lemma matches_length r st st' :
  matches r st st' → (length (after st') ≤ length (after st))%nat.
Proof.
  intros [taken ->]%matches_after. rewrite length_app. lia.
Qed.

Lemma span_after st st' taken :
  after st = taken ++ after st' → span st st' = taken.
Proof.
  intros E. unfold span. rewrite E, length_app.
  replace (length taken + length (after st') - length (after st'))%nat
    with (length taken) by lia.
  by rewrite take_app_length.
Qed.

(** Every captured text is made of code points of the subject. *)
Definition caps_forall (P : N → Prop) (st : mstate) : Prop :=
  Forall (λ c, Forall P c.2) (caps st).

Lemma matches_forall (P : N → Prop) r st st' :
  matches r st st' → Forall P (after st) → caps_forall P st →
  Forall P (after st') ∧ caps_forall P st'.
Proof.
  induction 1 as [st|cs c rest st Ha _|r1 r2 st st' st'' _ IH1 _ IH2
                 |r1 r2 st st' _ IH|r1 r2 st st' _ IH
                 |cs lo hi greedy st taken rest Ha _ _ _
                 |n r st st' Hm IH|st _|st _|r st st' _ IH]; simpl;
    intros Ha' Hc; auto.
  - rewrite Ha in Ha'. by apply Forall_cons in Ha' as [_ ?].
  - destruct (IH1 Ha' Hc). auto.
  - rewrite Ha in Ha'. by apply Forall_app in Ha' as [_ ?].
  - destruct (IH Ha' Hc) as [? ?]. split; [done|].
    unfold caps_forall, set_group. simpl. constructor; [|done]. simpl.
    destruct (matches_after _ _ _ Hm) as [taken Ht].
    rewrite (span_after _ _ _ Ht). rewrite Ht in Ha'.
    by apply Forall_app in Ha' as [? _].
  - destruct (IH Ha' Hc) as [? ?]. done.
Qed.

Lemma lookup_group_forall (P : N → Prop) n cs g :
  Forall (λ c, Forall P c.2) cs → lookup_group n cs = Some g → Forall P g.
Proof.
  induction 1 as [|[i s] cs Hs _ IH]; simpl; [done|].
  case_bool_decide; [by intros [= <-]|done].
Qed.

(** Group [n] is set by every way through [r]. *)
Fixpoint sets_group (n : nat) (r : regex) : bool :=
  match r with
  | Group m r' => bool_decide (m = n) || sets_group n r'
  | Seq r1 r2 => sets_group n r1 || sets_group n r2
  | Alt r1 r2 => sets_group n r1 && sets_group n r2
  | Lookahead r' => sets_group n r'
  | _ => false
  end.

Lemma matches_keeps_group n r st st' :
  matches r st st' → is_Some (group n st) → is_Some (group n st').
Proof.
  unfold group.
  induction 1 as [st|cs c rest st Ha _|r1 r2 st st' st'' _ IH1 _ IH2
                 |r1 r2 st st' _ IH|r1 r2 st st' _ IH
                 |cs lo hi greedy st taken rest Ha _ _ _
                 |m r st st' Hm IH|st _|st _|r st st' _ IH]; simpl; auto.
  intros Hs. case_bool_decide; [done|auto].
Qed.

Lemma matches_sets_group n r st st' :
  matches r st st' → sets_group n r = true → is_Some (group n st').
Proof.
  unfold group.
  induction 1 as [st|cs c rest st Ha _|r1 r2 st st' st'' H1 IH1 H2 IH2
                 |r1 r2 st st' _ IH|r1 r2 st st' _ IH
                 |cs lo hi greedy st taken rest Ha _ _ _
                 |m r st st' Hm IH|st _|st _|r st st' _ IH]; simpl;
    try discriminate; auto.
  - intros [?|?]%orb_true_iff; [|auto].
    apply (matches_keeps_group n _ _ _ H2). unfold group. auto.
  - intros [? _]%andb_true_iff. auto.
  - intros [_ ?]%andb_true_iff. auto.
  - intros Hs. case_bool_decide; [done|].
    apply IH. by destruct (sets_group n r).
Qed.

(** A pattern that cannot match the empty text. *)
Fixpoint consumes (r : regex) : bool :=
  match r with
  | Char _ => true
  | Repeat _ lo _ _ => bool_decide (1 ≤ lo)%nat
  | Seq r1 r2 => consumes r1 || consumes r2
  | Alt r1 r2 => consumes r1 && consumes r2
  | Group _ r' => consumes r'
  | _ => false
  end.

Lemma matches_consumes r st st' :
  matches r st st' → consumes r = true →
  (length (after st') < length (after st))%nat.
Proof.
  induction 1 as [st|cs c rest st Ha _|r1 r2 st st' st'' H1 IH1 H2 IH2
                 |r1 r2 st st' _ IH|r1 r2 st st' _ IH
                 |cs lo hi greedy st taken rest Ha _ Hlo _
                 |m r st st' Hm IH|st _|st _|r st st' _ IH]; simpl;
    try discriminate; auto.
  - intros _. rewrite Ha. simpl. lia.
  - pose proof (matches_length _ _ _ H1). pose proof (matches_length _ _ _ H2).
    intros [?|?]%orb_true_iff; [specialize (IH1 ltac:(done))|specialize (IH2 ltac:(done))]; lia.
  - intros [? _]%andb_true_iff. auto.
  - intros [_ ?]%andb_true_iff. auto.
  - intros ?%bool_decide_eq_true. rewrite Ha, length_app. lia.
Qed.

(** *** Attempts, searches and scans *)

Lemma attempt_sound r adv b a m :
  attempt fl r adv b a = Some m →
  matches r {| before := b; after := a; caps := [] |} m
  ∧ (adv = true → length (after m) ≠ length a).
Proof.
  unfold attempt. intros (st' & Hm & Hk)%rmatch_sound.
  destruct adv; simpl in Hk.
  - case_bool_decide; [done|]. injection Hk as <-. done.
  - injection Hk as <-. done.
Qed.

Lemma search_from_sound r b a m :
  search_from fl r b a = Some m →
  ∃ b' a', rev b' ++ a' = rev b ++ a
           ∧ matches r {| before := b'; after := a'; caps := [] |} m.
Proof.
  revert b. induction a as [|c a IH]; intros b; simpl;
    intros [Hm|Hm]%orelse_Some; try done.
  - apply attempt_sound in Hm as [Hm _]. eauto.
  - apply attempt_sound in Hm as [Hm _]. eauto.
  - apply IH in Hm as (b' & a' & E & Hm). exists b', a'. split; [|done].
    rewrite E. simpl. by rewrite <- app_assoc.
Qed.

Lemma search_sound r s m :
  search fl r s = Some m →
  ∃ b a, rev b ++ a = s ∧ matches r {| before := b; after := a; caps := [] |} m.
Proof. intros Hm. by apply search_from_sound in Hm. Qed.

(** The text of a group is made of code points of the subject. *)
Lemma search_group_forall (P : N → Prop) r s m n g :
  search fl r s = Some m → Forall P s → group n m = Some g → Forall P g.
Proof.
  intros (b & a & <- & Hm)%search_sound [_ Ha]%Forall_app Hg.
  destruct (matches_forall P _ _ _ Hm) as [_ Hc]; [done|by constructor|].
  by eapply lookup_group_forall.
Qed.

Lemma search_sets_group r s m n :
  sets_group n r = true → search fl r s = Some m → is_Some (group n m).
Proof.
  intros Hs (b & a & _ & Hm)%search_sound. by eapply matches_sets_group.
Qed.

(** The pieces of a scan when no attempt gives the empty match. *)
Definition never_empty (r : regex) : Prop :=
  ∀ b a m, attempt fl r false b a = Some m → hit_length a m ≠ 0%nat.

Lemma consumes_never_empty r : consumes r = true → never_empty r.
Proof.
  intros Hc b a m [Hm _]%attempt_sound.
  apply matches_consumes in Hm; [|done]. simpl in Hm.
  unfold hit_length. lia.
Qed.

(** A code point is left in place only where the attempt at it failed. *)
Lemma scan_gaps (Q : N → Prop) r skip b a :
  never_empty r →
  (∀ b' c a', c ∈ a → attempt fl r false b' (c :: a') = None → Q c) →
  Forall (λ p, match p with Gap c => Q c | Hit _ _ => True end)
    (scan fl r skip b a).
Proof.
  intros Hne. revert skip b. induction a as [|c a IH]; intros skip b HQ;
    destruct skip as [|n]; simpl.
  - destruct (attempt fl r false b []); by repeat constructor.
  - constructor.
  - assert (∀ b' c' a', c' ∈ a → attempt fl r false b' (c' :: a') = None → Q c')
      as HQ' by (intros ??? Hin; apply HQ; by right).
    destruct (attempt fl r false b (c :: a)) as [m|] eqn:Hm.
    + destruct (hit_length (c :: a) m) eqn:Hl; [by apply Hne in Hm|].
      constructor; [done|]. by apply IH.
    + constructor; [|by apply IH]. eapply HQ; [by left|done].
  - apply IH. intros ??? Hin. apply HQ. by right.
Qed.

Lemma scan_no_match r b a :
  (∀ b' a', a' `suffix_of` a → attempt fl r false b' a' = None) →
  scan fl r 0 b a = Gap <$> a.
Proof.
  revert b. induction a as [|c a IH]; intros b Hno; simpl;
    rewrite Hno by done; [done|].
  rewrite IH; [done|]. intros b' a' Hs. apply Hno. by apply suffix_cons_r.
Qed.

Definition piece_text (repl : str) (p : piece) : str :=
  match p with
  | Hit _ _ => repl
  | Gap c => [c]
  end.

Lemma sub_forall (Q : N → Prop) r repl s :
  never_empty r → Forall Q repl →
  (∀ b c a, c ∈ s → attempt fl r false b (c :: a) = None → Q c) →
  Forall Q (sub fl r repl s).
Proof.
  intros Hne Hrepl HQ. unfold sub.
  pose proof (scan_gaps Q r 0 [] s Hne HQ) as HF.
  induction HF as [|p ps Hp _ IH]; simpl; [done|].
  apply Forall_app. split; [|done]. destruct p; [by repeat constructor|done].
Qed.

Lemma scan_length r repl skip b a :
  never_empty r → (length repl ≤ 1)%nat → (skip ≤ length a)%nat →
  (length (concat (piece_text repl <$> scan fl r skip b a)) + skip
   ≤ length a)%nat.
Proof.
  intros Hne Hrepl. revert skip b. induction a as [|c a IH]; intros skip b Hs;
    destruct skip as [|n]; simpl in *.
  - destruct (attempt fl r false b []) as [m|] eqn:Hm; [|simpl; lia].
    apply Hne in Hm. unfold hit_length in Hm. simpl in Hm. lia.
  - lia.
  - destruct (attempt fl r false b (c :: a)) as [m|] eqn:Hm.
    + destruct (hit_length (c :: a) m) eqn:Hl; [by apply Hne in Hm|].
      assert (n ≤ length a)%nat as Hn.
      { unfold hit_length in Hl. simpl in Hl. lia. }
      specialize (IH n (c :: b) Hn). unfold hit. simpl. rewrite length_app.
      unfold fmap in IH. lia.
    + specialize (IH 0%nat (c :: b) ltac:(lia)). simpl. unfold fmap in IH. lia.
  - specialize (IH n (c :: b) ltac:(lia)). lia.
Qed.

Lemma sub_length r repl s :
  never_empty r → (length repl ≤ 1)%nat →
  (length (sub fl r repl s) ≤ length s)%nat.
Proof.
  intros Hne Hrepl.
  pose proof (scan_length r repl 0 [] s Hne Hrepl ltac:(lia)) as Hl.
  unfold sub. unfold piece_text in Hl. lia.
Qed.

Lemma sub_no_match r repl s :
  (∀ b a, a `suffix_of` s → attempt fl r false b a = None) →
  sub fl r repl s = s.
Proof.
  intros Hno. unfold sub. rewrite scan_no_match by done.
  clear Hno. induction s as [|c s IH]; simpl; [done|]. by f_equal.
Qed.

Lemma findall_no_match r s :
  (∀ b a, a `suffix_of` s → attempt fl r false b a = None) →
  findall fl r s = [].
Proof.
  intros Hno. unfold findall. rewrite scan_no_match by done.
  clear Hno. by induction s.
Qed.

End matcher_facts.
End ReFacts.

(** ** The recipe parser *)

Section parser.
Context `{Runtime}.
Import Re ReFacts.

Lemma orelse_is_Some {A} (x : option A) y :
  is_Some x ∨ is_Some (y ()) → is_Some (orelse x y).
Proof. destruct x; simpl; [by eexists|by intros [[? [=]]|?]]. Qed.

Lemma repeat_one_total fl cs lo hi greedy n b a k :
  (lo ≤ n)%nat → (∀ b' a', is_Some (k b' a')) →
  is_Some (repeat_one fl cs lo hi greedy n b a k).
Proof.
  intros Hlo Hk. rewrite repeat_one_unfold. cbv zeta.
  rewrite (bool_decide_eq_true_2 _ Hlo).
  destruct greedy; apply orelse_is_Some; [right|left]; apply Hk.
Qed.

(** One or more of a set matches wherever the code point ahead is in the
    set. *)
Lemma attempt_plus_head fl cs b c a :
  cset_match fl cs c = true → is_Some (attempt fl (plus cs) false b (c :: a)).
Proof.
  intros Hc. unfold attempt, plus. cbn [rmatch before after caps].
  rewrite repeat_one_unfold. cbv zeta.
  apply orelse_is_Some. left. cbn [below andb]. rewrite Hc.
  apply repeat_one_total; [lia|]. intros. by eexists.
Qed.

Lemma cset_match_spaces c : cset_match NOFLAG spaces c = isspace c.
Proof. unfold cset_match, spaces. simpl. apply orb_false_r. Qed.

Lemma whitespace_run_never_empty : never_empty NOFLAG whitespace_run.
Proof. by apply consumes_never_empty. Qed.

Lemma attempt_whitespace_run_None b c a :
  attempt NOFLAG whitespace_run false b (c :: a) = None → isspace c = false.
Proof.
  intros Hno. destruct (isspace c) eqn:Hc; [|done].
  rewrite <- cset_match_spaces in Hc.
  destruct (attempt_plus_head NOFLAG spaces b c a Hc) as [m Hm].
  unfold whitespace_run in Hno. congruence.
Qed.

(** The first statement of [parse_recipe_data]: white space is flattened. *)
Definition normalize (text : str) : str :=
  sub NOFLAG whitespace_run (lit " ") (Py.strip text).

(** After the flattening every code point is the space or a code point of
    the text that is not white space. *)
Lemma sub_whitespace_run s :
  Forall (λ c, c = space ∨ (c ∈ s ∧ isspace c = false))
    (sub NOFLAG whitespace_run (lit " ") s).
Proof.
  apply sub_forall.
  - apply whitespace_run_never_empty.
  - repeat constructor.
  - intros b c a Hin Hno. right. split; [done|].
    by eapply attempt_whitespace_run_None.
Qed.

Lemma normalize_no_newline text : Forall (λ c, c ≠ newline) (normalize text).
Proof.
  eapply Forall_impl; [apply sub_whitespace_run|].
  intros c [->|[_ Hc]]; [done|]. by intros ->.
Qed.

Lemma split_no_sep sep s : Forall (λ c, c ≠ sep) s → Py.split sep s = [s].
Proof.
  induction 1 as [|c s Hc _ IH]; simpl; [done|].
  apply N.eqb_neq in Hc. by rewrite Hc, IH.
Qed.

(** Group 1 of the first match of a pattern, when there is a match. *)
Definition region (fl : flags) (pattern : regex) (text : str) : option str :=
  search fl pattern text ≫= group 1.

Lemma search_group1 {A} fl r s (f : str → result A) (d : result A) :
  sets_group 1 r = true →
  match search fl r s with
  | Some m => group1 m ≫= f
  | None => d
  end
  = match region fl r s with
    | Some g => f g
    | None => d
    end.
Proof.
  intros Hs. unfold region. destruct (search fl r s) as [m|] eqn:Hm; [|done].
  destruct (search_sets_group fl r s m 1 Hs Hm) as [g Hg].
  simpl. unfold group1. by rewrite Hg.
Qed.

Lemma search_group1_id fl r s (d : result str) :
  sets_group 1 r = true →
  match search fl r s with
  | Some m => group1 m
  | None => d
  end
  = match region fl r s with
    | Some g => Ok g
    | None => d
    end.
Proof.
  intros Hs. unfold region. destruct (search fl r s) as [m|] eqn:Hm; [|done].
  destruct (search_sets_group fl r s m 1 Hs Hm) as [g Hg].
  simpl. unfold group1. by rewrite Hg.
Qed.

Lemma find_title_defined patterns text :
  Forall (λ p, sets_group 1 p = true) patterns →
  ∃ t, find_title patterns text = Ok t.
Proof.
  induction 1 as [|p ps Hp _ [t IH]]; simpl; [by eexists|].
  destruct (search IGNORECASE_MULTILINE p text) as [m|] eqn:Hm; [|by eexists].
  destruct (search_sets_group _ _ _ _ 1 Hp Hm) as [g Hg].
  unfold group1. rewrite Hg. simpl.
  destruct (_ && _); by eexists.
Qed.

(** What [parse_recipe_data] returns, section by section. *)
Lemma parse_recipe_data_sections text :
  ∃ title calories protein,
    parse_recipe_data text
    = Ok {| title := title; calories := calories; protein := protein;
            ingredients :=
              match region IGNORECASE_DOTALL ingredients_pattern (normalize text) with
              | Some ingredients_text =>
                  omap ingredient_of_line (Py.split newline ingredients_text)
              | None => []
              end;
            directions :=
              match region IGNORECASE_DOTALL directions_pattern (normalize text) with
              | Some directions_text =>
                  omap numbered_item
                    (findall DOTALL numbered_segment directions_text)
              | None => []
              end;
            pro_tips :=
              match region IGNORECASE_DOTALL pro_tips_pattern (normalize text) with
              | Some tips_text =>
                  omap numbered_item (findall DOTALL numbered_segment tips_text)
              | None => []
              end |}.
Proof.
  unfold parse_recipe_data. fold (normalize text).
  destruct (find_title_defined title_patterns (normalize text)) as [t ->].
  { by repeat constructor. }
  rewrite !search_group1_id by done.
  rewrite !(search_group1 IGNORECASE_DOTALL) by done.
  set (ri := region _ ingredients_pattern _).
  set (rd := region _ directions_pattern _).
  set (rp := region _ pro_tips_pattern _).
  destruct (region IGNORECASE calorie_pattern _), (region IGNORECASE protein_pattern _),
    ri, rd, rp; simpl; by eexists _, _, _.
Qed.

(** C4: [parse_recipe_data] returns a record for every text and raises
    nothing; for the empty text the record has an empty title, no calories,
    no protein, and no ingredients, directions or tips. *)
Theorem parse_recipe_data_total :
  (∀ text, ∃ r, parse_recipe_data text = Ok r)
  ∧ parse_recipe_data []
    = Ok {| title := []; calories := []; protein := []; ingredients := [];
            directions := []; pro_tips := [] |}.
Proof.
  split; [|by vm_compute].
  intros text.
  destruct (parse_recipe_data_sections text) as (t & c & p & ->). by eexists.
Qed.

(** C3: the ingredients list never has more than one element.  The text
    between the markers, flattened, holds no newline, so the split on
    newlines leaves it whole: it is one entry (stripped, and with one
    leading run of bullet or number markers taken off by
    [ingredient_of_line]) or, when that leaves nothing, none. *)
Theorem ingredients_at_most_one (text : str) :
  ∃ r, parse_recipe_data text = Ok r
    ∧ (length (ingredients r) ≤ 1)%nat
    ∧ ingredients r
      = match region IGNORECASE_DOTALL ingredients_pattern (normalize text) with
        | Some ingredients_text =>
            match ingredient_of_line ingredients_text with
            | Some line => [line]
            | None => []
            end
        | None => []
        end.
Proof.
  destruct (parse_recipe_data_sections text) as (t & c & p & ->).
  eexists. split; [done|]. cbn [ingredients].
  destruct (region _ ingredients_pattern _) as [g|] eqn:Hg; [|split; [simpl; lia|done]].
  assert (Forall (λ c, c ≠ newline) g) as Hnl.
  { unfold region in Hg.
    destruct (search _ _ _) as [m|] eqn:Hm; [|done]. simpl in Hg.
    eapply search_group_forall; [exact Hm|apply normalize_no_newline|exact Hg]. }
  rewrite (split_no_sep _ _ Hnl). simpl.
  destruct (ingredient_of_line g); simpl; split; (lia || done).
Qed.

(** Somewhere in the text one or more digits stand right before a period. *)
Definition has_numbered_segment (s : str) : Prop :=
  ∃ pre ds post, s = pre ++ ds ++ code "." :: post
                 ∧ ds ≠ [] ∧ Forall (λ c, Py.isdigit c = true) ds.

Lemma attempt_numbered_segment b a m :
  attempt DOTALL numbered_segment false b a = Some m →
  ∃ ds post, a = ds ++ code "." :: post
             ∧ ds ≠ [] ∧ Forall (λ c, Py.isdigit c = true) ds.
Proof.
  intros [Hm _]%attempt_sound. unfold numbered_segment, seq in Hm. simpl in Hm.
  inversion Hm as [| |? ? ? st1 ? Hg _| | | | | | |]; subst. clear Hm.
  inversion Hg as [| | | | | |? ? ? st2 Hs| | |]; subst. clear Hg.
  inversion Hs as [| |? ? ? st3 ? Hr Hs'| | | | | | |]; subst. clear Hs.
  inversion Hs' as [| |? ? ? st4 ? Hd _| | | | | | |]; subst. clear Hs'.
  inversion Hr as [| | | | |? ? ? ? ? taken rest Ha HF Hlo _| | | |]; subst.
  inversion Hd as [|? c rest' ? Ha' Hc| | | | | | | |]; subst.
  simpl in Ha, Ha'. subst.
  exists taken, rest'. split; [|split].
  - f_equal. f_equal. unfold cset_match, dot in Hc. simpl in Hc.
    rewrite orb_false_r in Hc. by apply N.eqb_eq in Hc.
  - intros ->. simpl in Hlo. lia.
  - eapply Forall_impl; [exact HF|]. intros c'. unfold cset_match, digit. simpl.
    by rewrite orb_false_r.
Qed.

Lemma findall_unnumbered s :
  ¬ has_numbered_segment s → findall DOTALL numbered_segment s = [].
Proof.
  intros Hno. apply findall_no_match. intros b a [pre ->].
  destruct (attempt _ _ _ _ a) as [m|] eqn:Hm; [|done].
  apply attempt_numbered_segment in Hm as (ds & post & -> & ? & ?).
  destruct Hno. by exists pre, ds, post.
Qed.

(** C7: when the text after the [PRO TIP] / [PRO TIPS] marker holds no
    digits followed by a period, the tips are dropped: [pro_tips] is empty. *)
Theorem pro_tips_unnumbered_dropped (text : str) :
  (∀ tips_text,
     region IGNORECASE_DOTALL pro_tips_pattern (normalize text) = Some tips_text →
     ¬ has_numbered_segment tips_text) →
  ∃ r, parse_recipe_data text = Ok r ∧ pro_tips r = [].
Proof.
  intros Hno.
  destruct (parse_recipe_data_sections text) as (t & c & p & ->).
  eexists. split; [done|]. cbn [pro_tips].
  destruct (region _ pro_tips_pattern _) as [g|]; [|done].
  by rewrite findall_unnumbered by auto.
Qed.

(** ** The file-name sanitizer *)

(** A code point a sanitized name is made of. *)
Definition name_char (c : N) : Prop := Py.isword c = true ∨ c = code "-".

Lemma isword_not_space c : Py.isword c = true → isspace c = false.
Proof.
  unfold Py.isword. destruct (is_ascii c) eqn:Ha; [|apply u_isalnum_not_space].
  unfold isspace, in_range.
  intros Hw. repeat (apply orb_true_iff in Hw as [Hw|Hw]);
    repeat match goal with
    | H : _ && _ = true |- _ => apply andb_true_iff in H as [? ?]
    | H : (_ <=? _) = true |- _ => apply N.leb_le in H
    | H : (_ =? _) = true |- _ => apply N.eqb_eq in H
    end;
    repeat (apply orb_false_iff; split);
    try (apply andb_false_iff);
    rewrite ?N.leb_gt, ?N.eqb_neq; lia.
Qed.

Lemma name_char_not_space c : name_char c → isspace c = false.
Proof. intros [?%isword_not_space| ->]; done. Qed.

Lemma attempt_char_None fl cs b a :
  match a with
  | c :: _ => cset_match fl cs c = false
  | [] => True
  end →
  attempt fl (Char cs) false b a = None.
Proof.
  unfold attempt. simpl. destruct a as [|c a]; [done|]. by intros ->.
Qed.

Lemma attempt_plus_None fl cs b a :
  match a with
  | c :: _ => cset_match fl cs c = false
  | [] => True
  end →
  attempt fl (plus cs) false b a = None.
Proof.
  unfold attempt, plus. cbn [rmatch before after caps].
  rewrite repeat_one_unfold. cbv zeta. destruct a as [|c a]; [done|].
  intros ->. by rewrite andb_false_r.
Qed.

Lemma suffix_head_forall (P : N → Prop) (a s : str) :
  Forall P s → a `suffix_of` s →
  match a with
  | c :: _ => P c
  | [] => True
  end.
Proof.
  intros HF [pre ->]. apply Forall_app in HF as [_ HF].
  destruct a; [done|]. by apply Forall_cons in HF as [? _].
Qed.

Lemma lstrip_with_id p s :
  match s with
  | c :: _ => p c = false
  | [] => True
  end →
  Py.lstrip_with p s = s.
Proof. destruct s; simpl; [done|]. by intros ->. Qed.

Lemma strip_id s : Forall (λ c, isspace c = false) s → Py.strip s = s.
Proof.
  intros HF. unfold Py.strip, Py.rstrip_with.
  rewrite (lstrip_with_id _ s) by (by destruct HF).
  rewrite lstrip_with_id; [apply rev_involutive|].
  apply Forall_rev in HF. by destruct HF.
Qed.

Lemma lstrip_with_forall (P : N → Prop) p s :
  Forall P s → Forall P (Py.lstrip_with p s).
Proof.
  induction 1 as [|c s Hc Hs IH]; simpl; [done|].
  destruct (p c); [done|by constructor].
Qed.

Lemma lstrip_with_length p s : (length (Py.lstrip_with p s) ≤ length s)%nat.
Proof.
  induction s as [|c s IH]; simpl; [done|]. destruct (p c); simpl; lia.
Qed.

Lemma strip_forall (P : N → Prop) s : Forall P s → Forall P (Py.strip s).
Proof.
  intros HF. unfold Py.strip, Py.rstrip_with.
  apply Forall_rev, lstrip_with_forall, Forall_rev.
  by apply lstrip_with_forall.
Qed.

Lemma strip_length s : (length (Py.strip s) ≤ length s)%nat.
Proof.
  unfold Py.strip, Py.rstrip_with. rewrite length_rev.
  etrans; [apply lstrip_with_length|]. rewrite length_rev.
  apply lstrip_with_length.
Qed.

Lemma replace_id old new s : Forall (λ c, c ≠ old) s → Py.replace old new s = s.
Proof.
  unfold Py.replace. induction 1 as [|c s Hc _ IH]; simpl; [done|].
  apply N.eqb_neq in Hc. rewrite Hc. by f_equal.
Qed.

(** A name made of word characters and hyphens, not empty and of at most
    50 code points, is left as it is. *)
Lemma sanitize_filename_fixed s :
  Forall name_char s → s ≠ [] → (length s ≤ 50)%nat →
  sanitize_filename s = s.
Proof.
  intros HF Hne Hlen. unfold sanitize_filename.
  assert (Forall (λ c, isspace c = false) s) as Hsp.
  { eapply Forall_impl; [exact HF|]. apply name_char_not_space. }
  rewrite (sub_no_match NOFLAG illegal_chars).
  2:{ intros b a Ha. apply attempt_char_None.
      pose proof (suffix_head_forall _ _ _ HF Ha) as Hc.
      destruct a as [|c a]; [done|].
      unfold cset_match. simpl. unfold code. simpl.
      repeat (apply orb_false_iff; split); try done;
        apply N.eqb_neq; intros ->;
        (destruct Hc as [Hc|Hc]; [by vm_compute in Hc|done]). }
  rewrite (sub_no_match NOFLAG not_word_space_hyphen).
  2:{ intros b a Ha. apply attempt_char_None.
      pose proof (suffix_head_forall _ _ _ HF Ha) as Hc.
      destruct a as [|c a]; [done|].
      unfold cset_match. simpl. apply negb_false_iff.
      destruct Hc as [->| ->]; [done|]. rewrite N.eqb_refl.
      by rewrite !orb_true_r. }
  rewrite (sub_no_match NOFLAG whitespace_run).
  2:{ intros b a Ha. apply attempt_plus_None.
      pose proof (suffix_head_forall _ _ _ Hsp Ha) as Hc.
      destruct a as [|c a]; [done|]. by rewrite cset_match_spaces. }
  rewrite strip_id by done.
  rewrite replace_id.
  2:{ eapply Forall_impl; [exact Hsp|]. by intros c Hc ->. }
  rewrite bool_decide_eq_false_2 by lia.
  by destruct s.
Qed.

(** C9: on a title of at most 50 code points, all of them word characters,
    spaces (any white space) or hyphens, sanitizing the sanitized name gives
    the same name. *)
Theorem sanitize_filename_idempotent (title : str) :
  (length title ≤ 50)%nat →
  Forall (λ c, Py.isword c = true ∨ isspace c = true ∨ c = code "-") title →
  sanitize_filename (sanitize_filename title) = sanitize_filename title.
Proof.
  intros Hlen HF.
  assert (Forall name_char (lit "recipe")) as Hrecipe.
  { repeat constructor. }
  assert (∃ s, sanitize_filename title = (if Py.truthy s then s else lit "recipe")
               ∧ Forall name_char s ∧ (length s ≤ 50)%nat)
    as (s & -> & Hs & Hl).
  { unfold sanitize_filename.
    set (s2 := sub NOFLAG not_word_space_hyphen [] _).
    set (s3 := Py.strip (sub NOFLAG whitespace_run (lit " ") s2)).
    set (s4 := Py.replace space underscore s3).
    assert (Forall (λ c, Py.isword c = true ∨ isspace c = true ∨ c = code "-") s2
            ∧ (length s2 ≤ 50)%nat) as [HF2 Hl2].
    { unfold s2. clear s2 s3 s4.
      split.
      - apply sub_forall; [by apply consumes_never_empty|done|].
        intros b c a Hin _. revert c Hin. apply Forall_forall.
        apply sub_forall; [by apply consumes_never_empty|done|].
        intros b' c' a' Hin _. revert c' Hin. by apply Forall_forall.
      - etrans; [apply sub_length; [by apply consumes_never_empty|simpl; lia]|].
        etrans; [apply sub_length; [by apply consumes_never_empty|simpl; lia]|done]. }
    assert (Forall (λ c, c = space ∨ name_char c) s3 ∧ (length s3 ≤ 50)%nat)
      as [HF3 Hl3].
    { unfold s3. split.
      - apply strip_forall.
        eapply Forall_impl; [apply sub_whitespace_run|].
        intros c [->|[Hin Hc]]; [by left|].
        rewrite Forall_forall in HF2.
        destruct (HF2 c Hin) as [?|[?|?]]; [right; by left|congruence|right; by right].
      - etrans; [apply strip_length|].
        etrans; [apply sub_length; [apply whitespace_run_never_empty|simpl; lia]|done]. }
    assert (Forall name_char s4 ∧ (length s4 ≤ 50)%nat) as [HF4 Hl4].
    { unfold s4, Py.replace. split; [|by rewrite length_fmap].
      apply Forall_fmap. eapply Forall_impl; [exact HF3|].
      intros c [->|Hc]; simpl; [by left|].
      destruct (c =? space) eqn:E; [by left|done]. }
    exists s4. split; [|done].
    by rewrite bool_decide_eq_false_2 by lia. }
  destruct s as [|c s]; simpl Py.truthy; cbv iota.
  - apply sanitize_filename_fixed; [done|done|simpl; lia].
  - by apply sanitize_filename_fixed.
Qed.

End parser.

(** ** Worked examples *)

(** The example of the specification. *)
Definition example_text : str :=
  lit "Turkey Bacon Breakfast Burrito ... 350 calories ... 28 grams of protein ... Ingredients 2 eggs 2 turkey bacon strips Directions 1. Cook bacon 2. Scramble eggs PRO TIP Use low-sodium bacon".

(** C1, as amended: on the example text the parser finds the title, the
    calories, the protein and the two directions; the ingredients are the
    one entry left of the section once its leading number is removed; no
    tip is kept, the tip having no number; and the tags are the sorted
    list of breakfast, burrito, egg, pork and turkey. *)
Theorem end_to_end_example `{Runtime} :
  ∃ r tags,
    parse_recipe_data example_text = Ok r
    ∧ generate_tags r = Ok tags
    ∧ title r = lit "Turkey Bacon Breakfast Burrito"
    ∧ Py.contains (lit "Turkey Bacon Breakfast Burrito") (title r) = true
    ∧ calories r = lit "350"
    ∧ protein r = lit "28"
    ∧ ingredients r = [lit "eggs 2 turkey bacon strips"]
    ∧ directions r = [lit "Cook bacon"; lit "Scramble eggs"]
    ∧ pro_tips r = []
    ∧ tags = [lit "breakfast"; lit "burrito"; lit "egg"; lit "pork";
              lit "turkey"]
    ∧ StronglySorted str_le tags.
Proof.
  eexists _, _. split; [by vm_compute|]. split; [by vm_compute|].
  repeat split; try by vm_compute.
  apply (bool_decide_unpack _). by vm_compute.
Qed.

(** The example as the specification gives it does not hold, under any
    tables of the interpreter: the ingredients are not split in two and the
    tip is not kept. *)
Lemma end_to_end_example_as_specified_fails :
  ¬ ∃ (H : Runtime) r tags,
      parse_recipe_data example_text = Ok r
      ∧ generate_tags r = Ok tags
      ∧ Py.contains (lit "Turkey Bacon Breakfast Burrito") (title r) = true
      ∧ calories r = lit "350"
      ∧ protein r = lit "28"
      ∧ ingredients r = [lit "2 eggs"; lit "2 turkey bacon strips"]
      ∧ directions r = [lit "Cook bacon"; lit "Scramble eggs"]
      ∧ pro_tips r = [lit "Use low-sodium bacon"]
      ∧ StronglySorted str_le tags
      ∧ lit "turkey" ∈ tags ∧ lit "breakfast" ∈ tags
      ∧ lit "burrito" ∈ tags ∧ lit "egg" ∈ tags.
Proof.
  intros (H & r & tags & Hr & _ & _ & _ & _ & Hi & _).
  vm_compute in Hr. injection Hr as <-. by vm_compute in Hi.
Qed.

(** A bulleted ingredients section on lines of its own. *)
Definition bulleted_text : str :=
  lit "Ingredients" ++ [newline] ++ lit "- 2 eggs" ++ [newline]
  ++ lit "- 1 cup milk" ++ [newline] ++ lit "Directions" ++ [newline]
  ++ lit "1. Mix".

(** C2 at a bulleted section: the two bulleted items come back as one
    entry, only the first bullet removed. *)
Theorem bulleted_ingredients_not_split `{Runtime} :
  ∃ r, parse_recipe_data bulleted_text = Ok r
       ∧ ingredients r = [lit "2 eggs - 1 cup milk"]
       ∧ ingredients r ≠ [lit "2 eggs"; lit "1 cup milk"].
Proof. eexists. split; [by vm_compute|]. split; by vm_compute. Qed.

(** *** Instances of the theorems above, on ASCII text *)

Definition toast : recipe :=
  {| title := lit "Plain toast"; calories := lit "350"; protein := lit "28";
     ingredients := [lit "2 slices of bread"]; directions := [lit "Toast it"];
     pro_tips := [] |}.

Lemma toast_numeric : @numeric_fields ascii_runtime toast.
Proof. split; right; eexists; by vm_compute. Defined.

Lemma generate_tags_nonempty_sorted_toast :
  ∃ tags, @generate_tags ascii_runtime toast = Ok tags
    ∧ tags ≠ []
    ∧ StronglySorted str_le tags
    ∧ ((∀ tag keywords keyword,
          (tag, keywords) ∈ ingredient_tags → keyword ∈ keywords →
          Py.contains keyword (@all_text ascii_runtime toast) = false) →
       (calories toast = []
        ∨ ∃ c, @Py.int ascii_runtime (calories toast) = Ok c ∧ (300 ≤ c ≤ 500)%Z) →
       (protein toast = []
        ∨ ∃ p, @Py.int ascii_runtime (protein toast) = Ok p ∧ (p ≤ 40)%Z) →
       tags = [lit "recipe"]).
Proof. exact (@generate_tags_nonempty_sorted ascii_runtime toast toast_numeric). Defined.

Lemma generate_tags_thresholds_toast :
  ∃ tags, @generate_tags ascii_runtime toast = Ok tags
    ∧ (∀ c, calories toast ≠ [] → @Py.int ascii_runtime (calories toast) = Ok c →
         (lit "lowcalorie" ∈ tags ↔ (c < 300)%Z)
         ∧ (lit "highcalorie" ∈ tags ↔ (500 < c)%Z)
         ∧ ((300 ≤ c ≤ 500)%Z →
            (lit "lowcalorie" ∉ tags) ∧ (lit "highcalorie" ∉ tags)))
    ∧ (∀ p, protein toast ≠ [] → @Py.int ascii_runtime (protein toast) = Ok p →
         (lit "highprotein" ∈ tags ↔
            (40 < p)%Z
            ∨ Py.contains (lit "protein") (@all_text ascii_runtime toast) = true
            ∨ Py.contains (lit "high protein") (@all_text ascii_runtime toast) = true)).
Proof. exact (@generate_tags_thresholds ascii_runtime toast toast_numeric). Defined.

Definition shake : recipe :=
  {| title := lit "Protein shake"; calories := []; protein := lit "12";
     ingredients := [lit "1 scoop powder"]; directions := []; pro_tips := [] |}.

Lemma generate_tags_protein_keyword_shake :
  ∃ tags, @generate_tags ascii_runtime shake = Ok tags ∧ lit "highprotein" ∈ tags.
Proof.
  apply (@generate_tags_protein_keyword ascii_runtime shake).
  - split; [by left|right; eexists; by vm_compute].
  - by vm_compute.
Defined.

Lemma create_markdown_layout_toast :
  ∃ tags rest,
    let tag_string := Py.join (lit " ") ((λ tag, lit "#" ++ tag) <$> tags) in
    @generate_tags ascii_runtime toast = Ok tags
    ∧ StronglySorted str_le tags
    ∧ @create_markdown ascii_runtime toast
      = Ok (lit "# " ++ title toast ++ nl ++ nl ++ tag_string ++ nl ++ nl ++ rest)
    ∧ (newline ∉ tag_string)
    ∧ ((∃ more, rest = lit "## Nutrition Information" ++ nl ++ nl ++ more)
       ↔ calories toast ≠ [] ∨ protein toast ≠ []).
Proof. exact (@create_markdown_layout ascii_runtime toast toast_numeric). Defined.

Lemma pro_tips_unnumbered_dropped_example :
  ∃ r, @parse_recipe_data ascii_runtime example_text = Ok r ∧ pro_tips r = [].
Proof.
  apply (@pro_tips_unnumbered_dropped ascii_runtime example_text).
  intros tips_text Hr. vm_compute in Hr. injection Hr as <-.
  intros (pre & ds & post & E & _).
  assert (code "." ∈ pre ++ ds ++ code "." :: post) as Hin.
  { rewrite !elem_of_app. right; right. by left. }
  rewrite <- E in Hin. apply (bool_decide_pack _) in Hin. by vm_compute in Hin.
Defined.

Lemma sanitize_filename_idempotent_example :
  @sanitize_filename ascii_runtime
    (@sanitize_filename ascii_runtime (lit "Turkey Bacon  Breakfast-Burrito "))
  = @sanitize_filename ascii_runtime (lit "Turkey Bacon  Breakfast-Burrito ").
Proof.
  apply (@sanitize_filename_idempotent ascii_runtime).
  - vm_compute. lia.
  - apply (bool_decide_unpack _). by vm_compute.
Defined.

(** *** The thresholds at their boundaries *)

Definition with_numbers (cal prot : string) : recipe :=
  {| title := lit "Plain toast"; calories := lit cal; protein := lit prot;
     ingredients := []; directions := []; pro_tips := [] |}.

Example calorie_boundaries `{Runtime} :
  (λ cal, generate_tags (with_numbers cal "")) <$> ["299"; "300"; "500"; "501"]%string
  = [Ok [lit "lowcalorie"]; Ok [lit "recipe"]; Ok [lit "recipe"];
     Ok [lit "highcalorie"]].
Proof. by vm_compute. Qed.

Example protein_boundaries `{Runtime} :
  (λ prot, generate_tags (with_numbers "" prot)) <$> ["40"; "41"]%string
  = [Ok [lit "recipe"]; Ok [lit "highprotein"]].
Proof. by vm_compute. Qed.

(** *** What [int] refuses

    The separators U+001C to U+001F are white space to [str.isspace] and
    [str.strip], but [int] does not skip them: a record that holds one
    beside a number makes [generate_tags] raise.  The other white space is
    skipped at both ends. *)

Example int_separators `{Runtime} :
  Py.int <$> [28 :: lit "42"; lit "41" ++ [31]; 160 :: lit "42" ++ [12288];
              lit " +7 "; lit "+ 7"]
  = [Raise ValueError; Raise ValueError; Ok 42%Z; Ok 7%Z; Raise ValueError].
Proof. by vm_compute. Qed.

Example generate_tags_separator `{Runtime} :
  generate_tags
    {| title := lit "Plain toast"; calories := 28 :: lit "42"; protein := [];
       ingredients := []; directions := []; pro_tips := [] |}
  = Raise ValueError.
Proof. by vm_compute. Qed.

(** * Further properties *)

(** ** The sanitizer on every title *)

Section sanitizer.
Context `{Runtime}.
Import Re ReFacts.

Lemma attempt_char_head fl cs b c a :
  attempt fl (Char cs) false b (c :: a) = None → cset_match fl cs c = false.
Proof.
  unfold attempt. simpl. by destruct (cset_match fl cs c).
Qed.

Lemma rstrip_with_forall (P : N → Prop) p s :
  Forall P s → Forall P (Py.rstrip_with p s).
Proof.
  intros HF. unfold Py.rstrip_with.
  by apply Forall_rev, lstrip_with_forall, Forall_rev.
Qed.

Lemma rstrip_with_length p s : (length (Py.rstrip_with p s) ≤ length s)%nat.
Proof.
  unfold Py.rstrip_with. rewrite length_rev.
  etrans; [apply lstrip_with_length|]. by rewrite length_rev.
Qed.

(** What is left after the two removals: word characters, white space and
    hyphens. *)
Lemma removals_forall title :
  Forall (λ c, Py.isword c = true ∨ isspace c = true ∨ c = code "-")
    (sub NOFLAG not_word_space_hyphen []
       (sub NOFLAG illegal_chars [] title)).
Proof.
  apply sub_forall; [by apply consumes_never_empty|done|].
  intros b c a _ Hno%attempt_char_head.
  unfold cset_match in Hno. simpl in Hno.
  apply negb_false_iff in Hno. rewrite orb_false_r in Hno.
  apply orb_true_iff in Hno as [?|Hno]; [by left|].
  apply orb_true_iff in Hno as [?|Hno]; [right; by left|].
  right; right. by apply N.eqb_eq in Hno.
Qed.

(** The name before the fallback to [recipe]. *)
Lemma sanitize_filename_shape title :
  ∃ s, sanitize_filename title = (if Py.truthy s then s else lit "recipe")
       ∧ Forall name_char s ∧ (length s ≤ 50)%nat.
Proof.
  unfold sanitize_filename.
  set (s2 := sub NOFLAG not_word_space_hyphen [] _).
  set (s3 := Py.strip (sub NOFLAG whitespace_run (lit " ") s2)).
  set (s4 := Py.replace space underscore s3).
  pose proof (removals_forall title) as HF2. fold s2 in HF2.
  assert (Forall (λ c, c = space ∨ name_char c) s3) as HF3.
  { unfold s3. apply strip_forall.
    eapply Forall_impl; [apply sub_whitespace_run|].
    intros c [->|[Hin Hc]]; [by left|].
    rewrite Forall_forall in HF2.
    destruct (HF2 c Hin) as [?|[?|?]]; [right; by left|congruence|right; by right]. }
  assert (Forall name_char s4) as HF4.
  { unfold s4, Py.replace.
    apply Forall_fmap. eapply Forall_impl; [exact HF3|].
    intros c [->|Hc]; simpl; [by left|].
    destruct (c =? space) eqn:E; [by left|done]. }
  case_bool_decide as Hlen.
  - eexists. split; [done|]. split.
    + unfold Py.rstrip. by apply rstrip_with_forall, Forall_take.
    + unfold Py.rstrip. etrans; [apply rstrip_with_length|].
      rewrite length_take. lia.
  - exists s4. split; [done|]. split; [done|lia].
Qed.

(** X1: whatever the title, the file name is not empty, has at most 50 code
    points, and is made of word characters and hyphens only: no white space,
    no separator, no dot. *)
Theorem sanitize_filename_safe (title : str) :
  sanitize_filename title ≠ []
  ∧ (length (sanitize_filename title) ≤ 50)%nat
  ∧ Forall (λ c, Py.isword c = true ∨ c = code "-") (sanitize_filename title).
Proof.
  destruct (sanitize_filename_shape title) as (s & -> & HF & Hlen).
  destruct s as [|c s]; simpl Py.truthy; cbv iota.
  - split; [done|]. split; [simpl; lia|]. repeat constructor.
  - done.
Qed.

(** X2: sanitizing is idempotent on every title, long or short, whatever its
    code points. *)
Theorem sanitize_filename_idempotent_all (title : str) :
  sanitize_filename (sanitize_filename title) = sanitize_filename title.
Proof.
  destruct (sanitize_filename_shape title) as (s & -> & HF & Hlen).
  destruct s as [|c s]; simpl Py.truthy; cbv iota.
  - apply sanitize_filename_fixed; [repeat constructor|done|simpl; lia].
  - by apply sanitize_filename_fixed.
Qed.

End sanitizer.

(** ** The tag list as a whole *)

Section tag_list.
Context `{Runtime}.

Lemma sorted_NoDup l : NoDup l → NoDup (sorted l).
Proof. unfold sorted. by rewrite merge_sort_Permutation. Qed.

Lemma recipe_not_rule r : ¬ rule_tags r (lit "recipe").
Proof.
  intros [Hk%keyword_hit_tag|[(? & _)|[(? & _)|(? & _)]]]; try done.
  apply (bool_decide_pack _) in Hk. by vm_compute in Hk.
Qed.

(** X3: the tags come without repetition from a fixed vocabulary (the keys
    of the keyword table, [lowcalorie], [highcalorie], [highprotein] and
    [recipe]); [recipe] is returned only alone, as the list of one element;
    and [lowcalorie] never comes with [highcalorie]. *)
Theorem generate_tags_well_formed (r : recipe) :
  numeric_fields r →
  ∃ tags, generate_tags r = Ok tags
    ∧ NoDup tags
    ∧ (∀ tag, tag ∈ tags → tag ∈ vocabulary)
    ∧ (lit "recipe" ∈ tags ↔ tags = [lit "recipe"])
    ∧ ¬ (lit "lowcalorie" ∈ tags ∧ lit "highcalorie" ∈ tags).
Proof.
  intros Hnum. destruct (generate_tags_defined r Hnum) as [tags Htags].
  exists tags. split; [done|]. split; [|split; [|split]].
  - apply generate_tags_inv in Htags as (S & -> & _).
    apply sorted_NoDup, NoDup_elements.
  - intros tag. by apply (generate_tags_vocabulary r).
  - split; [|intros ->; by left].
    intros Hin. apply (generate_tags_no_rule r); [done|].
    pose proof Htags as (S & -> & HS)%generate_tags_inv.
    apply elem_of_sorted, elem_of_elements in Hin.
    case_bool_decide as HE.
    + subst S. intros x Hx%HS. by apply not_elem_of_empty in Hx.
    + apply HS in Hin. by apply recipe_not_rule in Hin.
  - intros [Hlo Hhi].
    destruct threshold_tags_not_in_table as [Tlo Thi].
    apply (elem_of_generate_tags r) in Hlo; [|done..].
    apply (elem_of_generate_tags r) in Hhi; [|done..].
    destruct Hlo as [?%keyword_hit_tag|[(_ & c & _ & Hc & ?)|[(? & _)|(? & _)]]];
      try done.
    destruct Hhi as [?%keyword_hit_tag|[(? & _)|[(_ & c' & _ & Hc' & ?)|(? & _)]]];
      try done.
    assert (c = c') as -> by congruence. lia.
Qed.

End tag_list.

Lemma generate_tags_well_formed_toast :
  ∃ tags, @generate_tags ascii_runtime toast = Ok tags
    ∧ NoDup tags
    ∧ (∀ tag, tag ∈ tags → tag ∈ vocabulary)
    ∧ (lit "recipe" ∈ tags ↔ tags = [lit "recipe"])
    ∧ ¬ (lit "lowcalorie" ∈ tags ∧ lit "highcalorie" ∈ tags).
Proof. exact (@generate_tags_well_formed ascii_runtime toast toast_numeric). Defined.

(** ** What the parser puts in the record *)

Section record_fields.
Context `{Runtime}.
Import Re ReFacts.

(** The groups of the matches of a scan are made of code points of the
    subject. *)
Lemma scan_hits (P : N → Prop) fl r skip b a :
  Forall P a →
  Forall (λ p, match p with Hit _ m => caps_forall P m | Gap _ => True end)
    (scan fl r skip b a).
Proof.
  assert (∀ adv b a m, Forall P a → attempt fl r adv b a = Some m →
                       caps_forall P m) as Hatt.
  { intros adv b' a' m Ha [Hm _]%attempt_sound.
    by destruct (matches_forall fl P _ _ _ Hm Ha ltac:(by constructor)). }
  intros Ha. revert skip b. induction Ha as [|c a Hc Ha IH]; intros skip b;
    destruct skip as [|n]; simpl.
  - destruct (attempt fl r false b []) eqn:Hm; [|done].
    repeat constructor. by eapply Hatt.
  - constructor.
  - assert (Forall P (c :: a)) as Hca by by constructor.
    destruct (attempt fl r false b (c :: a)) as [m|] eqn:Hm; [|by constructor].
    pose proof (Hatt _ _ _ _ Hca Hm).
    destruct (hit_length (c :: a) m); [|by constructor].
    constructor; [done|].
    destruct (attempt fl r true b (c :: a)) as [m'|] eqn:Hm'; [|by constructor].
    constructor; [by eapply Hatt|done].
  - apply IH.
Qed.

Lemma findall_forall (P : N → Prop) fl r s :
  Forall P s → Forall (Forall P) (findall fl r s).
Proof.
  intros Hs. unfold findall.
  pose proof (scan_hits P fl r 0 [] s Hs) as HF.
  induction HF as [|p ps Hp _ IH]; simpl; [done|].
  destruct p as [c|t m]; simpl; [done|]. constructor; [|done].
  unfold group. destruct (lookup_group 1 (caps m)) as [g|] eqn:Hg; simpl; [|done].
  by eapply lookup_group_forall.
Qed.

(** Removing the matches of a pattern leaves code points of the subject. *)
Lemma sub_remove_forall (P : N → Prop) fl r s :
  consumes r = true → Forall P s → Forall P (sub fl r [] s).
Proof.
  intros Hr Hs. apply sub_forall; [by apply consumes_never_empty|done|].
  intros b c a Hin _. rewrite Forall_forall in Hs. by apply Hs.
Qed.

Lemma region_forall (P : N → Prop) fl r s g :
  Forall P s → region fl r s = Some g → Forall P g.
Proof.
  intros Hs Hg. unfold region in Hg.
  destruct (search fl r s) as [m|] eqn:Hm; [|done]. simpl in Hg.
  by eapply search_group_forall.
Qed.

Lemma find_title_forall (P : N → Prop) patterns text t :
  Forall P text → find_title patterns text = Ok t → Forall P t.
Proof.
  intros Ht. induction patterns as [|p ps IH]; simpl; [by intros [= <-]|].
  destruct (search IGNORECASE_MULTILINE p text) as [m|] eqn:Hm; [|done].
  unfold group1. destruct (group 1 m) as [g|] eqn:Hg; [|done]. simpl.
  destruct (_ && _); [|done]. intros [= <-].
  apply sub_remove_forall; [done|]. apply strip_forall.
  by eapply search_group_forall.
Qed.

Lemma ingredient_of_line_forall (P : N → Prop) line l :
  Forall P line → ingredient_of_line line = Some l → Forall P l ∧ l ≠ [].
Proof.
  intros Hl. unfold ingredient_of_line.
  destruct (_ && _); [|done].
  destruct (sub NOFLAG bullet_prefix [] _) as [|c s] eqn:E; [done|].
  simpl. intros [= <-]. split; [|done]. rewrite <- E.
  apply sub_remove_forall; [done|]. by apply strip_forall.
Qed.

(** Stripping twice is stripping once. *)
Lemma lstrip_with_snoc p s c :
  p c = false → Py.lstrip_with p (s ++ [c]) = Py.lstrip_with p s ++ [c].
Proof.
  intros Hc. induction s as [|d s IH]; simpl; [by rewrite Hc|].
  by destruct (p d).
Qed.

Lemma lstrip_with_head p s :
  match Py.lstrip_with p s with
  | c :: _ => p c = false
  | [] => True
  end.
Proof.
  induction s as [|c s IH]; simpl; [done|]. by destruct (p c) eqn:E.
Qed.

Lemma rstrip_with_head p s :
  match s with c :: _ => p c = false | [] => True end →
  match Py.rstrip_with p s with c :: _ => p c = false | [] => True end.
Proof.
  destruct s as [|c s]; [done|]. intros Hc. unfold Py.rstrip_with. simpl.
  rewrite lstrip_with_snoc by done. by rewrite rev_unit.
Qed.

Lemma strip_idempotent s : Py.strip (Py.strip s) = Py.strip s.
Proof.
  unfold Py.strip at 1.
  rewrite (lstrip_with_id isspace (Py.strip s)).
  2:{ unfold Py.strip. apply rstrip_with_head, lstrip_with_head. }
  unfold Py.strip, Py.rstrip_with. rewrite rev_involutive.
  rewrite lstrip_with_id; [done|]. apply lstrip_with_head.
Qed.

Lemma numbered_item_forall (P : N → Prop) step d :
  Forall P step → numbered_item step = Some d →
  Forall P d ∧ Py.strip d = d.
Proof.
  intros Hs. unfold numbered_item. destruct (Py.truthy _); [|done].
  intros [= <-]. split; [|apply strip_idempotent].
  apply strip_forall, sub_remove_forall; [done|]. by apply strip_forall.
Qed.

Lemma lstrip_with_elem_of p s c : c ∈ Py.lstrip_with p s → c ∈ s.
Proof.
  induction s as [|d s IH]; simpl; [done|].
  destruct (p d); [|done]. intros ?. right. auto.
Qed.

Lemma elem_of_rev_iff (l : str) c : c ∈ rev l ↔ c ∈ l.
Proof. rewrite !list_elem_of_In. symmetry. apply in_rev. Qed.

Lemma strip_elem_of s c : c ∈ Py.strip s → c ∈ s.
Proof.
  unfold Py.strip, Py.rstrip_with. rewrite elem_of_rev_iff.
  intros Hc%lstrip_with_elem_of. rewrite elem_of_rev_iff in Hc.
  by apply lstrip_with_elem_of in Hc.
Qed.

(** A code point a field may hold: the plain space, or a code point of the
    text that is not white space. *)
Definition from_text (text : str) (c : N) : Prop :=
  c = space ∨ (c ∈ text ∧ isspace c = false).

Lemma normalize_from_text text : Forall (from_text text) (normalize text).
Proof.
  eapply Forall_impl; [apply sub_whitespace_run|].
  intros c [->|[Hin Hc]]; [by left|]. right. split; [|done].
  by apply strip_elem_of.
Qed.

(** The record, field by field. *)
Lemma parse_recipe_data_fields text :
  ∃ t, find_title title_patterns (normalize text) = Ok t
    ∧ parse_recipe_data text
      = Ok {| title :=
                if negb (Py.truthy t) then
                  match findall IGNORECASE common_name (normalize text) with
                  | name :: _ => Py.strip name
                  | [] => t
                  end
                else t;
              calories :=
                default [] (region IGNORECASE calorie_pattern (normalize text));
              protein :=
                default [] (region IGNORECASE protein_pattern (normalize text));
              ingredients :=
                match region IGNORECASE_DOTALL ingredients_pattern (normalize text) with
                | Some ingredients_text =>
                    omap ingredient_of_line (Py.split newline ingredients_text)
                | None => []
                end;
              directions :=
                match region IGNORECASE_DOTALL directions_pattern (normalize text) with
                | Some directions_text =>
                    omap numbered_item
                      (findall DOTALL numbered_segment directions_text)
                | None => []
                end;
              pro_tips :=
                match region IGNORECASE_DOTALL pro_tips_pattern (normalize text) with
                | Some tips_text =>
                    omap numbered_item (findall DOTALL numbered_segment tips_text)
                | None => []
                end |}.
Proof.
  unfold parse_recipe_data. fold (normalize text).
  destruct (find_title_defined title_patterns (normalize text)) as [t Ht].
  { by repeat constructor. }
  exists t. split; [done|]. rewrite Ht.
  rewrite !search_group1_id by done.
  rewrite !(search_group1 IGNORECASE_DOTALL) by done.
  set (ri := region _ ingredients_pattern _).
  set (rd := region _ directions_pattern _).
  set (rp := region _ pro_tips_pattern _).
  by destruct (region IGNORECASE calorie_pattern _),
    (region IGNORECASE protein_pattern _), ri, rd, rp.
Qed.

Lemma omap_forall {A B} (Q : B → Prop) (R : A → Prop) (f : A → option B) l :
  (∀ x y, R x → f x = Some y → Q y) → Forall R l → Forall Q (omap f l).
Proof.
  intros Hf. induction 1 as [|x l Hx _ IH]; simpl; [done|].
  destruct (f x) eqn:E; [|done]. constructor; [by eapply Hf|done].
Qed.

(** X4: every code point of every field of the record is a plain space or a
    code point of the text that is not white space, so no field holds a
    newline or a tab; no ingredient entry is empty; and the directions and
    the tips carry no white space at either end. *)
Theorem parse_recipe_data_fields_clean (text : str) :
  ∃ r, parse_recipe_data text = Ok r
    ∧ Forall (from_text text) (title r)
    ∧ Forall (from_text text) (calories r)
    ∧ Forall (from_text text) (protein r)
    ∧ Forall (λ line, Forall (from_text text) line ∧ line ≠ []) (ingredients r)
    ∧ Forall (λ step, Forall (from_text text) step ∧ Py.strip step = step)
        (directions r)
    ∧ Forall (λ tip, Forall (from_text text) tip ∧ Py.strip tip = tip)
        (pro_tips r).
Proof.
  destruct (parse_recipe_data_fields text) as (t & Ht & ->).
  pose proof (normalize_from_text text) as Hn.
  eexists. split; [done|]. cbn [title calories protein ingredients directions pro_tips].
  split; [|split; [|split; [|split; [|split]]]].
  - pose proof (find_title_forall _ _ _ _ Hn Ht) as Ht'.
    destruct (negb (Py.truthy t)); [|done].
    pose proof (findall_forall _ IGNORECASE common_name _ Hn) as Hf.
    destruct Hf as [|name names Hname _]; [done|]. by apply strip_forall.
  - destruct (region IGNORECASE calorie_pattern _) eqn:E; simpl; [|done].
    by eapply region_forall.
  - destruct (region IGNORECASE protein_pattern _) eqn:E; simpl; [|done].
    by eapply region_forall.
  - destruct (region _ ingredients_pattern _) as [g|] eqn:E; [|done].
    pose proof (region_forall _ _ _ _ _ Hn E) as Hg.
    rewrite (split_no_sep newline g).
    2:{ eapply Forall_impl; [exact Hg|]. intros c [->|[_ Hc]]; [done|by intros ->]. }
    apply (omap_forall _ (Forall (from_text text))); [|by repeat constructor].
    intros. by eapply ingredient_of_line_forall.
  - destruct (region _ directions_pattern _) as [g|] eqn:E; [|done].
    pose proof (region_forall _ _ _ _ _ Hn E) as Hg.
    apply (omap_forall _ (Forall (from_text text))); [|by apply findall_forall].
    intros. by eapply numbered_item_forall.
  - destruct (region _ pro_tips_pattern _) as [g|] eqn:E; [|done].
    pose proof (region_forall _ _ _ _ _ Hn E) as Hg.
    apply (omap_forall _ (Forall (from_text text))); [|by apply findall_forall].
    intros. by eapply numbered_item_forall.
Qed.

End record_fields.

(** ** From the text to the note *)

Section pipeline.
Context `{Runtime}.
Import Re ReFacts.

(** A pattern without a group leaves the captures as they are. *)
Fixpoint groupless (r : regex) : bool :=
  match r with
  | Group _ _ => false
  | Seq r1 r2 | Alt r1 r2 => groupless r1 && groupless r2
  | Lookahead r' => groupless r'
  | _ => true
  end.

Lemma matches_groupless fl r st st' :
  matches fl r st st' → groupless r = true → caps st' = caps st.
Proof.
  induction 1 as [st|cs c rest st Ha _|r1 r2 st st' st'' _ IH1 _ IH2
                 |r1 r2 st st' _ IH|r1 r2 st st' _ IH
                 |cs lo hi greedy st taken rest Ha _ _ _
                 |n r st st' Hm IH|st _|st _|r st st' _ IH]; simpl;
    try done.
  - intros [? ?]%andb_true_iff. rewrite IH2, IH1; done.
  - intros [? ?]%andb_true_iff. auto.
  - intros [? ?]%andb_true_iff. auto.
Qed.

(** A pattern that opens with group 1 around [cs+]: the group is a run of
    [cs], not empty. *)
Lemma region_leading_run fl cs rest s g :
  groupless rest = true →
  region fl (Seq (Group 1 (plus cs)) rest) s = Some g →
  g ≠ [] ∧ Forall (λ c, cset_match fl cs c = true) g
  ∧ (length g ≤ length s)%nat.
Proof.
  intros Hrest Hg. unfold region in Hg.
  destruct (search _ _ s) as [m|] eqn:Hm; [|done]. simpl in Hg.
  apply search_sound in Hm as (b & a & <- & Hm).
  inversion Hm as [| |? ? ? st1 ? Hgrp Hr| | | | | | |]; subst. clear Hm.
  apply matches_groupless in Hr; [|done].
  inversion Hgrp as [| | | | | |? ? ? st0 Hrep| | |]; subst. clear Hgrp.
  inversion Hrep as [| | | | |? ? ? ? ? taken rest' Ha HF Hlo _| | | |]; subst.
  simpl in Ha. unfold group in Hg. rewrite Hr in Hg. simpl in Hg.
  rewrite (span_after _ _ taken) in Hg by done.
  injection Hg as <-. split; [|split; [done|]].
  - intros ->. simpl in Hlo. lia.
  - rewrite Ha, !length_app. lia.
Qed.

(** ASCII digits. *)
Definition ascii_digit (c : N) : Prop := 48 ≤ c ≤ 57.

Lemma ascii_digit_cases c :
  ascii_digit c →
  c = 48 ∨ c = 49 ∨ c = 50 ∨ c = 51 ∨ c = 52 ∨ c = 53 ∨ c = 54 ∨ c = 55
  ∨ c = 56 ∨ c = 57.
Proof. unfold ascii_digit. lia. Qed.

Lemma ascii_digit_isdigit c : ascii_digit c → Py.isdigit c = true.
Proof.
  intros Hc%ascii_digit_cases.
  repeat (destruct Hc as [->|Hc]; [done|]). by subst.
Qed.

Lemma ascii_digit_not_space c : ascii_digit c → isspace c = false.
Proof.
  intros Hc%ascii_digit_cases.
  repeat (destruct Hc as [->|Hc]; [done|]). by subst.
Qed.

(** Under [IGNORECASE] too, an ASCII code point that [\d] accepts is one of
    [0] to [9]. *)
Lemma cset_match_digit_ascii fl c :
  is_ascii c = true → cset_match fl digit c = true → ascii_digit c.
Proof.
  unfold cset_match, digit. simpl. rewrite orb_false_r.
  intros Hc Hd.
  assert (Py.isdigit c = true ∨ Py.isdigit (ascii_lower c) = true) as Hd'.
  { unfold tolower in Hd. rewrite Hc in Hd. destruct (ignorecase fl); auto. }
  clear Hd. unfold Py.isdigit, ascii_digit, ascii_lower, is_ascii, in_range in *.
  apply N.ltb_lt in Hc.
  destruct Hd' as [Hd|Hd].
  - rewrite (proj2 (N.ltb_lt c 128) Hc) in Hd.
    apply andb_true_iff in Hd as [?%N.leb_le ?%N.leb_le]. lia.
  - destruct (N.leb_spec 65 c), (N.leb_spec c 90); simpl in Hd.
    + destruct (N.ltb_spec (c + 32) 128); [|lia].
      apply andb_true_iff in Hd as [?%N.leb_le ?%N.leb_le]. lia.
    + rewrite (proj2 (N.ltb_lt c 128) Hc) in Hd.
      apply andb_true_iff in Hd as [?%N.leb_le ?%N.leb_le]. lia.
    + rewrite (proj2 (N.ltb_lt c 128) Hc) in Hd.
      apply andb_true_iff in Hd as [?%N.leb_le ?%N.leb_le]. lia.
    + rewrite (proj2 (N.ltb_lt c 128) Hc) in Hd.
      apply andb_true_iff in Hd as [?%N.leb_le ?%N.leb_le]. lia.
Qed.

Lemma literal_digits_all s :
  Forall ascii_digit s →
  Py.literal_digits true s = Some (Py.digit_value <$> s).
Proof.
  induction 1 as [|c s Hc _ IH]; simpl; [done|].
  by rewrite (ascii_digit_isdigit c Hc), IH.
Qed.

(** [int] has nothing to skip where there is no white space. *)
Lemma int_strip_id s :
  Forall (λ c, isspace c = false) s →
  Py.rstrip_with Py.int_space (Py.lstrip_with Py.int_space s) = s.
Proof.
  intros Hs.
  assert (∀ l : str, Forall (λ c, isspace c = false) l →
            match l with
            | c :: _ => Py.int_space c = false
            | [] => True
            end) as Hhead.
  { intros [|c l] Hl; [done|]. apply Forall_cons in Hl as [Hc _].
    unfold Py.int_space. by rewrite Hc. }
  rewrite lstrip_with_id by by apply Hhead.
  unfold Py.rstrip_with. rewrite lstrip_with_id; [apply rev_involutive|].
  by apply Hhead, Forall_rev.
Qed.

(** [int] reads every run of ASCII digits the digit limit lets through. *)
Lemma int_ascii_digits s :
  Forall ascii_digit s → s ≠ [] →
  (int_max_str_digits = 0 ∨ length s ≤ 640 `max` int_max_str_digits)%nat →
  ∃ n, Py.int s = Ok n.
Proof.
  intros Hs Hne Hlen. unfold Py.int.
  rewrite int_strip_id.
  2:{ eapply Forall_impl; [exact Hs|]. apply ascii_digit_not_space. }
  destruct s as [|c s]; [done|].
  apply Forall_cons in Hs as [Hc Hs].
  assert ((let '(sign, body) :=
             match c :: s with
             | 45 :: s' => ((-1)%Z, s')
             | 43 :: s' => (1%Z, s')
             | _ => (1%Z, c :: s)
             end in
           match Py.literal_digits false body with
           | Some ds =>
               if bool_decide (640 < length ds)%nat
                  && (bool_decide (int_max_str_digits ≠ 0%nat)
                      && bool_decide (int_max_str_digits < length ds)%nat)
               then Raise ValueError
               else Ok (sign * fold_left (λ acc d, 10 * acc + d) ds 0)%Z
           | None => Raise ValueError
           end)
          = match Py.literal_digits false (c :: s) with
            | Some ds =>
                if bool_decide (640 < length ds)%nat
                   && (bool_decide (int_max_str_digits ≠ 0%nat)
                       && bool_decide (int_max_str_digits < length ds)%nat)
                then Raise ValueError
                else Ok (1 * fold_left (λ acc d, 10 * acc + d) ds 0)%Z
            | None => Raise ValueError
            end) as ->.
  { apply ascii_digit_cases in Hc.
    repeat (destruct Hc as [->|Hc]; [done|]). by subst. }
  simpl. rewrite (ascii_digit_isdigit c Hc), (literal_digits_all s Hs). simpl.
  rewrite length_fmap.
  destruct (bool_decide (640 < S (length s))%nat
            && (bool_decide (int_max_str_digits ≠ 0%nat)
                && bool_decide (int_max_str_digits < S (length s))%nat)) eqn:E;
    [|by eexists].
  apply andb_true_iff in E as [E1%bool_decide_eq_true E2].
  apply andb_true_iff in E2 as [E2%bool_decide_eq_true E3%bool_decide_eq_true].
  simpl in Hlen. lia.
Qed.

Lemma normalize_length text : (length (normalize text) ≤ length text)%nat.
Proof.
  unfold normalize.
  etrans; [apply sub_length; [apply whitespace_run_never_empty|simpl; lia]|].
  apply strip_length.
Qed.

Lemma normalize_ascii text :
  Forall (λ c, is_ascii c = true) text →
  Forall (λ c, is_ascii c = true) (normalize text).
Proof.
  intros Ht. eapply Forall_impl; [apply sub_whitespace_run|].
  intros c [->|[Hin _]]; [done|].
  apply strip_elem_of in Hin. rewrite Forall_forall in Ht. by apply Ht.
Qed.

(** A number the parser stores, read off ASCII text. *)
Lemma number_region_ascii rest text g :
  groupless rest = true →
  Forall (λ c, is_ascii c = true) text →
  region IGNORECASE (Seq (Group 1 (plus digit)) rest) (normalize text) = Some g →
  g ≠ [] ∧ Forall ascii_digit g ∧ (length g ≤ length text)%nat.
Proof.
  intros Hrest Ht Hg.
  pose proof (region_forall _ _ _ _ _ (normalize_ascii text Ht) Hg) as Ha.
  apply region_leading_run in Hg as (Hne & Hd & Hl); [|done].
  split; [done|]. split.
  - rewrite Forall_forall in Ha, Hd. apply Forall_forall. intros c Hc.
    apply (cset_match_digit_ascii IGNORECASE); auto.
  - pose proof (normalize_length text). lia.
Qed.

(** X5: on ASCII text that the digit limit of [int] lets through (any text
    of at most 640 code points does), the record of the parser holds in
    [calories] and [protein] nothing or a run of the digits 0 to 9, and
    [generate_tags] and [create_markdown] accept it: nothing is raised from
    the text to the note. *)
Theorem parse_then_render_defined (text : str) :
  Forall (λ c, is_ascii c = true) text →
  (int_max_str_digits = 0 ∨ length text ≤ 640 `max` int_max_str_digits)%nat →
  ∃ r tags markdown,
    parse_recipe_data text = Ok r
    ∧ Forall ascii_digit (calories r)
    ∧ Forall ascii_digit (protein r)
    ∧ generate_tags r = Ok tags
    ∧ create_markdown r = Ok markdown.
Proof.
  intros Ht Hlen.
  assert (∀ rest, groupless rest = true →
            let field := default [] (region IGNORECASE
                           (Seq (Group 1 (plus digit)) rest) (normalize text)) in
            Forall ascii_digit field ∧ numeric field) as Hnum.
  { intros rest Hrest. cbv zeta.
    destruct (region IGNORECASE _ (normalize text)) as [g|] eqn:Hg; simpl.
    - destruct (number_region_ascii rest text g Hrest Ht Hg) as (Hne & Hd & Hl).
      split; [done|]. right. apply int_ascii_digits; [done|done|lia].
    - split; [constructor|by left]. }
  destruct (Hnum (Re.seq [star spaces; Re.text "calories"]) eq_refl) as [Hc Hcn].
  destruct (Hnum (Re.seq [star spaces; Re.text "gram"; opt (OneOf [Lit (code "s")]);
                          star spaces; Re.text "of"; star spaces; Re.text "protein"])
              eq_refl) as [Hp Hpn].
  clear Hnum.
  destruct (parse_recipe_data_fields text) as (t & _ & Hr).
  match type of Hr with _ = Ok ?rec =>
    destruct (generate_tags_defined rec) as [tags Htags]; [by split|] end.
  eexists _, tags, _. split; [exact Hr|].
  split; [exact Hc|]. split; [exact Hp|]. split; [exact Htags|].
  by apply create_markdown_blocks.
Qed.

End pipeline.

Lemma parse_then_render_defined_example :
  ∃ r tags markdown,
    @parse_recipe_data ascii_runtime example_text = Ok r
    ∧ Forall ascii_digit (calories r)
    ∧ Forall ascii_digit (protein r)
    ∧ @generate_tags ascii_runtime r = Ok tags
    ∧ @create_markdown ascii_runtime r = Ok markdown.
Proof.
  apply (@parse_then_render_defined ascii_runtime example_text).
  - apply (bool_decide_unpack _). by vm_compute.
  - right. vm_compute. lia.
Defined.

(** * The files: [process_pdf_file] and [process_all_pdfs]

    The files are seen through a finite map from path to what is there: a
    file with its text, or a directory.  Paths are POSIX paths and name
    their files one to one.  The log is not modelled. *)

Module Os.

Inductive node :=
| File (content : str)
| Directory.

Abbreviation world := (gmap str node).

(** [os.path.exists(p)] *)
Definition path_exists (w : world) (p : str) : bool :=
  bool_decide (is_Some (w !! p)).

Fixpoint rfind_from (c : N) (p : str) (i found : Z) : Z :=
  match p with
  | [] => found
  | x :: p' => rfind_from c p' (i + 1) (if x =? c then i else found)
  end.

(** [p.rfind(c)]: the index of the last [c], -1 when there is none *)
Definition rfind (c : N) (p : str) : Z := rfind_from c p 0 (-1).

(** [p[i:j]] for indices that are not negative *)
Definition slice (p : str) (i j : Z) : str :=
  take (Z.to_nat j - Z.to_nat i) (drop (Z.to_nat i) p).

(** [s.endswith(suffix)] *)
Definition endswith (suffix s : str) : bool :=
  Py.startswith (rev suffix) (rev s).

(** [os.path.basename(p)] *)
Definition basename (p : str) : str :=
  let i := (rfind (code "/") p + 1)%Z in
  drop (Z.to_nat i) p.

(** [os.path.splitext(p)]: the extension starts at the last dot of the last
    component, leading dots of the component apart. *)
Definition splitext (p : str) : str * str :=
  let sepIndex := rfind (code "/") p in
  let dotIndex := rfind (code ".") p in
  if (sepIndex <? dotIndex)%Z then
    (* skip all leading dots *)
    if forallb (λ c, c =? code ".") (slice p (sepIndex + 1) dotIndex)
    then (p, [])
    else (take (Z.to_nat dotIndex) p, drop (Z.to_nat dotIndex) p)
  else (p, []).

(** [os.path.join(a, b)] *)
Definition join (a b : str) : str :=
  if Py.startswith (lit "/") b then b
  else if negb (Py.truthy a) || endswith (lit "/") a then a ++ b
  else a ++ lit "/" ++ b.

End Os.

(** [s.replace(old, new)] for [old] not empty: the occurrences of [old],
    left to right and without overlap, become [new]; [skip] code points
    still belong to the last occurrence. *)
Fixpoint str_replace (old new : str) (skip : nat) (s : str) : str :=
  match skip, s with
  | S n, _ :: s' => str_replace old new n s'
  | S _, [] => []
  | O, [] => []
  | O, c :: s' =>
      if Py.startswith old s
      then new ++ str_replace old new (length old - 1) s'
      else c :: str_replace old new 0 s'
  end.

Module Batch.
Import Os.

Section process_pdf_file.
Context `{Runtime}.

(** [self.extract_text_from_pdf(pdf_path)]: what the PDF library reads at
    the path; it catches its own errors and returns the empty text. *)
Variable extract_text_from_pdf : world → str → str.

(** Does [open(path, "w")] succeed on a path where nothing is? *)
Variable can_create : world → str → bool.

(** [f.write(markdown)] and the closing of the file, on text that can be
    encoded: [None] when the text is written; [Some partial] when the
    system refuses ([OSError]: no space left, a quota, a limit on the size
    of files), [partial] being what the file is left with. *)
Variable write_error : world → str → str → option str.

Definition with_title (recipe_data : recipe) (t : str) : recipe :=
  {| title := t; calories := calories recipe_data;
     protein := protein recipe_data; ingredients := ingredients recipe_data;
     directions := directions recipe_data; pro_tips := pro_tips recipe_data |}.

(** The loop [while os.path.exists(output_path)], [fuel] turns at most;
    [None] when the turns are used up. *)
Fixpoint free_path (fuel : nat) (w : world) (original_output_path : str)
    (output_path : str) (counter : nat) : option str :=
  if path_exists w output_path then
    match fuel with
    | O => None
    | S fuel' =>
        let base_name := (splitext original_output_path).1 in
        free_path fuel' w original_output_path
          (base_name ++ lit "_" ++ Py.str_of_nat counter ++ lit ".md")
          (S counter)
    end
  else Some output_path.

(** Can the text be written as UTF-8?  A surrogate code point cannot:
    [f.write] raises [UnicodeEncodeError] on it. *)
Definition encodable (s : str) : bool :=
  forallb (λ c, negb ((55296 <=? c) && (c <=? 57343))) s.

(** The statements of the [try] block up to the file name: an exception
    there is the [Raise]. *)
Definition render (text : str) (pdf_path : str) : result (recipe * str) :=
  recipe_data ← parse_recipe_data text;
  let recipe_data :=
    if negb (Py.truthy (title recipe_data)) then
      (* Use filename as fallback title *)
      let filename := (splitext (basename pdf_path)).1 in
      with_title recipe_data
        (str_replace (lit "Tasty Shreds Jan-Feb-March_Part") (lit "Recipe ")
           0 filename)
    else recipe_data in
  markdown ← create_markdown recipe_data;
  Ok (recipe_data, markdown).

(** [process_pdf_file]: the files afterwards and the Boolean returned;
    [None] if the loop over the counters did not end.  [open] has made the
    file when [f.write] fails: the file stays, empty when the text cannot
    be encoded, and with what the system took of it otherwise. *)
Definition process_pdf_file (w : world) (pdf_path output_dir : str)
    : option (world * bool) :=
  let text := extract_text_from_pdf w pdf_path in
  if negb (Py.truthy text) then Some (w, false)
  else
    match render text pdf_path with
    | Raise _ => Some (w, false)
    | Ok (recipe_data, markdown) =>
        let filename := sanitize_filename (title recipe_data) in
        let output_path := join output_dir (filename ++ lit ".md") in
        (* Handle duplicate filenames *)
        match free_path (S (size w)) w output_path output_path 1 with
        | Some output_path =>
            if can_create w output_path then
              if encodable markdown then
                match write_error w output_path markdown with
                | None => Some (<[output_path := File markdown]> w, true)
                | Some partial =>
                    Some (<[output_path := File partial]> w, false)
                end
              else Some (<[output_path := File []]> w, false)
            else Some (w, false)
        | None => None
        end
    end.

End process_pdf_file.

(** ** The batch: [process_all_pdfs] *)

(** ["Part(\d+)"] *)
Definition part_pattern : Re.regex :=
  Re.seq [Re.text "Part"; Re.Group 1 (Re.plus digit)].

(** How [process_all_pdfs] ends: the early return, an exception out of the
    sort key, an [OSError] out of [os.makedirs], or the two tallies of the
    last log line. *)
Inductive outcome :=
| NoFiles
| SortFailed (e : exn)
| OsError
| Tallies (successful failed : nat).

Section process_all_pdfs.
Context `{Runtime}.

Variable extract_text_from_pdf : world → str → str.
Variable can_create : world → str → bool.
Variable write_error : world → str → str → option str.

(** [glob.glob(pattern)]: the paths that match, in the order the directory
    lists them. *)
Variable glob : world → str → list str.

(** [os.makedirs(name, exist_ok=True)]: the files afterwards, and whether
    it returned; it raises [OSError] otherwise. *)
Variable makedirs : world → str → world * bool.

(** [lambda x: int(re.search(r"Part(\d+)", x).group(1))]; group 1 takes
    part in every match. *)
Definition part_number (x : str) : result Z :=
  match Re.search Re.NOFLAG part_pattern x with
  | Some m => g ← group1 m; Py.int g
  | None => Raise AttributeError
  end.

(** [list.sort(key=key)] computes the keys first, in the order of the
    list: the first exception ends the sort and the list is as before. *)
Fixpoint keyed (key : str → result Z) (l : list str)
    : result (list (Z * str)) :=
  match l with
  | [] => Ok []
  | x :: l' => k ← key x; kl ← keyed key l'; Ok ((k, x) :: kl)
  end.

(** The sort is stable: of two items with the same key the one that was
    first stays first.  That fixes the result; insertion sort computes
    it. *)
Fixpoint insert_by (kx : Z * str) (l : list (Z * str)) : list (Z * str) :=
  match l with
  | [] => [kx]
  | ky :: l' =>
      if (kx.1 <=? ky.1)%Z then kx :: l else ky :: insert_by kx l'
  end.

Fixpoint sort_keyed (l : list (Z * str)) : list (Z * str) :=
  match l with
  | [] => []
  | kx :: l' => insert_by kx (sort_keyed l')
  end.

Definition sort_by (key : str → result Z) (l : list str) : result (list str) :=
  kl ← keyed key l; Ok ((sort_keyed kl).*2).

(** The loop over [pdf_files]. *)
Fixpoint process_each (w : world) (pdf_files : list str) (output_dir : str)
    (successful failed : nat) : option (world * (nat * nat)) :=
  match pdf_files with
  | [] => Some (w, (successful, failed))
  | pdf_file :: pdf_files' =>
      match process_pdf_file extract_text_from_pdf can_create write_error w
              pdf_file output_dir with
      | Some (w', true) =>
          process_each w' pdf_files' output_dir (S successful) failed
      | Some (w', false) =>
          process_each w' pdf_files' output_dir successful (S failed)
      | None => None
      end
  end.

(** [process_all_pdfs]: the files afterwards and how it ended; [None] if a
    loop over the counters did not end. *)
Definition process_all_pdfs (w : world) (directory : str)
    : option (world * outcome) :=
  (* Find all matching PDF files *)
  let pattern :=
    join directory (lit "Tasty Shreds Jan-Feb-March_Part*.pdf") in
  let pdf_files := glob w pattern in
  if negb (Py.truthy pdf_files) then Some (w, NoFiles)
  else
    (* Sort files numerically *)
    match sort_by part_number pdf_files with
    | Raise e => Some (w, SortFailed e)
    | Ok pdf_files =>
        (* Create output directory *)
        let output_dir := join directory (lit "obsidian_recipes") in
        let '(w, made) := makedirs w output_dir in
        if made then
          match process_each w pdf_files output_dir 0 0 with
          | Some (w, (successful, failed)) =>
              Some (w, Tallies successful failed)
          | None => None
          end
        else Some (w, OsError)
    end.

End process_all_pdfs.

End Batch.

(** ** The counter of the duplicate file names *)

Section free_path_facts.
Context `{Runtime}.
Import Os Batch.

(** The number a run of decimal digits writes. *)
Definition digits_value (s : str) : N :=
  fold_left (λ acc c, 10 * acc + (c - 48)) s 0.

Lemma digits_value_snoc s c : digits_value (s ++ [c]) = 10 * digits_value s + (c - 48).
Proof. unfold digits_value. by rewrite fold_left_app. Qed.

Lemma digits_of_value fuel n acc :
  (N.to_nat n < fuel)%nat →
  ∃ ds, Py.digits_of fuel n acc = ds ++ acc ∧ digits_value ds = n.
Proof.
  revert n acc. induction fuel as [|fuel IH]; intros n acc Hn; [lia|].
  simpl. destruct (N.ltb_spec n 10) as [Hlt|Hge].
  - exists [48 + n mod 10]. split; [done|].
    change (digits_value [48 + n mod 10]) with (10 * 0 + (48 + n mod 10 - 48)).
    rewrite N.mod_small by done.
    by rewrite N.mul_0_r, N.add_0_l, (N.add_comm 48), N.add_sub.
  - destruct (IH (n / 10) ((48 + n mod 10) :: acc)) as (ds & -> & Hv).
    { assert (n / 10 < n) by (apply N.div_lt; lia). lia. }
    exists (ds ++ [48 + n mod 10]). split; [by rewrite <- app_assoc|].
    rewrite digits_value_snoc, Hv, (N.add_comm 48), N.add_sub.
    symmetry. apply N.div_mod. lia.
Qed.

(** [str(n)] writes [n]: distinct counters give distinct texts. *)
Lemma str_of_nat_value n : digits_value (Py.str_of_nat n) = N.of_nat n.
Proof.
  unfold Py.str_of_nat.
  destruct (digits_of_value (S n) (N.of_nat n) []) as (ds & -> & Hv); [lia|].
  by rewrite app_nil_r.
Qed.

Global Instance str_of_nat_inj : Inj (=) (=) Py.str_of_nat.
Proof.
  intros n m E. apply Nat2N.inj. by rewrite <- !str_of_nat_value, E.
Qed.

(** The path tried for a counter. *)
Definition candidate (original_output_path : str) (counter : nat) : str :=
  (splitext original_output_path).1 ++ lit "_" ++ Py.str_of_nat counter
  ++ lit ".md".

Global Instance candidate_inj original : Inj (=) (=) (candidate original).
Proof.
  intros n m E. unfold candidate in E.
  apply app_inv_head, app_inv_head, app_inv_tail in E. by apply (inj _) in E.
Qed.

Lemma free_path_unfold (fuel : nat) (w : world) (original p : str) (k : nat) :
  free_path fuel w original p k
  = if path_exists w p then
      match fuel with
      | O => None
      | S fuel' =>
          free_path fuel' w original (candidate original k) (S k)
      end
    else Some p.
Proof. by destruct fuel. Qed.

Lemma free_path_Some (fuel : nat) (w : world) (original p : str) (k : nat)
    (q : str) :
  free_path fuel w original p k = Some q →
  path_exists w q = false
  ∧ (q = p
     ∨ path_exists w p = true
       ∧ ∃ j, (k ≤ j)%nat ∧ q = candidate original j
              ∧ ∀ i, (k ≤ i < j)%nat → path_exists w (candidate original i) = true).
Proof.
  revert p k. induction fuel as [|fuel IH]; intros p k;
    rewrite free_path_unfold; destruct (path_exists w p) eqn:Hp; try done.
  - intros [= <-]. auto.
  - intros (Hq & Hcase)%IH. split; [done|]. right. split; [done|].
    destruct Hcase as [->|(Hc & j & Hj & -> & Hall)].
    + exists k. split; [done|]. split; [done|]. intros i ?. lia.
    + exists j. split; [lia|]. split; [done|].
      intros i Hi. destruct (decide (i = k)) as [->|]; [done|]. apply Hall. lia.
  - intros [= <-]. auto.
Qed.

Lemma free_path_None (fuel : nat) (w : world) (original p : str) (k : nat) :
  free_path fuel w original p k = None →
  path_exists w p = true
  ∧ ∀ i, (k ≤ i < k + fuel)%nat → path_exists w (candidate original i) = true.
Proof.
  revert p k. induction fuel as [|fuel IH]; intros p k;
    rewrite free_path_unfold; destruct (path_exists w p) eqn:Hp; try done.
  - intros _. split; [done|]. intros i ?. lia.
  - intros [Hk Hall]%IH. split; [done|]. intros i Hi.
    destruct (decide (i = k)) as [->|]; [done|]. apply Hall. lia.
Qed.

(** The loop ends: there are more counters than files. *)
Lemma free_path_ends (w : world) (original p : str) (k : nat) :
  is_Some (free_path (S (size w)) w original p k).
Proof.
  destruct (free_path _ _ _ _ _) as [q|] eqn:E; [by eexists|]. exfalso.
  pose proof (free_path_None _ _ _ _ _ E) as [_ Hall].
  set (l := candidate original <$> seq k (S (size w))).
  assert (NoDup l) as Hnd.
  { apply (NoDup_fmap_2 _). apply NoDup_seq. }
  assert (list_to_set l ⊆ dom w) as Hsub.
  { intros x Hx. apply elem_of_list_to_set, list_elem_of_fmap in Hx as (i & -> & Hi).
    apply elem_of_seq in Hi. apply elem_of_dom.
    specialize (Hall i ltac:(lia)). by apply bool_decide_eq_true in Hall. }
  apply subseteq_size in Hsub.
  rewrite size_list_to_set, size_dom in Hsub by done.
  unfold l in Hsub. rewrite length_fmap, length_seq in Hsub. lia.
Qed.

End free_path_facts.

(** ** What one document does to the files *)

Section process_pdf_file_facts.
Context `{Runtime}.
Import Os Batch.
Variable extract_text_from_pdf : world → str → str.
Variable can_create : world → str → bool.
Variable write_error : world → str → str → option str.

(** One call keeps every file, and a call that returns [True] adds one. *)
Lemma process_pdf_file_grows (w : world) (pdf_path output_dir : str) :
  ∃ w' ok,
    process_pdf_file extract_text_from_pdf can_create write_error w pdf_path
      output_dir
    = Some (w', ok)
    ∧ w ⊆ w'
    ∧ (size w + (if ok then 1 else 0) ≤ size w')%nat.
Proof.
  assert (∃ w' ok, Some (w, false) = Some (w', ok) ∧ w ⊆ w'
                   ∧ (size w + (if ok then 1 else 0) ≤ size w')%nat) as Hsame.
  { eexists _, _. split; [done|]. split; [done|]. simpl. lia. }
  unfold process_pdf_file.
  destruct (Py.truthy (extract_text_from_pdf w pdf_path)); cbn [negb]; [|done].
  destruct (render _ _) as [[recipe_data markdown]|e]; [|done].
  cbv zeta.
  set (output_path := join output_dir _).
  destruct (free_path_ends w output_path output_path 1) as [q Hq].
  rewrite Hq. apply free_path_Some in Hq as [Hfree _].
  apply bool_decide_eq_false in Hfree. apply eq_None_not_Some in Hfree.
  destruct (can_create w q); [|done].
  destruct (encodable markdown); [destruct (write_error w q markdown)|];
    eexists _, _; (split; [done|]);
    (split; [by apply insert_subseteq|]);
    rewrite map_size_insert_None by done; lia.
Qed.

(** X6: [process_pdf_file] always returns, the loop over the counters
    ends, and it never touches what was there: either the files are as
    before, or exactly one file was added, at a path where nothing was.
    When it returns [True] the file added holds the note; with empty
    extracted text it returns [False] and the files are as before. *)
Theorem process_pdf_file_adds_one (w : world) (pdf_path output_dir : str) :
  ∃ w' ok,
    process_pdf_file extract_text_from_pdf can_create write_error w pdf_path
      output_dir
    = Some (w', ok)
    ∧ (w' = w ∧ ok = false
       ∨ ∃ output_path content,
           w !! output_path = None ∧ w' = <[output_path := File content]> w
           ∧ (ok = true →
              ∃ recipe_data,
                render (extract_text_from_pdf w pdf_path) pdf_path
                = Ok (recipe_data, content)))
    ∧ (extract_text_from_pdf w pdf_path = [] → w' = w ∧ ok = false).
Proof.
  unfold process_pdf_file.
  destruct (Py.truthy (extract_text_from_pdf w pdf_path)) eqn:Ht; cbn [negb].
  2:{ eexists _, _. split; [done|]. split; [by left|done]. }
  apply truthy_true in Ht.
  destruct (render _ _) as [[recipe_data markdown]|e].
  2:{ eexists _, _. split; [done|]. split; [by left|done]. }
  cbv zeta.
  set (output_path := join output_dir _).
  destruct (free_path_ends w output_path output_path 1) as [q Hq].
  rewrite Hq. apply free_path_Some in Hq as [Hfree _].
  apply bool_decide_eq_false in Hfree. apply eq_None_not_Some in Hfree.
  destruct (can_create w q).
  2:{ eexists _, _. split; [done|]. split; [by left|done]. }
  destruct (encodable markdown); [destruct (write_error w q markdown)|].
  - eexists _, _. split; [done|]. split; [|done].
    right. eexists q, _. split; [done|]. by split.
  - eexists _, _. split; [done|]. split; [|done].
    right. exists q, markdown. split; [done|]. split; [done|].
    intros _. by exists recipe_data.
  - eexists _, _. split; [done|]. split; [|done].
    right. exists q, []. split; [done|]. by split.
Qed.

End process_pdf_file_facts.

(** ** Where the note goes *)

Section note_path.
Context `{Runtime}.
Import Os Batch.

Lemma rfind_from_absent c (l : str) i found :
  c ∉ l → rfind_from c l i found = found.
Proof.
  revert i found. induction l as [|x l IH]; intros i found Hc; simpl; [done|].
  apply not_elem_of_cons in Hc as [Hx Hl].
  rewrite IH by done. apply N.eqb_neq in Hx.
  by rewrite N.eqb_sym, Hx.
Qed.

Lemma rfind_from_last c (l1 l2 : str) i found :
  c ∉ l2 →
  rfind_from c (l1 ++ c :: l2) i found = (i + Z.of_nat (length l1))%Z.
Proof.
  intros Hc. revert i found. induction l1 as [|x l1 IH]; intros i found; simpl.
  - rewrite N.eqb_refl, rfind_from_absent by done. lia.
  - rewrite IH. lia.
Qed.

Lemma rfind_absent c (l : str) : c ∉ l → rfind c l = (-1)%Z.
Proof. apply rfind_from_absent. Qed.

Lemma rfind_last c (l1 l2 : str) :
  c ∉ l2 → rfind c (l1 ++ c :: l2) = Z.of_nat (length l1).
Proof. intros Hc. unfold rfind. by rewrite rfind_from_last. Qed.

(** The directory part [os.path.join] puts before a relative name. *)
Definition dir_prefix (a : str) : str :=
  if negb (Py.truthy a) || endswith (lit "/") a then a else a ++ lit "/".

Lemma join_relative a b :
  Py.startswith (lit "/") b = false → join a b = dir_prefix a ++ b.
Proof.
  intros Hb. unfold join, dir_prefix. rewrite Hb.
  destruct (_ || _); [done|]. by rewrite <- app_assoc.
Qed.

Lemma endswith_slash a :
  endswith (lit "/") a = true → ∃ a', a = a' ++ lit "/".
Proof.
  unfold endswith. change (rev (lit "/")) with [code "/"].
  destruct (rev a) as [|c ra] eqn:E; cbn [Py.startswith]; [done|].
  rewrite andb_true_r. intros <-%N.eqb_eq.
  exists (rev ra). by rewrite <- (rev_involutive a), E.
Qed.

Lemma dir_prefix_shape a :
  dir_prefix a = [] ∨ ∃ d, dir_prefix a = d ++ lit "/".
Proof.
  unfold dir_prefix. destruct a as [|c a]; [by left|]. right.
  cbn [Py.truthy negb orb].
  destruct (endswith _ _) eqn:E; [by apply endswith_slash|by eexists].
Qed.

(** A path made of a directory part and a name with one dot. *)
Lemma splitext_stem d (stem ext : str) :
  d = [] ∨ (∃ d', d = d' ++ lit "/") →
  stem ≠ [] →
  Forall (λ c, c ≠ code "/" ∧ c ≠ code ".") stem →
  Forall (λ c, c ≠ code "/" ∧ c ≠ code ".") ext →
  splitext (d ++ stem ++ code "." :: ext) = (d ++ stem, code "." :: ext).
Proof.
  intros Hd Hne Hstem Hext.
  assert (∀ (l : str), Forall (λ c, c ≠ code "/" ∧ c ≠ code ".") l →
            (code "/" ∉ l) ∧ (code "." ∉ l)) as Hnot.
  { intros l Hl. rewrite Forall_forall in Hl.
    split; intros Hin; by destruct (Hl _ Hin). }
  destruct (Hnot _ Hstem) as [Hs1 Hs2]. destruct (Hnot _ Hext) as [He1 He2].
  assert (d ++ stem ++ code "." :: ext = (d ++ stem) ++ code "." :: ext) as Hp.
  { by rewrite <- app_assoc. }
  assert (rfind (code ".") (d ++ stem ++ code "." :: ext)
          = Z.of_nat (length (d ++ stem))) as Hdot.
  { rewrite Hp. by apply rfind_last. }
  assert ((rfind (code "/") (d ++ stem ++ code "." :: ext) + 1)%Z
          = Z.of_nat (length d)) as Hsep.
  { assert (code "/" ∉ stem ++ code "." :: ext) as Hns.
    { rewrite not_elem_of_app, not_elem_of_cons. done. }
    destruct Hd as [->|[d' ->]].
    - simpl app. by rewrite rfind_absent.
    - rewrite <- app_assoc. change (lit "/" ++ ?l) with (code "/" :: l).
      rewrite rfind_last by done. rewrite length_app. simpl. lia. }
  destruct stem as [|c stem]; [done|].
  assert ((c =? code ".") = false) as Hc.
  { apply N.eqb_neq. intros ->. apply Hs2. by left. }
  assert (take (length (d ++ c :: stem) - length d)
            (drop (length d) (d ++ (c :: stem) ++ code "." :: ext))
          = c :: stem) as Hslice.
  { rewrite drop_app_length, length_app, Nat.add_comm, Nat.add_sub.
    by rewrite take_app_length. }
  unfold splitext. cbv zeta. rewrite Hdot.
  rewrite (proj2 (Z.ltb_lt _ _)) by (rewrite length_app, length_cons; lia).
  unfold slice. rewrite Hsep, !Nat2Z.id, Hslice.
  cbn [forallb]. rewrite Hc. cbn [andb].
  rewrite Hp. by rewrite take_app_length, drop_app_length.
Qed.

(** A name of word characters and hyphens: the extension is cut right
    after it. *)
Lemma splitext_note d name (tail : str) :
  d = [] ∨ (∃ d', d = d' ++ lit "/") →
  Forall name_char name → name ≠ [] →
  Forall name_char tail →
  splitext (d ++ name ++ tail ++ lit ".md") = (d ++ name ++ tail, lit ".md").
Proof.
  intros Hd Hname Hne Htail.
  assert (∀ c, name_char c → c ≠ code "/" ∧ c ≠ code ".") as Hnc.
  { intros c Hc. split; intros ->; destruct Hc as [Hw|Hh];
      by vm_compute in Hw || by vm_compute in Hh. }
  pose proof (splitext_stem d (name ++ tail) (lit "md") Hd) as Hs.
  rewrite <- !app_assoc in Hs. apply Hs.
  - by destruct name.
  - apply Forall_app. split; eapply Forall_impl; eauto.
  - apply (bool_decide_unpack _). by vm_compute.
Qed.

(** The path of the note after [k] collisions. *)
Definition note_path (output_dir filename : str) (k : nat) : str :=
  join output_dir
    (filename ++ match k with
                 | O => []
                 | S _ => lit "_" ++ Py.str_of_nat k
                 end ++ lit ".md").

Lemma sanitize_filename_name title :
  Forall name_char (sanitize_filename title) ∧ sanitize_filename title ≠ [].
Proof.
  destruct (sanitize_filename_shape title) as (s & -> & HF & _).
  destruct s; simpl; [split; [repeat constructor|done]|done].
Qed.

Lemma startswith_slash_cons c (l : str) :
  c ≠ code "/" → Py.startswith (lit "/") (c :: l) = false.
Proof.
  intros Hc%N.eqb_neq. change (lit "/") with [code "/"]. cbn [Py.startswith].
  by rewrite N.eqb_sym, Hc.
Qed.

Lemma candidate_note_path output_dir title k :
  candidate (join output_dir (sanitize_filename title ++ lit ".md")) (S k)
  = note_path output_dir (sanitize_filename title) (S k).
Proof.
  destruct (sanitize_filename_name title) as [Hn Hne].
  unfold candidate, note_path.
  destruct (sanitize_filename title) as [|c name] eqn:E; [done|].
  assert (c ≠ code "/") as Hc.
  { intros ->. apply Forall_cons in Hn as [[Hw|Hh] _];
      by vm_compute in Hw || by vm_compute in Hh. }
  rewrite !join_relative by by apply startswith_slash_cons.
  pose proof (splitext_note (dir_prefix output_dir) (c :: name) []
                (dir_prefix_shape output_dir) Hn ltac:(done) ltac:(done)) as Hs.
  rewrite app_nil_l in Hs. rewrite app_nil_r in Hs.
  rewrite Hs. cbn [fst]. by rewrite <- !app_assoc.
Qed.

Lemma free_path_note_path (fuel : nat) (w : world) output_dir title q :
  let path := note_path output_dir (sanitize_filename title) in
  free_path fuel w (path 0%nat) (path 0%nat) 1 = Some q →
  ∃ k, q = path k ∧ path_exists w (path k) = false
       ∧ ∀ j, (j < k)%nat → path_exists w (path j) = true.
Proof.
  intros path [Hfree Hq]%free_path_Some. subst path.
  assert (note_path output_dir (sanitize_filename title) 0
          = join output_dir (sanitize_filename title ++ lit ".md")) as H0.
  { done. }
  destruct Hq as [->|(H0e & k & Hk & -> & Hall)].
  - exists 0%nat. split; [done|]. split; [done|]. intros j ?. lia.
  - destruct k as [|k]; [lia|]. rewrite H0 in *.
    rewrite candidate_note_path in Hfree. rewrite candidate_note_path.
    exists (S k). split; [done|]. split; [done|].
    intros [|j] Hj; [by rewrite <- H0e|].
    rewrite <- candidate_note_path. apply Hall. lia.
Qed.

Variable extract_text_from_pdf : world → str → str.
Variable can_create : world → str → bool.
Variable write_error : world → str → str → option str.

(** X7: when [process_pdf_file] returns [True], the note is the rendered
    recipe and it is at [<output_dir>/<name>.md] when that path was free,
    else at [<output_dir>/<name>_<k>.md] for the first [k] from 1 on whose
    path was free, [<name>] being the sanitized title. *)
Theorem process_pdf_file_note_path (w w' : world) (pdf_path output_dir : str) :
  process_pdf_file extract_text_from_pdf can_create write_error w pdf_path
    output_dir
  = Some (w', true) →
  ∃ recipe_data markdown k,
    render (extract_text_from_pdf w pdf_path) pdf_path
    = Ok (recipe_data, markdown)
    ∧ let path :=
        note_path output_dir (sanitize_filename (title recipe_data)) in
      w' = <[path k := File markdown]> w
      ∧ w !! path k = None
      ∧ ∀ j, (j < k)%nat → is_Some (w !! path j).
Proof.
  unfold process_pdf_file.
  destruct (Py.truthy (extract_text_from_pdf w pdf_path)); cbn [negb]; [|done].
  destruct (render _ _) as [[recipe_data markdown]|e]; [|done].
  cbv zeta.
  destruct (free_path _ _ _ _ _) as [q|] eqn:Hq; [|done].
  apply free_path_note_path in Hq as (k & -> & Hfree & Hall).
  destruct (can_create _ _); [|done].
  destruct (encodable markdown); [|done].
  destruct (write_error _ _ _); [done|].
  intros [= <-]. exists recipe_data, markdown, k.
  split; [done|]. split; [done|]. split.
  - apply bool_decide_eq_false in Hfree. by apply eq_None_not_Some.
  - intros j Hj. specialize (Hall j Hj). by apply bool_decide_eq_true in Hall.
Qed.

End note_path.

(** A second note of the same title, beside the first. *)
Definition shelf : Os.world :=
  {[ lit "out/Turkey_Bacon_Breakfast_Burrito.md" := Os.File [] ]}.

Definition burrito_note : str :=
  match Batch.render (H:=ascii_runtime) example_text (lit "in/doc.pdf") with
  | Ok (_, markdown) => markdown
  | Raise _ => []
  end.

Lemma process_pdf_file_note_path_example :
  ∃ recipe_data markdown k,
    Batch.render (H:=ascii_runtime) example_text (lit "in/doc.pdf")
    = Ok (recipe_data, markdown)
    ∧ let path :=
        note_path (lit "out")
          (sanitize_filename (H:=ascii_runtime) (title recipe_data)) in
      <[lit "out/Turkey_Bacon_Breakfast_Burrito_1.md" := Os.File burrito_note]>
        shelf
      = <[path k := Os.File markdown]> shelf
      ∧ shelf !! path k = None
      ∧ ∀ j, (j < k)%nat → is_Some (shelf !! path j).
Proof.
  apply (process_pdf_file_note_path (H:=ascii_runtime)
           (λ _ _, example_text) (λ _ _, true) (λ _ _ _, None) shelf _
           (lit "in/doc.pdf") (lit "out")).
  vm_compute. reflexivity.
Defined.

Example splitext_examples :
  Os.splitext <$> [lit "out/Recipe_1.md"; lit "a.b/c"; lit ".bashrc";
                   lit "x/..md"; lit "archive.tar.gz"]
  = [(lit "out/Recipe_1", lit ".md"); (lit "a.b/c", []); (lit ".bashrc", []);
     (lit "x/..md", []); (lit "archive.tar", lit ".gz")].
Proof. reflexivity. Qed.

(** ** The order of the batch *)

Section sort_facts.
Context `{Runtime}.
Import Os Batch.

Lemma insert_by_perm kx l : insert_by kx l ≡ₚ kx :: l.
Proof.
  induction l as [|ky l IH]; simpl; [done|].
  destruct (_ <=? _)%Z; [done|]. by rewrite IH, Permutation_swap.
Qed.

Lemma sort_keyed_perm l : sort_keyed l ≡ₚ l.
Proof.
  induction l as [|kx l IH]; simpl; [done|]. by rewrite insert_by_perm, IH.
Qed.

Definition key_le (a b : Z * str) : Prop := (a.1 ≤ b.1)%Z.

Lemma insert_by_sorted kx l :
  StronglySorted key_le l → StronglySorted key_le (insert_by kx l).
Proof.
  induction 1 as [|ky l Hl IH Hky]; simpl; [by repeat constructor|].
  destruct (Z.leb_spec kx.1 ky.1) as [Hle|Hgt].
  - constructor; [by constructor|]. constructor; [done|].
    eapply Forall_impl; [exact Hky|]. unfold key_le. intros; lia.
  - constructor; [done|]. rewrite insert_by_perm.
    constructor; [unfold key_le; lia|done].
Qed.

Lemma sort_keyed_sorted l : StronglySorted key_le (sort_keyed l).
Proof.
  induction l as [|kx l IH]; simpl; [constructor|by apply insert_by_sorted].
Qed.

(** Stable: the items of one key keep their order. *)
Lemma insert_by_stable (k : Z) kx l :
  filter (λ ky, ky.1 = k) (insert_by kx l) = filter (λ ky, ky.1 = k) (kx :: l).
Proof.
  induction l as [|ky l IH]; simpl; [done|].
  destruct (Z.leb_spec kx.1 ky.1) as [Hle|Hgt]; [done|].
  rewrite !filter_cons, IH, !filter_cons.
  destruct (decide (ky.1 = k)), (decide (kx.1 = k)); try done. lia.
Qed.

Lemma sort_keyed_stable (k : Z) l :
  filter (λ ky, ky.1 = k) (sort_keyed l) = filter (λ ky, ky.1 = k) l.
Proof.
  induction l as [|kx l IH]; simpl; [done|].
  by rewrite insert_by_stable, !filter_cons, IH.
Qed.

Lemma keyed_Ok key l kl :
  keyed key l = Ok kl → Forall (λ kx, key kx.2 = Ok kx.1) kl ∧ kl.*2 = l.
Proof.
  revert kl. induction l as [|x l IH]; simpl; intros kl.
  - intros [= <-]. by split; [constructor|].
  - destruct (key x) as [k|e] eqn:Hk; [|done]. simpl.
    destruct (keyed key l) as [kl'|e]; [|done]. simpl. intros [= <-].
    destruct (IH kl' eq_refl) as [HF Hl]. split; [by constructor|].
    rewrite fmap_cons. by f_equal.
Qed.

Lemma sort_by_perm key l l' : sort_by key l = Ok l' → l' ≡ₚ l.
Proof.
  unfold sort_by. destruct (keyed key l) as [kl|e] eqn:E; [|done]. simpl.
  intros [= <-]. apply keyed_Ok in E as [_ <-].
  by rewrite sort_keyed_perm.
Qed.

End sort_facts.

(** ** The sort key *)

Section part_number_facts.
Context `{Runtime}.
Import Os Batch Re ReFacts.

(** [Part] and a decimal digit are ahead. *)
Definition part_here (s : str) : bool :=
  match s with
  | p :: a :: r :: t :: d :: _ =>
      (p =? code "P") && (a =? code "a") && (r =? code "r") && (t =? code "t")
      && Py.isdigit d
  | _ => false
  end.

(** [Part] and a decimal digit occur nowhere in [s]. *)
Fixpoint no_part (s : str) : bool :=
  match s with
  | [] => true
  | _ :: s' => negb (part_here s) && no_part s'
  end.

(** In [a ++ s] they do not start within [a]. *)
Fixpoint clear_before (a s : str) : bool :=
  match a with
  | [] => true
  | _ :: a' => negb (part_here (a ++ s)) && clear_before a' s
  end.

Lemma rmatch_chr p st k :
  rmatch NOFLAG (chr p) st k
  = match after st with
    | c :: rest =>
        if c =? p
        then k {| before := c :: before st; after := rest; caps := caps st |}
        else None
    | [] => None
    end.
Proof.
  unfold chr. cbn [rmatch]. destruct (after st) as [|c rest]; [done|].
  unfold cset_match. cbn [existsb item_match ignorecase NOFLAG].
  by rewrite orb_false_r.
Qed.

Lemma cset_match_digit c : cset_match NOFLAG digit c = Py.isdigit c.
Proof. unfold cset_match, digit. simpl. apply orb_false_r. Qed.

Lemma part_pattern_eq :
  part_pattern
  = Seq (Seq (chr (code "P")) (Seq (chr (code "a")) (Seq (chr (code "r"))
             (Seq (chr (code "t")) Empty))))
        (Seq (Group 1 (plus digit)) Empty).
Proof. reflexivity. Qed.

(** A greedy run takes every code point of the set that is ahead. *)
Lemma repeat_one_run fl cs lo n b (ds tail : str) k m :
  Forall (λ c, cset_match fl cs c = true) ds →
  match tail with
  | c :: _ => cset_match fl cs c = false
  | [] => True
  end →
  (lo ≤ n + length ds)%nat →
  k (rev ds ++ b) tail = Some m →
  repeat_one fl cs lo None true n b (ds ++ tail) k = Some m.
Proof.
  intros Hds Htail. revert n b.
  induction Hds as [|c ds Hc _ IH]; intros n b Hlo Hk;
    rewrite repeat_one_unfold; cbv zeta.
  - simpl in *. rewrite bool_decide_eq_true_2 by lia.
    destruct tail as [|c tail]; [done|]. by rewrite Htail.
  - cbn [app below andb]. rewrite Hc.
    rewrite (IH (S n) (c :: b)); [done|simpl in Hlo; lia|].
    by rewrite <- Hk, (cons_middle c (rev ds)), app_assoc.
Qed.

Lemma attempt_part_None b s :
  part_here s = false → attempt NOFLAG part_pattern false b s = None.
Proof.
  intros Hs. unfold attempt. rewrite part_pattern_eq.
  cbn [rmatch]. rewrite rmatch_chr. cbn [after before caps].
  destruct s as [|p s]; [done|]. destruct (p =? _) eqn:Hp; [|done].
  rewrite rmatch_chr. cbn [after before caps].
  destruct s as [|a s]; [done|]. destruct (a =? _) eqn:Ha; [|done].
  rewrite rmatch_chr. cbn [after before caps].
  destruct s as [|r s]; [done|]. destruct (r =? _) eqn:Hr; [|done].
  rewrite rmatch_chr. cbn [after before caps].
  destruct s as [|t s]; [done|]. destruct (t =? _) eqn:Ht; [|done].
  unfold plus. cbn [rmatch after before caps].
  rewrite repeat_one_unfold. cbv zeta.
  destruct s as [|d s]; [done|].
  cbn [part_here] in Hs. rewrite Hp, Ha, Hr, Ht in Hs. cbn [andb] in Hs.
  cbn [below andb]. by rewrite cset_match_digit, Hs.
Qed.

Lemma attempt_part_run b (ds tail : str) :
  ds ≠ [] → Forall (λ c, Py.isdigit c = true) ds →
  match tail with
  | c :: _ => Py.isdigit c = false
  | [] => True
  end →
  attempt NOFLAG part_pattern false b (lit "Part" ++ ds ++ tail)
  = Some {| before := rev ds ++ rev (lit "Part") ++ b; after := tail;
            caps := [(1%nat, ds)] |}.
Proof.
  intros Hne Hds Htail. unfold attempt. rewrite part_pattern_eq.
  change (lit "Part" ++ ds ++ tail)
    with (code "P" :: code "a" :: code "r" :: code "t" :: ds ++ tail).
  cbn [rmatch]. rewrite !rmatch_chr. cbn [after before caps].
  rewrite !N.eqb_refl. rewrite !rmatch_chr. cbn [after before caps].
  rewrite !N.eqb_refl. rewrite !rmatch_chr. cbn [after before caps].
  rewrite !N.eqb_refl. rewrite !rmatch_chr. cbn [after before caps].
  rewrite !N.eqb_refl.
  unfold plus. cbn [rmatch after before caps].
  apply repeat_one_run.
  - eapply Forall_impl; [exact Hds|]. intros c. by rewrite cset_match_digit.
  - destruct tail; [done|]. by rewrite cset_match_digit.
  - destruct ds; [done|]. simpl. lia.
  - cbn [andb]. unfold set_group, span. cbn [after before caps].
    rewrite length_app, Nat.add_sub, take_app_length. done.
Qed.

Lemma attempt_part_Some b s :
  part_here s = true → is_Some (attempt NOFLAG part_pattern false b s).
Proof.
  intros Hs.
  destruct s as [|p [|a [|r [|t [|d s]]]]]; try done.
  cbn [part_here] in Hs.
  repeat (apply andb_true_iff in Hs as [Hs ?]).
  repeat match goal with E : (_ =? _) = true |- _ => apply N.eqb_eq in E; subst end.
  unfold attempt. rewrite part_pattern_eq.
  cbn [rmatch]. rewrite !rmatch_chr. cbn [after before caps].
  rewrite !N.eqb_refl. rewrite !rmatch_chr. cbn [after before caps].
  rewrite !N.eqb_refl. rewrite !rmatch_chr. cbn [after before caps].
  rewrite !N.eqb_refl. rewrite !rmatch_chr. cbn [after before caps].
  rewrite !N.eqb_refl.
  unfold plus. cbn [rmatch after before caps].
  rewrite repeat_one_unfold. cbv zeta. apply orelse_is_Some. left.
  cbn [below andb]. rewrite cset_match_digit.
  match goal with E : Py.isdigit _ = true |- _ => rewrite E end.
  apply repeat_one_total; [lia|]. intros. by eexists.
Qed.

Lemma search_from_clear b a s :
  clear_before a s = true →
  search_from NOFLAG part_pattern b (a ++ s)
  = search_from NOFLAG part_pattern (rev a ++ b) s.
Proof.
  revert b. induction a as [|c a IH]; intros b; [done|].
  cbn [clear_before]. intros [Hc Ha]%andb_true_iff.
  apply negb_true_iff in Hc.
  cbn [app search_from] in *. rewrite (attempt_part_None _ _ Hc). cbn [orelse].
  rewrite IH by done. by rewrite (cons_middle c (rev a)), app_assoc.
Qed.

(** [re.search] finds nothing exactly when [Part] and a digit occur
    nowhere. *)
Lemma search_part_None x :
  search NOFLAG part_pattern x = None ↔ no_part x = true.
Proof.
  unfold search. generalize (@nil N) as b.
  induction x as [|c x IH]; intros b.
  - split; [done|]. intros _. cbn [search_from].
    by rewrite attempt_part_None.
  - cbn [no_part search_from].
    destruct (part_here (c :: x)) eqn:Hc.
    + destruct (attempt_part_Some b _ Hc) as [m ->]. done.
    + rewrite (attempt_part_None _ _ Hc). cbn [orelse negb andb]. apply IH.
Qed.

Lemma clear_before_app u v s :
  clear_before (u ++ v) s = clear_before u (v ++ s) && clear_before v s.
Proof.
  induction u as [|c u IH]; [done|].
  cbn [app clear_before]. by rewrite IH, <- app_assoc, andb_assoc.
Qed.

(** A code point that is no part of [Part] and a digit, its [P] apart. *)
Definition breaker (c : N) : Prop :=
  c ≠ code "a" ∧ c ≠ code "r" ∧ c ≠ code "t" ∧ Py.isdigit c = false.

Lemma part_here_breaker c u v :
  breaker c → u ≠ [] → part_here (u ++ c :: v) = part_here u.
Proof.
  intros (Ha%N.eqb_neq & Hr%N.eqb_neq & Ht%N.eqb_neq & Hd) Hu.
  destruct u as [|x1 [|x2 [|x3 [|x4 [|x5 u]]]]]; [done| | | | |done];
    cbn [app part_here].
  - destruct v as [|? [|? [|? ?]]]; try done.
    by rewrite Ha, !andb_false_r.
  - destruct v as [|? [|? ?]]; try done.
    by rewrite Hr, !andb_false_r.
  - destruct v as [|? ?]; try done.
    by rewrite Ht, !andb_false_r.
  - by rewrite Hd, !andb_false_r.
Qed.

Lemma clear_before_breaker c u v :
  breaker c → clear_before u (c :: v) = no_part u.
Proof.
  intros Hc. induction u as [|x u IH]; [done|].
  cbn [clear_before no_part]. rewrite IH. f_equal. f_equal.
  by apply part_here_breaker.
Qed.

Lemma part_here_head c s : c ≠ code "P" → part_here (c :: s) = false.
Proof.
  intros Hc%N.eqb_neq. destruct s as [|? [|? [|? [|? ?]]]]; try done.
  cbn [part_here]. by rewrite Hc.
Qed.

Lemma clear_before_no_P a s :
  Forall (λ c, c ≠ code "P") a → clear_before a s = true.
Proof.
  induction 1 as [|c a Hc _ IH]; [done|].
  cbn [clear_before app]. by rewrite part_here_head, IH.
Qed.

Lemma digits_of_ascii fuel n acc :
  ∃ ds, Py.digits_of fuel n acc = ds ++ acc ∧ Forall ascii_digit ds
        ∧ (fuel ≠ 0%nat → ds ≠ []).
Proof.
  revert n acc. induction fuel as [|fuel IH]; intros n acc; simpl.
  { exists []. by split; [|split; [constructor|]]. }
  assert (ascii_digit (48 + n mod 10)) as Hd.
  { unfold ascii_digit. pose proof (N.mod_upper_bound n 10 ltac:(done)) as Hm.
    revert Hm. generalize (n mod 10). intros; lia. }
  destruct (n <? 10).
  - exists [48 + n mod 10]. split; [done|]. split; [by apply Forall_singleton|done].
  - destruct (IH (n / 10) ((48 + n mod 10) :: acc)) as (ds & -> & HF & _).
    exists (ds ++ [48 + n mod 10]). split; [by rewrite <- app_assoc|].
    split; [apply Forall_app; split; [done|by apply Forall_singleton]|].
    intros _. by destruct ds.
Qed.

Lemma str_of_nat_ascii n :
  Forall ascii_digit (Py.str_of_nat n) ∧ Py.str_of_nat n ≠ [].
Proof.
  unfold Py.str_of_nat.
  destruct (digits_of_ascii (S n) (N.of_nat n) []) as (ds & -> & HF & Hne).
  rewrite app_nil_r. auto.
Qed.

Lemma fold_digit_value (s : str) (a : N) :
  Forall ascii_digit s →
  fold_left (λ acc d, 10 * acc + d)%Z (Py.digit_value <$> s) (Z.of_N a)
  = Z.of_N (fold_left (λ acc c, 10 * acc + (c - 48)) s a).
Proof.
  intros Hs. revert a. induction Hs as [|c s Hc _ IH]; intros a; simpl; [done|].
  rewrite <- IH. f_equal.
  unfold Py.digit_value, is_ascii, ascii_digit in *.
  destruct (N.ltb_spec c 128); lia.
Qed.

(** [int] of a run of at most 640 ASCII digits is the number they write. *)
Lemma int_digits_value s :
  Forall ascii_digit s → s ≠ [] → (length s ≤ 640)%nat →
  Py.int s = Ok (Z.of_N (digits_value s)).
Proof.
  intros Hs Hne Hlen. unfold Py.int.
  rewrite int_strip_id.
  2:{ eapply Forall_impl; [exact Hs|]. apply ascii_digit_not_space. }
  destruct s as [|c s]; [done|].
  pose proof Hs as Hs'.
  apply Forall_cons in Hs as [Hc Hs].
  assert ((let '(sign, body) :=
             match c :: s with
             | 45 :: s' => ((-1)%Z, s')
             | 43 :: s' => (1%Z, s')
             | _ => (1%Z, c :: s)
             end in
           match Py.literal_digits false body with
           | Some ds =>
               if bool_decide (640 < length ds)%nat
                  && (bool_decide (int_max_str_digits ≠ 0%nat)
                      && bool_decide (int_max_str_digits < length ds)%nat)
               then Raise ValueError
               else Ok (sign * fold_left (λ acc d, 10 * acc + d) ds 0)%Z
           | None => Raise ValueError
           end)
          = match Py.literal_digits false (c :: s) with
            | Some ds =>
                if bool_decide (640 < length ds)%nat
                   && (bool_decide (int_max_str_digits ≠ 0%nat)
                       && bool_decide (int_max_str_digits < length ds)%nat)
                then Raise ValueError
                else Ok (1 * fold_left (λ acc d, 10 * acc + d) ds 0)%Z
            | None => Raise ValueError
            end) as ->.
  { apply ascii_digit_cases in Hc.
    repeat (destruct Hc as [->|Hc]; [done|]). by subst. }
  cbn [Py.literal_digits]. rewrite (ascii_digit_isdigit c Hc), (literal_digits_all s Hs).
  cbn [fmap option_fmap option_map]. rewrite length_cons, length_fmap.
  rewrite bool_decide_eq_false_2 by (simpl in Hlen; lia). cbn [andb].
  rewrite Z.mul_1_l. f_equal.
  rewrite <- fmap_cons. apply (fold_digit_value (c :: s) 0 Hs').
Qed.

Lemma int_str_of_nat n :
  (length (Py.str_of_nat n) ≤ 640)%nat →
  Py.int (Py.str_of_nat n) = Ok (Z.of_nat n).
Proof.
  intros Hlen. destruct (str_of_nat_ascii n) as [Hd Hne].
  rewrite int_digits_value by done.
  by rewrite str_of_nat_value, nat_N_Z.
Qed.

(** The path the glob gives for part [n] of the book. *)
Definition part_file (directory : str) (n : nat) : str :=
  join directory
    (lit "Tasty Shreds Jan-Feb-March_Part" ++ Py.str_of_nat n ++ lit ".pdf").

Lemma part_number_of_part_file directory n :
  no_part directory = true → (length (Py.str_of_nat n) ≤ 640)%nat →
  part_number (part_file directory n) = Ok (Z.of_nat n).
Proof.
  intros Hdir Hlen. destruct (str_of_nat_ascii n) as [Hd Hne].
  unfold part_file. rewrite join_relative by done.
  remember (Py.str_of_nat n) as ds eqn:Hds.
  assert (∃ sep name, dir_prefix directory
                   ++ lit "Tasty Shreds Jan-Feb-March_Part" ++ ds ++ lit ".pdf"
                 = (directory ++ sep :: name)
                   ++ lit "Part" ++ ds ++ lit ".pdf"
                 ∧ breaker sep
                 ∧ Forall (λ c, c ≠ code "P") (sep :: name))
    as (sep & name & -> & Hsep & Hname).
  { unfold dir_prefix. destruct (_ || _).
    - exists (code "T"), (lit "asty Shreds Jan-Feb-March_").
      split; [by rewrite <- app_assoc|].
      split; [by repeat split|]. apply (bool_decide_unpack _). by vm_compute.
    - exists (code "/"), (lit "Tasty Shreds Jan-Feb-March_").
      split; [by rewrite <- !app_assoc|].
      split; [by repeat split|]. apply (bool_decide_unpack _). by vm_compute. }
  unfold part_number, search.
  rewrite search_from_clear.
  2:{ rewrite clear_before_app, (clear_before_no_P _ _ Hname), andb_true_r.
      cbn [app]. by rewrite clear_before_breaker. }
  destruct ds as [|d ds'] eqn:Eds; [done|].
  change (lit "Part" ++ (d :: ds') ++ lit ".pdf")
    with (code "P" :: (lit "art" ++ (d :: ds') ++ lit ".pdf")).
  cbn [search_from].
  change (code "P" :: (lit "art" ++ (d :: ds') ++ lit ".pdf"))
    with (lit "Part" ++ (d :: ds') ++ lit ".pdf").
  rewrite attempt_part_run; [|done| |done].
  2:{ eapply Forall_impl; [exact Hd|]. apply ascii_digit_isdigit. }
  cbn [orelse]. unfold group1, group. cbn [caps lookup_group].
  rewrite bool_decide_eq_true_2 by done. simpl mbind.
  rewrite Hds. apply int_str_of_nat. by rewrite <- Hds.
Qed.

Lemma keyed_fmap {A} (key : str → result Z) (f : A → str) (g : A → Z) l :
  Forall (λ a, key (f a) = Ok (g a)) l →
  keyed key (f <$> l) = Ok ((λ a, (g a, f a)) <$> l).
Proof.
  induction 1 as [|a l Ha _ IH]; [done|].
  rewrite !fmap_cons. cbn [keyed]. by rewrite Ha, IH.
Qed.

Lemma sorted_keys_inv {A} (f : A → Z * str) (R : relation A) l :
  (∀ a b, key_le (f a) (f b) → R a b) →
  StronglySorted key_le (f <$> l) → StronglySorted R l.
Proof.
  intros HR. induction l as [|a l IH]; [constructor|].
  rewrite fmap_cons. inversion 1 as [|? ? Hl Ha]; subst.
  constructor; [by apply IH|].
  rewrite Forall_fmap in Ha. eapply Forall_impl; [exact Ha|]. intros b. apply HR.
Qed.

(** X8: files named [Tasty Shreds Jan-Feb-March_Part<n>.pdf] are put in
    the order of their numbers, part 2 before part 10, whatever order the
    glob gave them in; [<n>] is a number as [str] prints it, of at most 640
    digits, and the directory has no [Part] followed by a digit in its own
    name. *)
Theorem sort_by_part_number_ascending (directory : str) (ns : list nat) :
  no_part directory = true →
  Forall (λ n, (length (Py.str_of_nat n) ≤ 640)%nat) ns →
  ∃ ms,
    sort_by part_number (part_file directory <$> ns)
    = Ok (part_file directory <$> ms)
    ∧ ms ≡ₚ ns
    ∧ StronglySorted le ms.
Proof.
  intros Hdir Hns. unfold sort_by.
  rewrite (keyed_fmap _ _ Z.of_nat).
  2:{ eapply Forall_impl; [exact Hns|]. intros n.
      by apply part_number_of_part_file. }
  cbn [mbind result_bind].
  set (f := λ n, (Z.of_nat n, part_file directory n)).
  pose proof (sort_keyed_perm (f <$> ns)) as Hperm.
  pose proof (sort_keyed_sorted (f <$> ns)) as Hsorted.
  apply Permutation_map_inv in Hperm as (ms & Hms & Hp).
  change (map f ms) with (f <$> ms) in Hms. rewrite Hms in *.
  exists ms. split; [|split; [done|]].
  - f_equal. rewrite <- list_fmap_compose. done.
  - eapply sorted_keys_inv; [|exact Hsorted].
    intros a b. unfold key_le, f. simpl. lia.
Qed.

End part_number_facts.

Lemma sort_by_part_number_ascending_example :
  ∃ ms,
    Batch.sort_by (Batch.part_number (H:=ascii_runtime))
      (part_file (lit "book") <$> [10; 2; 1; 11]%nat)
    = Ok (part_file (lit "book") <$> ms)
    ∧ ms ≡ₚ [10; 2; 1; 11]%nat
    ∧ StronglySorted le ms.
Proof.
  apply (sort_by_part_number_ascending (H:=ascii_runtime) (lit "book")
           [10; 2; 1; 11]%nat).
  - reflexivity.
  - apply (bool_decide_unpack _). by vm_compute.
Defined.

(** The key is read off the whole path: a directory with a number of its
    own gives every file that number. *)
Example part_number_of_directory :
  Batch.part_number (H:=ascii_runtime)
    (part_file (lit "Part1") 7) = Ok 1%Z.
Proof. reflexivity. Qed.

(** ** What the batch does to the files *)

Section process_all_pdfs_facts.
Context `{Runtime}.
Import Os Batch.
Variable extract_text_from_pdf : world → str → str.
Variable can_create : world → str → bool.
Variable write_error : world → str → str → option str.
Variable glob : world → str → list str.
Variable makedirs : world → str → world * bool.

(** [os.makedirs] makes directories: it removes nothing and changes no
    file. *)
Hypothesis makedirs_keeps : ∀ w name, w ⊆ (makedirs w name).1.

Lemma process_each_grows (pdf_files : list str) (w : world)
    (output_dir : str) (successful failed : nat) :
  ∃ w' successful' failed',
    process_each extract_text_from_pdf can_create write_error w pdf_files
      output_dir successful failed
    = Some (w', (successful', failed'))
    ∧ w ⊆ w'
    ∧ (successful' + failed' = successful + failed + length pdf_files)%nat
    ∧ (successful ≤ successful')%nat
    ∧ (size w + (successful' - successful) ≤ size w')%nat.
Proof.
  revert w successful failed.
  induction pdf_files as [|pdf_file pdf_files IH]; intros w successful failed;
    simpl.
  { eexists _, _, _. split; [done|]. split; [done|]. lia. }
  destruct (process_pdf_file_grows extract_text_from_pdf can_create write_error
              w pdf_file output_dir) as (w1 & ok & -> & Hsub & Hsize).
  destruct ok.
  - destruct (IH w1 (S successful) failed)
      as (w' & s' & f' & -> & Hsub' & Hsum & Hle & Hsize').
    eexists _, _, _. split; [done|]. split; [by etrans|]. lia.
  - destruct (IH w1 successful (S failed))
      as (w' & s' & f' & -> & Hsub' & Hsum & Hle & Hsize').
    eexists _, _, _. split; [done|]. split; [by etrans|]. lia.
Qed.

(** X9: [process_all_pdfs] always returns or raises, and whatever was there
    before is there afterwards, unchanged: no note replaces a file.  When
    the batch runs to its end every file of the glob was counted once, as
    successful or as failed, and every successful one has added a file of
    its own.  When no file matches, or the sort fails on a name, nothing
    has been done. *)
Theorem process_all_pdfs_keeps_files (w : world) (directory : str) :
  ∃ w' out,
    process_all_pdfs extract_text_from_pdf can_create write_error glob makedirs
      w directory
    = Some (w', out)
    ∧ w ⊆ w'
    ∧ match out with
      | Tallies successful failed =>
          (successful + failed
           = length (glob w (join directory
                               (lit "Tasty Shreds Jan-Feb-March_Part*.pdf"))))%nat
          ∧ (size w + successful ≤ size w')%nat
      | NoFiles | SortFailed _ => w' = w
      | OsError => True
      end.
Proof.
  unfold process_all_pdfs. cbv zeta.
  destruct (Py.truthy (glob w _)); cbn [negb]; [|by eexists _, _].
  destruct (sort_by _ _) as [pdf_files|e] eqn:Hsort; [|by eexists _, _].
  apply sort_by_perm, Permutation_length in Hsort.
  pose proof (makedirs_keeps w (join directory (lit "obsidian_recipes")))
    as Hmk.
  destruct (makedirs w _) as [w1 made]. simpl in Hmk.
  destruct made; [|by eexists _, _].
  destruct (process_each_grows pdf_files w1 (join directory (lit "obsidian_recipes")) 0 0)
    as (w' & s' & f' & -> & Hsub' & Hsum & Hle & Hsize').
  eexists _, _. split; [done|]. split; [by etrans|].
  apply map_subseteq_size in Hmk. split; lia.
Qed.

Lemma keyed_raises key l x e :
  x ∈ l → key x = Raise e → ∃ e', keyed key l = Raise e'.
Proof.
  intros Hx Hk. induction Hx as [x l|x y l _ IH]; cbn [keyed].
  - rewrite Hk. by eexists.
  - destruct (key y); [|by eexists]. destruct (IH Hk) as [e' ->]. by eexists.
Qed.

(** X10: the glob also takes names such as
    [Tasty Shreds Jan-Feb-March_Part.pdf], where no digit follows [Part].
    One such path among the files ends the batch in the sort, with an
    exception, before the output directory is made and before any file is
    read: nothing is done for the other files either. *)
Theorem process_all_pdfs_unnumbered_name (w : world) (directory x : str) :
  x ∈ glob w (join directory (lit "Tasty Shreds Jan-Feb-March_Part*.pdf")) →
  no_part x = true →
  ∃ e,
    process_all_pdfs extract_text_from_pdf can_create write_error glob makedirs
      w directory
    = Some (w, SortFailed e).
Proof.
  intros Hx Hno. unfold process_all_pdfs. cbv zeta.
  destruct (glob w _) as [|y l] eqn:Hglob; [by apply elem_of_nil in Hx|].
  cbn [Py.truthy negb].
  assert (part_number x = Raise AttributeError) as Hkey.
  { unfold part_number. by rewrite (proj2 (search_part_None x) Hno). }
  destruct (keyed_raises part_number (y :: l) x _ Hx Hkey) as [e He].
  unfold sort_by. rewrite He. by exists e.
Qed.

End process_all_pdfs_facts.

(** A directory is made where nothing is, and is found where it is. *)
Definition mkdir (w : Os.world) (name : str) : Os.world * bool :=
  match w !! name with
  | Some Os.Directory => (w, true)
  | Some (Os.File _) => (w, false)
  | None => (<[name := Os.Directory]> w, true)
  end.

Lemma mkdir_keeps (w : Os.world) (name : str) : w ⊆ (mkdir w name).1.
Proof.
  unfold mkdir. destruct (w !! name) as [[]|] eqn:E; simpl; try done.
  by apply insert_subseteq.
Qed.

Definition book : list str :=
  part_file (lit "book") <$> [10; 2; 1]%nat.

Lemma process_all_pdfs_keeps_files_example :
  ∃ w' out,
    Batch.process_all_pdfs (H:=ascii_runtime) (λ _ _, example_text)
      (λ _ _, true) (λ _ _ _, None) (λ _ _, book) mkdir shelf (lit "book")
    = Some (w', out)
    ∧ shelf ⊆ w'
    ∧ match out with
      | Batch.Tallies successful failed =>
          (successful + failed = length book)%nat
          ∧ (size shelf + successful ≤ size w')%nat
      | Batch.NoFiles | Batch.SortFailed _ => w' = shelf
      | Batch.OsError => True
      end.
Proof.
  apply (process_all_pdfs_keeps_files (H:=ascii_runtime) (λ _ _, example_text)
           (λ _ _, true) (λ _ _ _, None) (λ _ _, book) mkdir mkdir_keeps shelf (lit "book")).
Defined.

Lemma process_all_pdfs_unnumbered_name_example :
  ∃ e,
    Batch.process_all_pdfs (H:=ascii_runtime) (λ _ _, example_text)
      (λ _ _, true) (λ _ _ _, None)
      (λ _ _, book ++ [lit "book/Tasty Shreds Jan-Feb-March_Part.pdf"])
      mkdir shelf (lit "book")
    = Some (shelf, Batch.SortFailed e).
Proof.
  apply (process_all_pdfs_unnumbered_name (H:=ascii_runtime)
           (λ _ _, example_text) (λ _ _, true) (λ _ _ _, None)
           (λ _ _, book ++ [lit "book/Tasty Shreds Jan-Feb-March_Part.pdf"])
           mkdir shelf (lit "book")
           (lit "book/Tasty Shreds Jan-Feb-March_Part.pdf")).
  - apply elem_of_app. right. apply list_elem_of_here.
  - reflexivity.
Defined.

(** * The flattened text *)

Section flattened.
Context `{Runtime}.
Import Re ReFacts.

(** A word: code points that are not white space, at least one. *)
Definition word (w : str) : Prop := w ≠ [] ∧ Forall (λ c, isspace c = false) w.

Lemma join_cons sep (p : str) parts :
  parts ≠ [] → Py.join sep (p :: parts) = p ++ sep ++ Py.join sep parts.
Proof. by destruct parts. Qed.

Lemma join_words_forall (P : N → Prop) sep words :
  Forall P sep → Forall (Forall P) words → Forall P (Py.join sep words).
Proof.
  intros Hsep. induction 1 as [|w words Hw Hws IH]; [constructor|].
  destruct words as [|w' words]; [done|].
  rewrite join_cons by done. rewrite !Forall_app. auto.
Qed.

Lemma join_words_head sep words :
  Forall word words →
  match Py.join sep words with
  | c :: _ => isspace c = false
  | [] => words = []
  end.
Proof.
  destruct 1 as [|w words [Hne Hw] Hws]; [done|].
  destruct w as [|c w]; [done|]. apply Forall_cons in Hw as [Hc _].
  by destruct words.
Qed.

Lemma join_words_last sep words :
  Forall word words → words ≠ [] →
  ∃ s c, Py.join sep words = s ++ [c] ∧ isspace c = false.
Proof.
  induction 1 as [|w words [Hne Hw] Hws IH]; [done|]. intros _.
  destruct words as [|w' words].
  - destruct w as [|c s _] using rev_ind; [done|].
    exists s, c. split; [done|].
    apply Forall_app in Hw as [_ Hc]. by inversion Hc.
  - destruct (IH ltac:(done)) as (s & c & E & Hc).
    rewrite join_cons by done. rewrite E.
    exists (w ++ sep ++ s), c. by rewrite <- !app_assoc.
Qed.

Lemma join_words_not_empty sep words :
  words ≠ [] → Forall word words → Py.join sep words ≠ [].
Proof.
  intros Hne Hws.
  destruct (join_words_last sep words Hws Hne) as (s & c & -> & _).
  by destruct s.
Qed.

(** A scan leaves the code points where no match starts. *)
Lemma scan_skip_prefix fl r b (w rest : str) :
  (∀ b' c a, c ∈ w → attempt fl r false b' (c :: a) = None) →
  scan fl r 0 b (w ++ rest) = (Gap <$> w) ++ scan fl r 0 (rev w ++ b) rest.
Proof.
  revert b. induction w as [|c w IH]; intros b Hno; [done|].
  cbn [app scan]. rewrite Hno by (by left).
  rewrite IH by (intros ??? Hin; apply Hno; by right).
  rewrite fmap_cons. cbn [app]. do 2 f_equal.
  by rewrite (cons_middle c (rev w)), app_assoc.
Qed.

(** After a match, the scan goes on where the match ended. *)
Lemma scan_skip fl r b (u rest : str) :
  scan fl r (length u) b (u ++ rest) = scan fl r 0 (rev u ++ b) rest.
Proof.
  revert b. induction u as [|c u IH]; intros b; [done|].
  cbn [length app scan]. rewrite IH.
  by rewrite (cons_middle c (rev u)), app_assoc.
Qed.

Lemma concat_gaps repl (w : str) : concat (piece_text repl <$> (Gap <$> w)) = w.
Proof. induction w as [|c w IH]; [done|]. simpl. by f_equal. Qed.

Lemma scan_word b (w rest : str) :
  Forall (λ c, isspace c = false) w →
  scan NOFLAG whitespace_run 0 b (w ++ rest)
  = (Gap <$> w) ++ scan NOFLAG whitespace_run 0 (rev w ++ b) rest.
Proof.
  intros Hw. apply scan_skip_prefix. intros b' c a Hc.
  apply attempt_plus_None. rewrite cset_match_spaces.
  rewrite Forall_forall in Hw. by apply Hw.
Qed.

(** A run of white space before a code point that is none is one match. *)
Lemma attempt_space_run b (ws a : str) :
  ws ≠ [] → Forall (λ c, isspace c = true) ws →
  match a with
  | c :: _ => isspace c = false
  | [] => True
  end →
  attempt NOFLAG whitespace_run false b (ws ++ a)
  = Some {| before := rev ws ++ b; after := a; caps := [] |}.
Proof.
  intros Hne Hws Ha. unfold attempt, whitespace_run, plus.
  cbn [rmatch before after caps].
  apply repeat_one_run.
  - eapply Forall_impl; [exact Hws|]. intros c. by rewrite cset_match_spaces.
  - destruct a; [done|]. by rewrite cset_match_spaces.
  - destruct ws; [done|]. simpl. lia.
  - done.
Qed.

(** The pieces of the scan at a run of white space. *)
Lemma scan_space_run b (ws a : str) :
  ws ≠ [] → Forall (λ c, isspace c = true) ws →
  match a with
  | c :: _ => isspace c = false
  | [] => True
  end →
  concat (piece_text (lit " ") <$> scan NOFLAG whitespace_run 0 b (ws ++ a))
  = space :: concat (piece_text (lit " ")
                       <$> scan NOFLAG whitespace_run 0 (rev ws ++ b) a).
Proof.
  intros Hne Hws Ha.
  pose proof (attempt_space_run b ws a Hne Hws Ha) as Hm.
  destruct ws as [|c ws]; [done|]. cbn [app] in *. cbn [scan]. rewrite Hm.
  unfold hit_length. cbn [after length]. rewrite length_app.
  replace (S (length ws + length a) - length a)%nat with (S (length ws))
    by lia.
  rewrite fmap_cons. cbn [concat piece_text hit]. rewrite scan_skip.
  cbn [rev]. by rewrite <- app_assoc.
Qed.

Lemma scan_words b words :
  Forall word words →
  concat (piece_text (lit " ") <$> scan NOFLAG whitespace_run 0 b
                                    (Py.join (lit " ") words))
  = Py.join (lit " ") words.
Proof.
  intros Hws. revert b. induction Hws as [|w words [Hne Hw] Hws IH]; intros b.
  { done. }
  destruct words as [|w' words].
  - cbn [Py.join]. rewrite <- (app_nil_r w) at 1.
    rewrite scan_word by done. rewrite fmap_app, concat_app, concat_gaps.
    by rewrite app_nil_r.
  - rewrite join_cons by done.
    rewrite scan_word by done. rewrite fmap_app, concat_app, concat_gaps.
    f_equal.
    pose proof (join_words_head (lit " ") _ Hws) as Hhead.
    rewrite (scan_space_run _ (lit " ")); [by rewrite IH|done| |].
    + by apply Forall_singleton.
    + by destruct (Py.join _ _).
Qed.

Lemma strip_words words :
  Forall word words → Py.strip (Py.join (lit " ") words) = Py.join (lit " ") words.
Proof.
  intros Hws. destruct words as [|w words]; [done|].
  destruct (join_words_last (lit " ") (w :: words) Hws) as (s & c & Es & Hc);
    [done|].
  pose proof (join_words_head (lit " ") (w :: words) Hws) as Hhead.
  unfold Py.strip. rewrite lstrip_with_id.
  2:{ by destruct (Py.join _ _). }
  unfold Py.rstrip_with. rewrite lstrip_with_id; [apply rev_involutive|].
  by rewrite Es, rev_unit.
Qed.

Lemma lstrip_with_split p (s : str) :
  ∃ ws, s = ws ++ Py.lstrip_with p s ∧ Forall (λ c, p c = true) ws.
Proof.
  induction s as [|c s (ws & Hs & Hws)]; [by exists []|].
  simpl. destruct (p c) eqn:Hc; [|by exists []].
  exists (c :: ws). split; [by rewrite <- app_comm_cons, <- Hs|by constructor].
Qed.

Lemma rstrip_with_split p (s : str) :
  ∃ ws, s = Py.rstrip_with p s ++ ws ∧ Forall (λ c, p c = true) ws.
Proof.
  destruct (lstrip_with_split p (rev s)) as (ws & Hs & Hws).
  exists (rev ws). split; [|by apply Forall_rev].
  unfold Py.rstrip_with. by rewrite <- rev_app_distr, <- Hs, rev_involutive.
Qed.

(** The words of a text, as [text.split()] gives them: its longest runs of
    code points that are not white space.  This is not code of the program;
    it is what the flattening is compared with. *)
Fixpoint words_of (s : str) : list str :=
  match s with
  | [] => []
  | c :: s' =>
      if isspace c then words_of s'
      else if match s' with d :: _ => isspace d | [] => true end
      then [c] :: words_of s'
      else match words_of s' with
           | w :: ws => (c :: w) :: ws
           | [] => [[c]]
           end
  end.

Lemma words_of_words s : Forall word (words_of s).
Proof.
  induction s as [|c s IH]; [constructor|]. cbn [words_of].
  destruct (isspace c) eqn:Hc; [done|].
  assert (word [c]) as Hw by (split; [done|by apply Forall_singleton]).
  destruct (match s with d :: _ => isspace d | [] => true end);
    [by constructor|].
  destruct (words_of s) as [|w ws]; [by repeat constructor|].
  apply Forall_cons in IH as [[_ Hw'] Hws].
  constructor; [|done]. split; [done|by constructor].
Qed.

(** The words hold the code points that are not white space, in order. *)
Lemma concat_words_of s :
  concat (words_of s) = filter (λ c, isspace c = false) s.
Proof.
  induction s as [|c s IH]; [done|]. cbn [words_of].
  rewrite filter_cons. destruct (isspace c) eqn:Hc.
  { by rewrite decide_False. }
  rewrite decide_True by done. rewrite <- IH.
  destruct (match s with d :: _ => isspace d | [] => true end); [done|].
  by destruct (words_of s).
Qed.

Lemma words_of_spaces (ws s : str) :
  Forall (λ c, isspace c = true) ws → words_of (ws ++ s) = words_of s.
Proof.
  induction 1 as [|c ws Hc _ IH]; [done|]. cbn [app words_of]. by rewrite Hc.
Qed.

Lemma words_of_trailing (u ws : str) :
  Forall (λ c, isspace c = true) ws → words_of (u ++ ws) = words_of u.
Proof.
  intros Hws. induction u as [|c u IH].
  { cbn [app]. rewrite <- (app_nil_r ws). exact (words_of_spaces ws [] Hws). }
  cbn [app words_of]. rewrite IH.
  destruct (isspace c); [done|].
  destruct u as [|d u]; [|done].
  cbn [app]. destruct ws as [|x ws]; [done|].
  apply Forall_cons in Hws as [Hx _]. by rewrite Hx.
Qed.

Lemma words_of_word (w rest : str) :
  word w →
  match rest with
  | d :: _ => isspace d = true
  | [] => True
  end →
  words_of (w ++ rest) = w :: words_of rest.
Proof.
  intros [Hne Hw] Hrest. induction Hw as [|c w Hc Hw IH]; [done|].
  cbn [app words_of]. rewrite Hc.
  destruct w as [|d w].
  - cbn [app]. destruct rest as [|x rest]; [done|]. by rewrite Hrest.
  - rewrite IH by done. cbn [app]. apply Forall_cons in Hw as [Hd _].
    by rewrite Hd.
Qed.

Lemma words_of_strip s : words_of (Py.strip s) = words_of s.
Proof.
  unfold Py.strip.
  destruct (lstrip_with_split isspace s) as (ws & Hs & Hws).
  destruct (rstrip_with_split isspace (Py.lstrip_with isspace s))
    as (ws' & Hs' & Hws').
  rewrite Hs at 2. rewrite words_of_spaces by done.
  rewrite Hs' at 2. by rewrite words_of_trailing.
Qed.

Lemma sub_words_fuel (n : nat) b (u : str) :
  (length u ≤ n)%nat →
  match u with c :: _ => isspace c = false | [] => True end →
  match rev u with c :: _ => isspace c = false | [] => True end →
  concat (piece_text (lit " ") <$> scan NOFLAG whitespace_run 0 b u)
  = Py.join (lit " ") (words_of u).
Proof.
  revert b u. induction n as [|n IH]; intros b u Hlen Hhead Hlast.
  { destruct u; [done|simpl in Hlen; lia]. }
  destruct u as [|c u]; [done|].
  (* the first word *)
  destruct (lstrip_with_split (λ x, negb (isspace x)) (c :: u))
    as (w & Hsplit & Hw).
  pose proof (lstrip_with_head (λ x, negb (isspace x)) (c :: u)) as Hrest.
  set (rest := Py.lstrip_with (λ x, negb (isspace x)) (c :: u)) in *.
  assert (Forall (λ x, isspace x = false) w) as Hw'.
  { eapply Forall_impl; [exact Hw|]. intros x. by rewrite negb_true_iff. }
  assert (w ≠ []) as Hwne.
  { intros ->. cbn [app] in Hsplit. rewrite <- Hsplit in Hrest.
    by rewrite Hhead in Hrest. }
  rewrite Hsplit, scan_word by done.
  rewrite fmap_app, concat_app, concat_gaps.
  rewrite words_of_word; [|done|].
  2:{ destruct rest; [done|]. by apply negb_false_iff. }
  destruct rest as [|x rest'] eqn:Erest.
  { by rewrite app_nil_r. }
  rewrite negb_false_iff in Hrest.
  (* the white space after it *)
  destruct (lstrip_with_split isspace (x :: rest')) as (ws & Hsplit' & Hws).
  pose proof (lstrip_with_head isspace (x :: rest')) as Hnext.
  set (u' := Py.lstrip_with isspace (x :: rest')) in *.
  assert (ws ≠ []) as Hwsne.
  { intros ->. cbn [app] in Hsplit'. rewrite <- Hsplit' in Hnext.
    by rewrite Hrest in Hnext. }
  assert (c :: u = w ++ ws ++ u') as Hu by by rewrite <- Hsplit'.
  assert (u' ≠ []) as Hu'ne.
  { intros E. rewrite Hu, E, app_nil_r, !rev_app_distr in Hlast.
    destruct ws as [|y ws _] using rev_ind; [done|].
    rewrite rev_unit in Hlast. cbn [app] in Hlast.
    apply Forall_app in Hws as [_ Hy]. inversion Hy; subst. congruence. }
  rewrite Hsplit', scan_space_run, words_of_spaces by done.
  rewrite (IH (rev ws ++ rev w ++ b) u').
  - destruct u' as [|y u'']; [done|].
    destruct (words_of (y :: u'')) as [|w' ws'] eqn:Ewords.
    + exfalso. revert Ewords. cbn [words_of]. rewrite Hnext.
      destruct (match u'' with d :: _ => isspace d | [] => true end); [done|].
      by destruct (words_of u'').
    + rewrite (join_cons (lit " ") w (w' :: ws')) by done. reflexivity.
  - apply (f_equal length) in Hu. rewrite !length_app in Hu. simpl in Hu.
    destruct w; [done|]. destruct ws; [done|]. simpl in *. lia.
  - done.
  - rewrite Hu, !rev_app_distr in Hlast.
    destruct (rev u') eqn:E; [|done].
    apply (f_equal (@rev N)) in E. by rewrite rev_involutive in E.
Qed.

(** Flattening joins the words of the text with single spaces. *)
Lemma normalize_words text :
  normalize text = Py.join (lit " ") (words_of text).
Proof.
  rewrite <- (words_of_strip text). unfold normalize, sub.
  change (λ p, match p with Hit _ _ => lit " " | Gap c => [c] end)
    with (piece_text (lit " ")).
  apply (sub_words_fuel (length (Py.strip text))); [done| |].
  - unfold Py.strip. apply rstrip_with_head, lstrip_with_head.
  - unfold Py.strip, Py.rstrip_with. rewrite rev_involutive.
    apply lstrip_with_head.
Qed.

(** X11: flattening the text gives its words, joined by single plain
    spaces and in order: what [" ".join(text.split())] gives.  The words
    are the longest runs of code points that are not white space; together
    they hold every such code point of the text, once and in order.
    Flattening again changes nothing, and so the parser gives the same
    record for the text and for the flattened text. *)
Theorem parse_recipe_data_flattened (text : str) :
  normalize text = Py.join (lit " ") (words_of text)
  ∧ Forall word (words_of text)
  ∧ concat (words_of text) = filter (λ c, isspace c = false) text
  ∧ normalize (normalize text) = normalize text
  ∧ parse_recipe_data (normalize text) = parse_recipe_data text.
Proof.
  pose proof (normalize_words text) as Hflat.
  pose proof (words_of_words text) as Hwords.
  assert (normalize (normalize text) = normalize text) as Hidem.
  { rewrite Hflat. unfold normalize at 1. rewrite strip_words by done.
    unfold sub.
    change (λ p, match p with Hit _ _ => lit " " | Gap c => [c] end)
      with (piece_text (lit " ")).
    by apply scan_words. }
  split; [done|]. split; [done|]. split; [apply concat_words_of|].
  split; [done|].
  unfold parse_recipe_data. cbv zeta.
  change (sub NOFLAG whitespace_run (lit " ") (Py.strip (normalize text)))
    with (normalize (normalize text)).
  by rewrite Hidem.
Qed.

End flattened.

(** * The name of a note *)

Section note_name.
Context `{Runtime}.
Import Re ReFacts.

(** A word of a title: word characters and hyphens, at least one. *)
Definition title_word (w : str) : Prop := w ≠ [] ∧ Forall name_char w.

Lemma title_word_word w : title_word w → word w.
Proof.
  intros [Hne Hw]. split; [done|].
  eapply Forall_impl; [exact Hw|]. apply name_char_not_space.
Qed.

Lemma title_words_words words : Forall title_word words → Forall word words.
Proof. intros Hws. eapply Forall_impl; [exact Hws|]. apply title_word_word. Qed.

Lemma replace_join_words words :
  Forall word words →
  Py.replace space underscore (Py.join (lit " ") words)
  = Py.join (lit "_") words.
Proof.
  induction 1 as [|w words [Hne Hw] Hws IH]; [done|].
  assert (Py.replace space underscore w = w) as Hrw.
  { apply replace_id. eapply Forall_impl; [exact Hw|]. by intros c Hc ->. }
  destruct words as [|w' words]; [done|].
  rewrite (join_cons (lit " ")), (join_cons (lit "_")) by done.
  unfold Py.replace in *.
  rewrite !fmap_app, Hrw, IH. done.
Qed.

Lemma join_length (sep sep' : str) words :
  length sep = length sep' →
  length (Py.join sep words) = length (Py.join sep' words).
Proof.
  intros Hsep. induction words as [|w words IH]; [done|].
  destruct words as [|w' words]; [done|].
  rewrite (join_cons sep), (join_cons sep') by done.
  rewrite !length_app. lia.
Qed.

(** The removals, the white space rule and [strip] leave such a title as
    it is. *)
Lemma clean_words words :
  words ≠ [] → Forall title_word words →
  Py.strip (sub NOFLAG whitespace_run (lit " ")
              (sub NOFLAG not_word_space_hyphen []
                 (sub NOFLAG illegal_chars [] (Py.join (lit " ") words))))
  = Py.join (lit " ") words.
Proof.
  intros Hne Hws.
  assert (Forall (λ c, name_char c ∨ c = space) (Py.join (lit " ") words))
    as HF.
  { apply join_words_forall; [apply Forall_singleton; by right|].
    eapply Forall_impl; [exact Hws|]. intros w [_ Hw].
    eapply Forall_impl; [exact Hw|]. auto. }
  rewrite (sub_no_match NOFLAG illegal_chars).
  2:{ intros b a Ha. apply attempt_char_None.
      pose proof (suffix_head_forall _ _ _ HF Ha) as Hc.
      destruct a as [|c a]; [done|].
      unfold cset_match. simpl. unfold code. simpl.
      repeat (apply orb_false_iff; split); try done;
        apply N.eqb_neq; intros ->;
        (destruct Hc as [[Hc|Hc]|Hc]; [by vm_compute in Hc|done|done]). }
  rewrite (sub_no_match NOFLAG not_word_space_hyphen).
  2:{ intros b a Ha. apply attempt_char_None.
      pose proof (suffix_head_forall _ _ _ HF Ha) as Hc.
      destruct a as [|c a]; [done|].
      unfold cset_match. simpl. apply negb_false_iff.
      destruct Hc as [[->| ->]| ->]; [done| |done].
      rewrite N.eqb_refl. by rewrite !orb_true_r. }
  unfold sub.
  change (λ p, match p with Hit _ _ => lit " " | Gap c => [c] end)
    with (piece_text (lit " ")).
  rewrite scan_words by by apply title_words_words.
  by apply strip_words, title_words_words.
Qed.

(** X12: a title of words, each of word characters and hyphens, with one
    space between them and of at most 50 code points in all, gives the name
    that has an underscore for every space: nothing else is changed. *)
Theorem sanitize_filename_words (words : list str) :
  words ≠ [] → Forall title_word words →
  (length (Py.join (lit " ") words) ≤ 50)%nat →
  sanitize_filename (Py.join (lit " ") words) = Py.join (lit "_") words.
Proof.
  intros Hne Hws Hlen. unfold sanitize_filename.
  rewrite clean_words by done.
  rewrite replace_join_words by by apply title_words_words.
  rewrite (join_length (lit "_") (lit " ")) by done.
  rewrite bool_decide_eq_false_2 by lia.
  pose proof (join_words_not_empty (lit "_") words Hne
                (title_words_words _ Hws)).
  by destruct (Py.join (lit "_") words).
Qed.

End note_name.

(** ** The title taken from the file name *)

Section fallback_title.
Context `{Runtime}.
Import Os Batch.

Lemma basename_relative d (name : str) :
  d = [] ∨ (∃ d', d = d' ++ lit "/") → code "/" ∉ name →
  basename (d ++ name) = name.
Proof.
  intros Hd Hname. unfold basename. cbv zeta.
  destruct Hd as [->|[d' ->]].
  - simpl app. by rewrite rfind_absent.
  - rewrite <- app_assoc. change (lit "/" ++ ?l) with (code "/" :: l).
    rewrite rfind_last by done.
    replace (Z.to_nat (Z.of_nat (length d') + 1))
      with (length (d' ++ [code "/"])) by (rewrite length_app; simpl; lia).
    by rewrite (cons_middle (code "/") d' name), app_assoc, drop_app_length.
Qed.

Lemma str_replace_skip old new (u s : str) :
  str_replace old new (length u) (u ++ s) = str_replace old new 0 s.
Proof. induction u as [|c u IH]; [done|]. exact IH. Qed.

Lemma startswith_app (p s : str) : Py.startswith p (p ++ s) = true.
Proof.
  induction p as [|c p IH]; [done|]. cbn [app Py.startswith].
  by rewrite N.eqb_refl, IH.
Qed.

Lemma str_replace_prefix o (old' new s : str) :
  str_replace (o :: old') new 0 ((o :: old') ++ s)
  = new ++ str_replace (o :: old') new 0 s.
Proof.
  pose proof (startswith_app (o :: old') s) as Hs.
  cbn [app] in *. cbn [str_replace]. rewrite Hs.
  cbn [length]. by rewrite Nat.sub_succ, Nat.sub_0_r, str_replace_skip.
Qed.

Lemma str_replace_absent o (old' new s : str) :
  Forall (λ c, c ≠ o) s → str_replace (o :: old') new 0 s = s.
Proof.
  induction 1 as [|c s Hc%N.eqb_neq _ IH]; [done|].
  cbn [str_replace Py.startswith]. by rewrite N.eqb_sym, Hc, IH.
Qed.

Lemma ascii_digit_name_char c : ascii_digit c → name_char c.
Proof.
  intros Hc%ascii_digit_cases. left.
  repeat (destruct Hc as [->|Hc]; [done|]). by subst.
Qed.

(** The title [process_pdf_file] falls back on for part [n]. *)
Lemma fallback_title_of_part_file directory n :
  str_replace (lit "Tasty Shreds Jan-Feb-March_Part") (lit "Recipe ") 0
    (splitext (basename (part_file directory n))).1
  = lit "Recipe " ++ Py.str_of_nat n.
Proof.
  destruct (str_of_nat_ascii n) as [Hd Hne].
  unfold part_file. rewrite join_relative by done.
  set (ds := Py.str_of_nat n) in *.
  assert (∀ c, ascii_digit c → c ≠ code "/" ∧ c ≠ code "." ∧ c ≠ code "T")
    as Hdig.
  { intros c Hc. unfold ascii_digit in Hc. unfold code. simpl. lia. }
  assert (Forall (λ c, c ≠ code "/" ∧ c ≠ code ".")
            (lit "Tasty Shreds Jan-Feb-March_Part" ++ ds)) as Hstem.
  { apply Forall_app. split; [apply (bool_decide_unpack _); by vm_compute|].
    eapply Forall_impl; [exact Hd|]. intros c Hc. by destruct (Hdig c Hc) as (?&?&?). }
  rewrite basename_relative; [|apply dir_prefix_shape|].
  2:{ rewrite app_assoc. apply not_elem_of_app. split.
      - intros Hin. rewrite Forall_forall in Hstem. by destruct (Hstem _ Hin).
      - apply (bool_decide_unpack _). by vm_compute. }
  pose proof (splitext_stem [] (lit "Tasty Shreds Jan-Feb-March_Part" ++ ds)
                (lit "pdf") ltac:(by left) ltac:(done) Hstem
                ltac:(apply (bool_decide_unpack _); by vm_compute)) as Hsplit.
  rewrite !app_nil_l, <- app_assoc in Hsplit.
  change (code "." :: lit "pdf") with (lit ".pdf") in Hsplit.
  rewrite Hsplit. cbn [fst].
  change (lit "Tasty Shreds Jan-Feb-March_Part")
    with (code "T" :: lit "asty Shreds Jan-Feb-March_Part").
  rewrite str_replace_prefix. f_equal. apply str_replace_absent.
  eapply Forall_impl; [exact Hd|]. intros c Hc. by destruct (Hdig c Hc) as (?&?&?).
Qed.

Lemma sanitize_recipe_number (ds : str) :
  Forall ascii_digit ds → ds ≠ [] → (length ds ≤ 43)%nat →
  sanitize_filename (lit "Recipe " ++ ds) = lit "Recipe_" ++ ds.
Proof.
  intros Hd Hne Hlen.
  assert (Forall title_word [lit "Recipe"; ds]) as Hws.
  { apply Forall_cons. split.
    { unfold title_word, name_char. apply (bool_decide_unpack _). by vm_compute. }
    apply Forall_singleton. split; [done|].
    eapply Forall_impl; [exact Hd|]. apply ascii_digit_name_char. }
  change (lit "Recipe " ++ ds) with (Py.join (lit " ") [lit "Recipe"; ds]).
  change (lit "Recipe_" ++ ds) with (Py.join (lit "_") [lit "Recipe"; ds]).
  unfold sanitize_filename.
  rewrite clean_words by done.
  rewrite replace_join_words by by apply title_words_words.
  rewrite bool_decide_eq_false_2 by (simpl; lia).
  done.
Qed.

Variable extract_text_from_pdf : world → str → str.
Variable can_create : world → str → bool.
Variable write_error : world → str → str → option str.

(** X13: when the parser finds no title in the text of
    [Tasty Shreds Jan-Feb-March_Part<n>.pdf] and [process_pdf_file] returns
    [True], the note is headed [# Recipe <n>] and it is at
    [<output_dir>/Recipe_<n>.md], or at [<output_dir>/Recipe_<n>_<k>.md]
    when names are taken; [<n>] has at most 43 digits. *)
Theorem process_pdf_file_fallback_name (w w' : world)
    (directory output_dir : str) (n : nat) (r : recipe) :
  parse_recipe_data (extract_text_from_pdf w (part_file directory n)) = Ok r →
  title r = [] →
  (length (Py.str_of_nat n) ≤ 43)%nat →
  process_pdf_file extract_text_from_pdf can_create write_error w
    (part_file directory n) output_dir
  = Some (w', true) →
  ∃ rest k,
    let markdown := lit "# Recipe " ++ Py.str_of_nat n ++ nl ++ rest in
    let path := note_path output_dir (lit "Recipe_" ++ Py.str_of_nat n) in
    w' = <[path k := File markdown]> w
    ∧ w !! path k = None.
Proof.
  intros Hparse Htitle Hlen. unfold process_pdf_file.
  destruct (Py.truthy (extract_text_from_pdf w _)); cbn [negb]; [|done].
  unfold render. rewrite Hparse. cbn [mbind result_bind].
  rewrite Htitle. cbn [Py.truthy negb].
  rewrite fallback_title_of_part_file.
  set (recipe_data := with_title r _).
  destruct (create_markdown recipe_data) as [markdown|e] eqn:Hmd; [|done].
  cbn [mbind result_bind]. cbv zeta.
  assert (∃ rest, markdown = lit "# Recipe " ++ Py.str_of_nat n ++ nl ++ rest)
    as [rest ->].
  { destruct (generate_tags recipe_data) as [tags|e] eqn:Htags.
    - rewrite (create_markdown_blocks _ _ Htags) in Hmd. injection Hmd as <-.
      unfold heading_block. eexists.
      change (title recipe_data) with (lit "Recipe " ++ Py.str_of_nat n).
      rewrite <- !app_assoc. reflexivity.
    - unfold create_markdown in Hmd. by rewrite Htags in Hmd. }
  destruct (str_of_nat_ascii n) as [Hd Hne].
  pose proof (sanitize_recipe_number _ Hd Hne Hlen) as Hname.
  change (title recipe_data) with (lit "Recipe " ++ Py.str_of_nat n).
  destruct (free_path _ _ _ _ _) as [q|] eqn:Hq; [|done].
  apply free_path_note_path in Hq as (k & -> & Hfree & _).
  rewrite Hname in *.
  destruct (can_create _ _); [|done].
  destruct (encodable _); [|done].
  destruct (write_error _ _ _); [done|].
  intros [= <-]. exists rest, k. split; [done|].
  apply bool_decide_eq_false in Hfree. by apply eq_None_not_Some.
Qed.

End fallback_title.

Lemma sanitize_filename_words_example :
  sanitize_filename (H:=ascii_runtime)
    (Py.join (lit " ") [lit "Low-Carb"; lit "Turkey"; lit "Burrito"])
  = Py.join (lit "_") [lit "Low-Carb"; lit "Turkey"; lit "Burrito"].
Proof.
  apply (sanitize_filename_words (H:=ascii_runtime)
           [lit "Low-Carb"; lit "Turkey"; lit "Burrito"]).
  - done.
  - unfold title_word, name_char. apply (bool_decide_unpack _). by vm_compute.
  - vm_compute. lia.
Defined.

(** Text without a title: it is too short to be one. *)
Definition untitled : recipe :=
  {| title := []; calories := []; protein := []; ingredients := [];
     directions := []; pro_tips := [] |}.

Definition untitled_note : str :=
  match Batch.render (H:=ascii_runtime) (lit "Enjoy")
          (part_file (lit "book") 7) with
  | Ok (_, markdown) => markdown
  | Raise _ => []
  end.

Lemma process_pdf_file_fallback_name_example :
  ∃ rest k,
    let markdown := lit "# Recipe " ++ Py.str_of_nat 7 ++ nl ++ rest in
    let path := note_path (lit "out") (lit "Recipe_" ++ Py.str_of_nat 7) in
    <[lit "out/Recipe_7.md" := Os.File untitled_note]> (∅ : Os.world)
    = <[path k := Os.File markdown]> (∅ : Os.world)
    ∧ (∅ : Os.world) !! path k = None.
Proof.
  apply (process_pdf_file_fallback_name (H:=ascii_runtime)
           (λ _ _, lit "Enjoy") (λ _ _, true) (λ _ _ _, None) ∅ _
           (lit "book") (lit "out") 7 untitled).
  - reflexivity.
  - reflexivity.
  - vm_compute. lia.
  - vm_compute. reflexivity.
Defined.

(** * Numbered steps *)

Section numbered_steps.
Context `{Runtime}.
Import Re ReFacts.

(** The number of a step: ASCII digits, at least one. *)
Definition step_number (num : str) : Prop := num ≠ [] ∧ Forall ascii_digit num.

(** Text without a decimal digit and without a newline. *)
Definition plain (body : str) : Prop :=
  Forall (λ c, Py.isdigit c = false ∧ c ≠ newline) body.

(** A step as the text has it. *)
Definition segment (step : str * str) : str := step.1 ++ code "." :: step.2.

(** What may follow a step: the end, or the number and period of the next
    step. *)
Definition next_step (rest : str) : Prop :=
  rest = [] ∨ ∃ num rest', step_number num ∧ rest = num ++ code "." :: rest'.

Lemma cset_match_digit_dotall c : cset_match DOTALL digit c = Py.isdigit c.
Proof. unfold cset_match, digit. simpl. apply orb_false_r. Qed.

Lemma cset_match_dot fl c : ignorecase fl = false →
  cset_match fl dot c = (c =? code ".").
Proof.
  intros Hfl. unfold cset_match, dot. cbn [existsb item_match].
  rewrite Hfl. apply orb_false_r.
Qed.

(** A lazy run stops at the first position where the rest of the pattern
    matches. *)
Lemma repeat_one_lazy_run fl cs n b (body rest : str) k m :
  Forall (λ c, cset_match fl cs c = true) body →
  (∀ p c s, body = p ++ c :: s → k (rev p ++ b) (c :: s ++ rest) = None) →
  k (rev body ++ b) rest = Some m →
  repeat_one fl cs 0 None false n b (body ++ rest) k = Some m.
Proof.
  intros Hbody. revert n b.
  induction Hbody as [|c body Hc _ IH]; intros n b Hno Hk;
    rewrite repeat_one_unfold; cbv zeta;
    rewrite bool_decide_eq_true_2 by lia.
  - simpl in *. by rewrite Hk.
  - cbn [app]. pose proof (Hno [] c body eq_refl) as H0. cbn [rev app] in H0.
    rewrite H0. cbn [orelse below andb].
    rewrite Hc. apply IH.
    + intros p c' s ->. specialize (Hno (c :: p) c' s eq_refl).
      by rewrite <- Hno, (cons_middle c (rev p)), app_assoc.
    + by rewrite <- Hk, (cons_middle c (rev body)), app_assoc.
Qed.

Definition step_ahead : regex :=
  Lookahead (Alt (Seq (plus digit) (Seq (Char dot) Empty)) Eol).

Lemma step_ahead_next b rest cs k :
  next_step rest →
  rmatch DOTALL step_ahead {| before := b; after := rest; caps := cs |} k
  = k {| before := b; after := rest; caps := cs |}.
Proof.
  intros [->|(num & rest' & [Hne Hnum] & ->)]; unfold step_ahead, plus;
    cbn [rmatch before after caps].
  - rewrite repeat_one_unfold. by cbv.
  - rewrite (repeat_one_run DOTALL digit 1 0 b num (code "." :: rest') _
               {| before := code "." :: rev num ++ b; after := rest';
                  caps := cs |}).
    + done.
    + eapply Forall_impl; [exact Hnum|]. intros c Hc.
      rewrite cset_match_digit_dotall. by apply ascii_digit_isdigit.
    + by rewrite cset_match_digit_dotall.
    + destruct num; [done|]. simpl. lia.
    + cbn [rmatch before after caps]. rewrite cset_match_dot by done.
      by rewrite N.eqb_refl.
Qed.

Lemma step_ahead_plain b c a cs k :
  Py.isdigit c = false → c ≠ newline →
  rmatch DOTALL step_ahead {| before := b; after := c :: a; caps := cs |} k
  = None.
Proof.
  intros Hd Hn%N.eqb_neq. unfold step_ahead, plus.
  cbn [rmatch before after caps]. rewrite repeat_one_unfold. cbv zeta.
  cbn [below andb]. rewrite cset_match_digit_dotall, Hd.
  cbn [orelse]. rewrite bool_decide_eq_false_2 by lia. cbn [orelse].
  unfold at_eol. cbn [after]. by rewrite Hn.
Qed.

Lemma numbered_segment_eq :
  numbered_segment
  = Seq (Group 1 (Seq (plus digit) (Seq (Char dot) (Seq (lazy_star Any) Empty))))
        (Seq step_ahead Empty).
Proof. reflexivity. Qed.

(** One step is one match, and group 1 is its text. *)
Lemma attempt_step b num body rest :
  step_number num → plain body → next_step rest →
  attempt DOTALL numbered_segment false b (num ++ code "." :: body ++ rest)
  = Some {| before := rev body ++ code "." :: rev num ++ b; after := rest;
            caps := [(1%nat, num ++ code "." :: body)] |}.
Proof.
  intros [Hne Hnum] Hbody Hrest. unfold attempt. rewrite numbered_segment_eq.
  unfold plus, lazy_star. cbn [rmatch before after caps].
  apply repeat_one_run.
  - eapply Forall_impl; [exact Hnum|]. intros c Hc.
    rewrite cset_match_digit_dotall. by apply ascii_digit_isdigit.
  - by rewrite cset_match_digit_dotall.
  - destruct num; [done|]. simpl. lia.
  - cbn [rmatch before after caps]. rewrite cset_match_dot by done.
    rewrite N.eqb_refl. cbn [rmatch before after caps].
    apply repeat_one_lazy_run.
    + by apply Forall_true.
    + intros p c s ->. unfold set_group. cbn [before after caps].
      apply Forall_app in Hbody as [_ Hc]. apply Forall_cons in Hc as [[Hd Hn] _].
      by apply step_ahead_plain.
    + unfold set_group, span. cbn [before after caps].
      rewrite step_ahead_next by done. cbn [rmatch andb]. do 3 f_equal.
      replace (num ++ code "." :: body ++ rest)
        with ((num ++ code "." :: body) ++ rest) by by rewrite <- app_assoc.
      rewrite length_app, Nat.add_sub. by rewrite take_app_length.
Qed.

Lemma attempt_no_step b a :
  match a with
  | c :: _ => Py.isdigit c = false
  | [] => True
  end →
  attempt DOTALL numbered_segment false b a = None.
Proof.
  intros Ha. unfold attempt. rewrite numbered_segment_eq.
  unfold plus. cbn [rmatch before after caps].
  rewrite repeat_one_unfold. cbv zeta. destruct a as [|c a]; [done|].
  cbn [below andb]. by rewrite cset_match_digit_dotall, Ha.
Qed.

Definition group1_of (p : piece) : option str :=
  match p with
  | Hit _ m => Some (default [] (group 1 m))
  | Gap _ => None
  end.

Lemma concat_segments_next steps :
  Forall (λ step, step_number step.1 ∧ plain step.2) steps →
  next_step (concat (segment <$> steps)).
Proof.
  destruct 1 as [|[num body] steps [Hnum _] _]; [by left|].
  right. exists num, (body ++ concat (segment <$> steps)).
  split; [done|]. rewrite fmap_cons. cbn [concat]. unfold segment at 1.
  cbn [fst snd]. by rewrite <- app_assoc.
Qed.

Lemma scan_steps b steps :
  Forall (λ step, step_number step.1 ∧ plain step.2) steps →
  omap group1_of (scan DOTALL numbered_segment 0 b (concat (segment <$> steps)))
  = segment <$> steps.
Proof.
  intros Hsteps. revert b.
  induction Hsteps as [|[num body] steps [Hnum Hbody] Hsteps IH]; intros b.
  { cbn [fmap list_fmap concat scan]. by rewrite attempt_no_step. }
  pose proof (concat_segments_next steps Hsteps) as Hnext.
  rewrite !fmap_cons. cbn [concat]. unfold segment at 1 3. cbn [fst snd].
  rewrite <- app_assoc. cbn [app].
  pose proof (attempt_step b num body _ Hnum Hbody Hnext) as Hm.
  destruct Hnum as [Hne Hnum]. destruct num as [|d num]; [done|].
  cbn [app] in *. cbn [scan]. rewrite Hm.
  unfold hit_length. cbn [after length].
  rewrite !length_app. cbn [length]. rewrite !length_app.
  replace (S (length num + S (length body + length (concat (segment <$> steps))))
           - length (concat (segment <$> steps)))%nat
    with (S (length (num ++ code "." :: body))).
  2:{ rewrite length_app. simpl. lia. }
  unfold hit. cbn [omap list_omap group1_of group caps lookup_group].
  rewrite bool_decide_eq_true_2 by done. cbn [default].
  f_equal.
  replace (num ++ code "." :: body ++ concat (segment <$> steps))
    with ((num ++ code "." :: body) ++ concat (segment <$> steps))
    by by rewrite <- app_assoc.
  rewrite scan_skip. apply IH.
Qed.

Lemma omap_gaps (w : str) : omap group1_of (Gap <$> w) = [].
Proof. by induction w. Qed.

Lemma findall_steps lead steps :
  Forall (λ c, Py.isdigit c = false) lead →
  Forall (λ step, step_number step.1 ∧ plain step.2) steps →
  findall DOTALL numbered_segment (lead ++ concat (segment <$> steps))
  = segment <$> steps.
Proof.
  intros Hlead Hsteps. unfold findall.
  change (omap _ ?l) with (omap group1_of l).
  rewrite scan_skip_prefix.
  2:{ intros b c a Hc. apply attempt_no_step.
      rewrite Forall_forall in Hlead. by apply Hlead. }
  rewrite omap_app, omap_gaps. by apply scan_steps.
Qed.

(** *** The number is taken off a step *)

Lemma lstrip_with_stop p (x : str) c y :
  p c = false →
  Py.lstrip_with p (x ++ c :: y) = Py.lstrip_with p x ++ c :: y.
Proof.
  intros Hc. induction x as [|d x IH]; simpl; [by rewrite Hc|].
  by destruct (p d).
Qed.

Lemma rstrip_with_stop p (u : str) c v :
  p c = false →
  Py.rstrip_with p (u ++ c :: v) = u ++ c :: Py.rstrip_with p v.
Proof.
  intros Hc. unfold Py.rstrip_with.
  rewrite rev_app_distr. cbn [rev]. rewrite <- app_assoc. cbn [app].
  rewrite lstrip_with_stop by done.
  rewrite rev_app_distr. cbn [rev]. by rewrite rev_involutive, <- app_assoc.
Qed.

Lemma lstrip_with_all p (s : str) :
  Forall (λ c, p c = true) s → Py.lstrip_with p s = [].
Proof. induction 1 as [|c s Hc _ IH]; simpl; [done|]. by rewrite Hc. Qed.

(** Stripping one end, then the other, is [strip]. *)
Lemma lstrip_rstrip s :
  Py.lstrip_with isspace (Py.rstrip_with isspace s) = Py.strip s.
Proof.
  unfold Py.strip.
  destruct (lstrip_with_split isspace s) as (ws & Hs & Hws).
  destruct (Py.lstrip_with isspace s) as [|c core] eqn:E.
  - rewrite app_nil_r in Hs. subst ws.
    assert (Py.rstrip_with isspace s = []) as ->.
    { unfold Py.rstrip_with. rewrite lstrip_with_all; [done|].
      by apply Forall_rev. }
    done.
  - pose proof (lstrip_with_head isspace s) as Hc. rewrite E in Hc.
    rewrite Hs at 1. rewrite rstrip_with_stop by done.
    rewrite lstrip_with_stop by done. rewrite lstrip_with_all by done.
    cbn [app]. symmetry. by apply (rstrip_with_stop isspace []).
Qed.

Lemma attempt_not_bol adv b a :
  b ≠ [] → attempt NOFLAG segment_number adv b a = None.
Proof. by destruct b. Qed.

Lemma scan_not_bol b a :
  b ≠ [] → scan NOFLAG segment_number 0 b a = Gap <$> a.
Proof.
  revert b. induction a as [|d a IH]; intros b Hb; cbn [scan];
    rewrite attempt_not_bol by done; [done|]. by rewrite IH.
Qed.

Lemma segment_number_eq :
  segment_number
  = Seq Bol (Seq (plus digit) (Seq (opt dot) (Seq (star spaces) Empty))).
Proof. reflexivity. Qed.

(** An optional code point that is there is taken. *)
Lemma repeat_one_opt_take fl cs b c (a : str) k m :
  cset_match fl cs c = true → k (c :: b) a = Some m →
  repeat_one fl cs 0 (Some 1%nat) true 0 b (c :: a) k = Some m.
Proof.
  intros Hc Hk. rewrite repeat_one_unfold. cbv zeta. cbn [below].
  rewrite bool_decide_eq_true_2 by lia. rewrite Hc. cbn [andb].
  rewrite repeat_one_unfold. cbv zeta. cbn [below].
  rewrite (bool_decide_eq_false_2 (1 < 1)%nat) by lia.
  rewrite bool_decide_eq_true_2 by lia.
  destruct a; cbn [andb orelse]; by rewrite Hk.
Qed.

Lemma attempt_segment_number num (ws core : str) :
  step_number num → Forall (λ c, isspace c = true) ws →
  match core with
  | c :: _ => isspace c = false
  | [] => True
  end →
  attempt NOFLAG segment_number false [] (num ++ code "." :: ws ++ core)
  = Some {| before := rev ws ++ code "." :: rev num; after := core;
            caps := [] |}.
Proof.
  intros [Hne Hnum] Hws Hcore. unfold attempt. rewrite segment_number_eq.
  unfold plus, opt, star. cbn [rmatch before after caps at_bol].
  apply repeat_one_run.
  - eapply Forall_impl; [exact Hnum|]. intros c Hc.
    rewrite cset_match_digit. by apply ascii_digit_isdigit.
  - by rewrite cset_match_digit.
  - destruct num; [done|]. simpl. lia.
  - cbn [rmatch before after caps]. rewrite app_nil_r.
    apply repeat_one_opt_take.
    { rewrite cset_match_dot by done. apply N.eqb_refl. }
    cbn [rmatch before after caps]. apply repeat_one_run.
    + eapply Forall_impl; [exact Hws|]. intros c. by rewrite cset_match_spaces.
    + destruct core; [done|]. by rewrite cset_match_spaces.
    + lia.
    + done.
Qed.

(** The number, the period and the white space after it are removed, and
    nothing else: the pattern holds at the start only. *)
Lemma sub_segment_number num (ws core : str) :
  step_number num → Forall (λ c, isspace c = true) ws →
  match core with
  | c :: _ => isspace c = false
  | [] => True
  end →
  sub NOFLAG segment_number [] (num ++ code "." :: ws ++ core) = core.
Proof.
  intros Hnum Hws Hcore.
  pose proof (attempt_segment_number num ws core Hnum Hws Hcore) as Hm.
  destruct Hnum as [Hne _]. destruct num as [|d num]; [done|].
  unfold sub. cbn [app] in *. cbn [scan]. rewrite Hm.
  unfold hit_length. cbn [after length]. rewrite !length_app. cbn [length].
  rewrite !length_app.
  replace (S (length num + S (length ws + length core)) - length core)%nat
    with (S (length (num ++ code "." :: ws))).
  2:{ rewrite length_app. simpl. lia. }
  replace (num ++ code "." :: ws ++ core)
    with ((num ++ code "." :: ws) ++ core) by by rewrite <- app_assoc.
  rewrite scan_skip, scan_not_bol.
  2:{ by destruct (rev (num ++ code "." :: ws)). }
  rewrite fmap_cons. cbn [concat app].
  clear. induction core as [|c core IH]; [done|]. simpl. by f_equal.
Qed.

(** The loop body on a step: what is left is the text of the step,
    stripped. *)
Lemma numbered_item_segment num body :
  step_number num → numbered_item (num ++ code "." :: body) = Some (Py.strip body).
Proof.
  intros Hnum. pose proof Hnum as [Hne Hd]. unfold numbered_item. cbv zeta.
  assert (Py.strip (num ++ code "." :: body)
          = num ++ code "." :: Py.rstrip_with isspace body) as ->.
  { unfold Py.strip. rewrite lstrip_with_id.
    2:{ destruct num as [|d num]; [done|]. apply Forall_cons in Hd as [Hd _].
        by apply ascii_digit_not_space. }
    by apply rstrip_with_stop. }
  assert (Py.truthy (num ++ code "." :: Py.rstrip_with isspace body) = true)
    as -> by by destruct num.
  f_equal.
  destruct (lstrip_with_split isspace (Py.rstrip_with isspace body))
    as (ws & Hs & Hws).
  pose proof (lstrip_with_head isspace (Py.rstrip_with isspace body)) as Hcore.
  rewrite lstrip_rstrip in *.
  rewrite Hs, sub_segment_number by done.
  apply strip_idempotent.
Qed.

(** X14: where the text of a section is a list of numbered steps, each an
    ASCII number, a period and a text without digits or newlines, the
    entries are the texts of the steps, stripped, one per step and in
    order, the last step running to the end of the section; text without
    digits before the first number is dropped. *)
Theorem numbered_steps (lead : str) (steps : list (str * str)) :
  Forall (λ c, Py.isdigit c = false) lead →
  Forall (λ step, step_number step.1 ∧ plain step.2) steps →
  omap numbered_item
    (findall DOTALL numbered_segment (lead ++ concat (segment <$> steps)))
  = (λ step, Py.strip step.2) <$> steps.
Proof.
  intros Hlead Hsteps. rewrite findall_steps by done.
  induction Hsteps as [|[num body] steps [Hnum _] _ IH]; [done|].
  rewrite !fmap_cons. cbn [omap list_omap]. unfold segment at 1.
  cbn [fst snd]. rewrite numbered_item_segment by done.
  f_equal. apply IH.
Qed.

End numbered_steps.

Lemma numbered_steps_example :
  omap (numbered_item (H:=ascii_runtime))
    (Re.findall (H:=ascii_runtime) Re.DOTALL numbered_segment
       (lit "Then: "
        ++ concat (segment <$> [(lit "1", lit " Cook bacon ");
                                (lit "12", lit "Scramble eggs, twice")])))
  = (λ step, Py.strip step.2)
      <$> [(lit "1", lit " Cook bacon "); (lit "12", lit "Scramble eggs, twice")].
Proof.
  apply (numbered_steps (H:=ascii_runtime) (lit "Then: ")
           [(lit "1", lit " Cook bacon "); (lit "12", lit "Scramble eggs, twice")]).
  - apply (bool_decide_unpack _). by vm_compute.
  - unfold step_number, plain, ascii_digit.
    apply (bool_decide_unpack _). by vm_compute.
Defined.

(** A decimal number in a step is read as the number of a next step. *)
Example decimal_number_splits_step :
  omap (numbered_item (H:=ascii_runtime))
    (Re.findall (H:=ascii_runtime) Re.DOTALL numbered_segment
       (lit "1. Add 2.5 cups of milk"))
  = [lit "Add"; lit "5 cups of milk"].
Proof. reflexivity. Qed.

(** * A conversion that fails *)

Section false_cases.
Context `{Runtime}.
Import Os Batch Re ReFacts.

(** A code point UTF-8 can write: not a surrogate. *)
Definition scalar (c : N) : Prop := ¬ (55296 ≤ c ≤ 57343).

Lemma encodable_scalar s : Forall scalar s → encodable s = true.
Proof.
  unfold encodable. induction 1 as [|c s Hc _ IH]; [done|].
  cbn [forallb]. rewrite IH, andb_true_r. apply negb_true_iff.
  apply andb_false_iff. unfold scalar in Hc.
  destruct (N.leb_spec 55296 c); [|by left].
  right. apply N.leb_gt. lia.
Qed.

Lemma ascii_scalar c : is_ascii c = true → scalar c.
Proof. unfold is_ascii, scalar. intros ?%N.ltb_lt. lia. Qed.

Lemma split_forall (P : N → Prop) sep s :
  Forall P s → Forall (Forall P) (Py.split sep s).
Proof.
  induction 1 as [|c s Hc _ IH]; simpl; [by repeat constructor|].
  destruct (c =? sep); [by repeat constructor|].
  destruct (Py.split sep s) as [|line lines]; [by repeat constructor|].
  apply Forall_cons in IH as [Hl Hls]. by repeat constructor.
Qed.

Lemma normalize_forall (P : N → Prop) text :
  P space → Forall P text → Forall P (normalize text).
Proof.
  intros Hsp Ht. eapply Forall_impl; [apply normalize_from_text|].
  intros c [->|[Hc _]]; [done|]. rewrite Forall_forall in Ht. by apply Ht.
Qed.

(** The fields are made of code points of the text and plain spaces. *)
Lemma parse_recipe_data_forall (P : N → Prop) text r :
  P space → Forall P text → parse_recipe_data text = Ok r →
  Forall P (title r) ∧ Forall P (calories r) ∧ Forall P (protein r)
  ∧ Forall (Forall P) (ingredients r) ∧ Forall (Forall P) (directions r)
  ∧ Forall (Forall P) (pro_tips r).
Proof.
  intros Hsp Ht Hr. pose proof (normalize_forall P text Hsp Ht) as Hn.
  destruct (parse_recipe_data_fields text) as (t & Htitle & Hfields).
  rewrite Hfields in Hr. injection Hr as <-.
  cbn [title calories protein ingredients directions pro_tips].
  assert (∀ tips_text, Forall P tips_text →
            Forall (Forall P)
              (omap numbered_item (findall DOTALL numbered_segment tips_text)))
    as Hitems.
  { intros g Hg. apply (omap_forall _ (Forall P)); [|by apply findall_forall].
    intros x y Hx Hy. by destruct (numbered_item_forall P x y Hx Hy). }
  split; [|split; [|split; [|split; [|split]]]].
  - pose proof (find_title_forall _ _ _ _ Hn Htitle) as Ht'.
    destruct (negb (Py.truthy t)); [|done].
    pose proof (findall_forall _ IGNORECASE common_name _ Hn) as Hf.
    destruct Hf as [|name names Hname _]; [done|]. by apply strip_forall.
  - destruct (region IGNORECASE calorie_pattern _) eqn:E; simpl; [|done].
    by eapply region_forall.
  - destruct (region IGNORECASE protein_pattern _) eqn:E; simpl; [|done].
    by eapply region_forall.
  - destruct (region _ ingredients_pattern _) as [g|] eqn:E; [|done].
    pose proof (region_forall _ _ _ _ _ Hn E) as Hg.
    apply (omap_forall _ (Forall P)); [|by apply split_forall].
    intros x y Hx Hy. by destruct (ingredient_of_line_forall P x y Hx Hy).
  - destruct (region _ directions_pattern _) as [g|] eqn:E; [|done].
    apply Hitems. by eapply region_forall.
  - destruct (region _ pro_tips_pattern _) as [g|] eqn:E; [|done].
    apply Hitems. by eapply region_forall.
Qed.

Lemma vocabulary_ascii :
  Forall (Forall (λ c, is_ascii c = true)) vocabulary.
Proof. apply (bool_decide_unpack _). by vm_compute. Qed.

Ltac ascii_literal HP :=
  eapply Forall_impl; [|exact HP]; apply (bool_decide_unpack _); by vm_compute.

(** The note is made of the fields, of tags and of ASCII text. *)
Lemma create_markdown_forall (P : N → Prop) r markdown :
  (∀ c, is_ascii c = true → P c) →
  Forall P (title r) → Forall P (calories r) → Forall P (protein r) →
  Forall (Forall P) (ingredients r) → Forall (Forall P) (directions r) →
  Forall (Forall P) (pro_tips r) →
  create_markdown r = Ok markdown → Forall P markdown.
Proof.
  intros HP Ht Hc Hp Hi Hd Htips Hmd.
  destruct (generate_tags r) as [tags|e] eqn:Htags.
  2:{ unfold create_markdown in Hmd. by rewrite Htags in Hmd. }
  pose proof (create_markdown_blocks _ _ Htags) as Hb.
  assert (markdown = heading_block r tags ++ nutrition_block r
                     ++ ingredients_block r ++ directions_block r
                     ++ pro_tips_block r) as -> by congruence.
  clear Hb Hmd.
  assert (Forall P nl) as Hnl by (by apply Forall_singleton, HP).
  assert (∀ name lines, Forall P name → Forall (Forall P) lines →
            Forall P (list_block name lines)) as Hblock.
  { intros name lines Hname Hlines. unfold list_block.
    destruct (Py.truthy lines); [|done].
    rewrite !Forall_app. repeat split; try done. by apply Forall_concat. }
  rewrite !Forall_app. repeat split.
  - unfold heading_block. rewrite !Forall_app. repeat split; try done.
    + ascii_literal HP.
    + apply join_words_forall; [ascii_literal HP|].
      apply Forall_fmap, Forall_forall. intros tag Htag. unfold compose.
    cbv beta iota.
      apply Forall_app. split; [ascii_literal HP|].
      pose proof (generate_tags_vocabulary r tags tag Htags Htag) as Hv.
      pose proof vocabulary_ascii as Hva. rewrite Forall_forall in Hva.
      eapply Forall_impl; [exact (Hva _ Hv)|]. apply HP.
  - unfold nutrition_block. destruct (_ || _); [|done].
    rewrite !Forall_app. repeat split; try done.
    + ascii_literal HP.
    + destruct (Py.truthy (calories r)); [|done].
      rewrite !Forall_app. repeat split; try done. ascii_literal HP.
    + destruct (Py.truthy (protein r)); [|done].
      rewrite !Forall_app. repeat split; try done; ascii_literal HP.
  - apply Hblock; [ascii_literal HP|].
    apply Forall_fmap. eapply Forall_impl; [exact Hi|]. intros line Hline. unfold compose.
    cbv beta iota.
    rewrite !Forall_app. repeat split; try done. ascii_literal HP.
  - apply Hblock; [ascii_literal HP|].
    apply Forall_fmap, Forall_forall. intros [i d] Hin. unfold compose.
    cbv beta iota.
    apply elem_of_zip_r in Hin. rewrite Forall_forall in Hd.
    rewrite !Forall_app. repeat split; try done.
    + destruct (str_of_nat_ascii i) as [Hdig _].
      eapply Forall_impl; [exact Hdig|]. intros c Hc'. apply HP.
      unfold ascii_digit in Hc'. unfold is_ascii. apply N.ltb_lt. lia.
    + ascii_literal HP.
    + by apply Hd.
  - apply Hblock; [ascii_literal HP|].
    apply Forall_fmap. eapply Forall_impl; [exact Htips|]. intros tip Htip. unfold compose.
    cbv beta iota.
    rewrite !Forall_app. repeat split; try done. ascii_literal HP.
Qed.

Lemma str_replace_forall (P : N → Prop) old new skip s :
  Forall P new → Forall P s → Forall P (str_replace old new skip s).
Proof.
  intros Hnew Hs. revert skip.
  induction Hs as [|c s Hc _ IH]; intros skip; destruct skip; simpl; try done.
  destruct (Py.startswith old (c :: s)).
  - apply Forall_app. auto.
  - constructor; auto.
Qed.

Lemma splitext_forall (P : N → Prop) p : Forall P p → Forall P (splitext p).1.
Proof.
  intros Hp. unfold splitext. cbv zeta.
  destruct (_ <? _)%Z; [|done]. destruct (forallb _ _); [done|].
  cbn [fst]. by apply Forall_take.
Qed.

Lemma basename_forall (P : N → Prop) p : Forall P p → Forall P (basename p).
Proof. intros Hp. unfold basename. cbv zeta. by apply Forall_drop. Qed.

Lemma render_forall (P : N → Prop) text pdf_path recipe_data markdown :
  (∀ c, is_ascii c = true → P c) →
  Forall P text → Forall P pdf_path →
  render text pdf_path = Ok (recipe_data, markdown) → Forall P markdown.
Proof.
  intros HP Htext Hpath. unfold render.
  destruct (parse_recipe_data text) as [r|e] eqn:Hr; [|done].
  cbn [mbind result_bind].
  destruct (parse_recipe_data_forall P text r (HP space eq_refl) Htext Hr)
    as (Ht & Hc & Hp & Hi & Hd & Htips).
  match goal with
  | |- context [create_markdown ?rd] =>
      destruct (create_markdown rd) as [md|e] eqn:Hmd; [|done]
  end.
  cbn [mbind result_bind]. intros [= _ <-].
  eapply (create_markdown_forall P); [exact HP| | | | | | |exact Hmd];
    destruct (negb (Py.truthy (title r))); try done.
  cbn [title with_title].
  apply str_replace_forall; [ascii_literal HP|].
  by apply splitext_forall, basename_forall.
Qed.

Variable extract_text_from_pdf : world → str → str.
Variable can_create : world → str → bool.
Variable write_error : world → str → str → option str.

(** X15: when neither the extracted text nor the path of the PDF holds a
    surrogate code point, the note can be written as UTF-8: encoding it
    does not fail.  So a call of [process_pdf_file] that returns [False]
    has either left the files as they were, or the system has refused the
    writing after [open] had made the note, at a path
    [<output_dir>/<name>.md] or [<output_dir>/<name>_<k>.md] that was free:
    then the note stays, with what the system took of the text, and the
    other files are as they were. *)
Theorem process_pdf_file_false_cases (w w' : world)
    (pdf_path output_dir : str) :
  Forall scalar (extract_text_from_pdf w pdf_path) →
  Forall scalar pdf_path →
  process_pdf_file extract_text_from_pdf can_create write_error w pdf_path
    output_dir
  = Some (w', false) →
  w' = w
  ∨ ∃ recipe_data markdown k partial,
      let output_path :=
        note_path output_dir (sanitize_filename (title recipe_data)) k in
      render (extract_text_from_pdf w pdf_path) pdf_path
      = Ok (recipe_data, markdown)
      ∧ encodable markdown = true
      ∧ w !! output_path = None
      ∧ can_create w output_path = true
      ∧ write_error w output_path markdown = Some partial
      ∧ w' = <[output_path := File partial]> w.
Proof.
  intros Htext Hpath. unfold process_pdf_file.
  destruct (Py.truthy _); cbn [negb]; [|by intros [= <-]; left].
  destruct (render _ _) as [[recipe_data markdown]|e] eqn:Hr;
    [|by intros [= <-]; left].
  cbv zeta. destruct (free_path _ _ _ _ _) as [q|] eqn:Hq; [|done].
  apply free_path_note_path in Hq as (k & -> & Hfree & _).
  destruct (can_create w _) eqn:Hopen; [|by intros [= <-]; left].
  assert (encodable markdown = true) as Henc.
  { apply encodable_scalar. eapply render_forall;
      [apply ascii_scalar|exact Htext|exact Hpath|exact Hr]. }
  rewrite Henc.
  destruct (write_error w _ markdown) as [partial|] eqn:Hwrite; [|done].
  intros [= <-]. right. exists recipe_data, markdown, k, partial.
  cbv zeta. repeat split; try done.
  apply bool_decide_eq_false in Hfree. by apply eq_None_not_Some.
Qed.

End false_cases.

(** The disk is full when the note of a protein shake is written: the call
    returns [False] and leaves a note that holds the first two code points
    of the text. *)
Lemma process_pdf_file_false_cases_example :
  let w' := <[lit "out/Protein_Shake_120_calories.md" := Os.File (lit "# ")]> shelf
  in
  Batch.process_pdf_file (H:=ascii_runtime)
    (λ _ _, lit "Protein Shake 120 calories") (λ _ _, true)
    (λ _ _ markdown, Some (take 2 markdown)) shelf
    (lit "book/a.pdf") (lit "out")
  = Some (w', false)
  ∧ (w' = shelf
     ∨ ∃ recipe_data markdown k partial,
         let output_path :=
           note_path (lit "out")
             (sanitize_filename (H:=ascii_runtime) (title recipe_data)) k in
         Batch.render (H:=ascii_runtime) (lit "Protein Shake 120 calories")
           (lit "book/a.pdf")
         = Ok (recipe_data, markdown)
         ∧ Batch.encodable markdown = true
         ∧ shelf !! output_path = None
         ∧ true = true
         ∧ Some (take 2 markdown) = Some partial
         ∧ w' = <[output_path := Os.File partial]> shelf).
Proof.
  split; [vm_compute; reflexivity|].
  apply (process_pdf_file_false_cases (H:=ascii_runtime)
           (λ _ _, lit "Protein Shake 120 calories") (λ _ _, true)
           (λ _ _ markdown, Some (take 2 markdown)) shelf _
           (lit "book/a.pdf") (lit "out")).
  - unfold scalar. apply (bool_decide_unpack _). by vm_compute.
  - unfold scalar. apply (bool_decide_unpack _). by vm_compute.
  - vm_compute. reflexivity.
Defined.
